(** * lucal: the text rendering engine

    A shallow embedding of the Go packages [textwidth], [calendar],
    [holidays] and [render] of lucal, of what its interactive view renders
    and of the request of its command line, with the properties of its
    specification that they satisfy and further properties of the code.

    Conventions.
    - A Go [string] is modelled by the list of its code points ([text]);
      every string the program handles is valid UTF-8, on which the
      [regexp], [strings] and [range] operations used here work rune by
      rune.
    - A Go [int] is modelled by [Z].  Lengths and widths of strings held in
      memory stay far below 2^63; the one subtraction on a caller-supplied
      integer ([PadRight]) has its wrap-around written out.
    - A Go [map] is a [gmap]. *)

From Stdlib Require Import ZArith Lia Bool Ascii String DecimalString.
From Stdlib Require Import DecimalPos DecimalZ.
From stdpp Require Import base option list gmap.

Local Open Scope Z_scope.

Abbreviation rune := Z (only parsing).
Abbreviation text := (list Z) (only parsing).

(** ** Literals *)

(** The code points of an ASCII literal. *)
Definition lit (s : string) : text :=
  map (fun a => Z.of_nat (nat_of_ascii a)) (list_ascii_of_string s).

Definition ESC : rune := 27.
Definition NL : rune := 10.
Definition CR : rune := 13.
Definition SP : rune := 32.
(** U+2502, the vertical bar of the table border. *)
Definition BAR : rune := 9474.
(** U+20AC, the euro sign. *)
Definition EURO : rune := 8364.

(** ** Package strings and fmt *)

Module Strings.

(** [strings.Split(s, "\n")]: the empty string gives one empty line. *)
Fixpoint Split (s : text) : list text :=
  match s with
  | [] => [[]]
  | c :: s' =>
      if c =? NL then [] :: Split s'
      else match Split s' with
           | l :: ls => (c :: l) :: ls
           | [] => [[c]]
           end
  end.

(** [strings.Join(lines, "\n")]. *)
Fixpoint Join (lines : list text) : text :=
  match lines with
  | [] => []
  | [l] => l
  | l :: ls => l ++ NL :: Join ls
  end.

(** [strings.Repeat(" ", n)]. *)
Definition Repeat (c : rune) (n : Z) : text := replicate (Z.to_nat n) c.

(** [strings.HasPrefix(s, w)]. *)
Fixpoint HasPrefix (w s : text) : bool :=
  match w, s with
  | [], _ => true
  | a :: w', b :: s' => (a =? b) && HasPrefix w' s'
  | _ :: _, [] => false
  end.

(** [strings.Contains(s, w)]. *)
Fixpoint Contains (s w : text) : bool :=
  HasPrefix w s ||
  match s with
  | [] => false
  | _ :: s' => Contains s' w
  end.

End Strings.

Module Fmt.

(** [fmt.Sprintf("%d", n)]. *)
Definition d (n : Z) : text := lit (NilZero.string_of_int (Z.to_int n)).

(** Left padding with spaces up to [w] columns, as the width of a verb does. *)
Definition padLeft (w : nat) (s : text) : text :=
  replicate (w - length s) SP ++ s.

(** [fmt.Sprintf("%2d", n)]. *)
Definition d2 (n : Z) : text := padLeft 2 (d n).

(** A zero-padded non-negative number, [fmt.Sprintf("%02d", n)]. *)
Definition d02 (n : Z) : text :=
  if n <? 0 then d n else replicate (2 - length (d n)) 48 ++ d n.

End Fmt.

(** ** Package regexp

    The patterns of the program are built from character classes, literals,
    alternation and the greedy [+]; ReplaceAllString and FindStringIndex take
    the leftmost match, and at one position the match a backtracking search
    finds first. *)

Module Regexp.

(** [\s] is the class of tab, line feed, form feed, carriage return and space. *)
Definition isSpace (r : rune) : bool :=
  (r =? 9) || (r =? 10) || (r =? 12) || (r =? 13) || (r =? 32).

Definition isBar (r : rune) : bool := r =? BAR.

(** A piece of a pattern maps the text at the current position to the splits
    (matched, rest) it can make, in the order the search tries them. *)
Definition piece := text -> list (text * text).

(** One rune of a class. *)
Definition one (p : rune -> bool) : piece := fun s =>
  match s with
  | c :: s' => if p c then [([c], s')] else []
  | [] => []
  end.

(** [x+] over a class: the longest run first, then the shorter ones. *)
Fixpoint many1 (p : rune -> bool) (s : text) : list (text * text) :=
  match s with
  | c :: s' =>
      if p c then map (fun ar => (c :: ar.1, ar.2)) (many1 p s') ++ [([c], s')]
      else []
  | [] => []
  end.

(** A quoted literal. *)
Definition quoted (w : text) : piece := fun s =>
  if Strings.HasPrefix w s then [(w, drop (length w) s)] else [].

(** [a|b]: the left alternative is tried first. *)
Definition alt (a b : piece) : piece := fun s => a s ++ b s.

(** The pattern [(a)w(b)] at the current position: the candidate matches
    with the two groups and the text left after the match. *)
Definition groups (a : piece) (w : text) (b : piece) (s : text)
  : list (text * text * text) :=
  '(g1, r1) ← a s;
  '(_, r2) ← quoted w r1;
  '(g2, r3) ← b r2;
  [(g1, g2, r3)].

(** The match of a pattern at the current position, if any. *)
Definition matchHere (a : piece) (w : text) (b : piece) (s : text)
  : option (text * text * text) := head (groups a w b s).

(** ReplaceAllString, for a pattern that matches no empty text: [m] gives,
    at a position, the replacement and the text left after the match.  The
    scan resumes where the match ended; [skip] counts the runes of the
    match still to pass over. *)
Fixpoint replaceAllFrom (m : text -> option (text * text)) (skip : nat) (s : text)
  : text :=
  match s with
  | [] => []
  | c :: s' =>
      match skip with
      | S k => replaceAllFrom m k s'
      | O =>
          match m s with
          | Some (repl, rest) =>
              repl ++ replaceAllFrom m (length s' - length rest) s'
          | None => c :: replaceAllFrom m 0 s'
          end
      end
  end.

Definition ReplaceAll (m : text -> option (text * text)) (s : text) : text :=
  replaceAllFrom m 0 s.

(** The leftmost match: the text before it, the two groups, the text after. *)
Fixpoint Find (a : piece) (w : text) (b : piece) (s : text)
  : option (text * text * text * text) :=
  match matchHere a w b s with
  | Some (g1, g2, rest) => Some ([], g1, g2, rest)
  | None =>
      match s with
      | [] => None
      | c :: s' =>
          match Find a w b s' with
          | Some (before, g1, g2, rest) => Some (c :: before, g1, g2, rest)
          | None => None
          end
      end
  end.

End Regexp.

(** ** Package textwidth *)

Module Textwidth.

Section Encoder.

(** The two-byte codes of the GBK encoder of golang.org/x/text
    (simplifiedchinese.GBK): the encode tables of that library, which map a
    code point above ASCII to its two bytes, when it has a code. *)
Variable encodeTable : rune -> option (Z * Z).

(** One rune through the GBK encoder: ASCII is kept as one byte, the euro
    sign is the single byte 0x80 (code page 936), any other rune is two bytes
    from the tables or cannot be encoded. *)
Definition encodeRune (r : rune) : option (list Z) :=
  if r <? 128 then Some [r]
  else if r =? EURO then Some [128]
  else match encodeTable r with
       | Some (b1, b2) => Some [b1; b2]
       | None => None
       end.

(** [transform.String(encoder, s)]: the bytes, or an error at the first rune
    without a code. *)
Fixpoint encodeGBK (s : text) : option (list Z) :=
  match s with
  | [] => Some []
  | r :: s' =>
      match encodeRune r with
      | None => None
      | Some bs =>
          match encodeGBK s' with
          | None => None
          | Some rest => Some (bs ++ rest)
          end
      end
  end.

(** [ansiRegexp], the pattern ESC [ [0-9;]* m, at the current position: the
    text left after the match. *)
Definition isParam (r : rune) : bool := ((48 <=? r) && (r <=? 57)) || (r =? 59).

Fixpoint ansiParams (s : text) : option text :=
  match s with
  | [] => None
  | r :: s' =>
      if r =? 109 then Some s'
      else if isParam r then ansiParams s'
      else None
  end.

Definition ansiHere (s : text) : option text :=
  match s with
  | e :: b :: s' => if (e =? ESC) && (b =? 91) then ansiParams s' else None
  | _ => None
  end.

Definition stripANSI (s : text) : text :=
  Regexp.ReplaceAll (fun t => rest ← ansiHere t; Some ([], rest)) s.

Definition fallbackWidth (s : text) : Z :=
  fold_left
    (fun width r =>
       if (r =? NL) || (r =? CR) then width
       else if r <=? 127 then width + 1
       else width + 2)
    s 0.

Definition lineWidth (s : text) : Z :=
  match s with
  | [] => 0
  | _ =>
      let clean := stripANSI s in
      match encodeGBK clean with
      | None => fallbackWidth clean
      | Some encoded => Z.of_nat (length encoded)
      end
  end.

Definition StringWidth (s : text) : Z :=
  match s with
  | [] => 0
  | _ =>
      fold_left
        (fun maxWidth line =>
           let width := lineWidth line in
           if width >? maxWidth then width else maxWidth)
        (Strings.Split s) 0
  end.

(** A 64-bit signed integer result. *)
Definition wrap64 (z : Z) : Z := (z + 2 ^ 63) mod 2 ^ 64 - 2 ^ 63.

Definition PadRight (s : text) (width : Z) : text :=
  let diff := wrap64 (width - StringWidth s) in
  if diff <=? 0 then s else s ++ Strings.Repeat SP diff.

End Encoder.

(** A few entries of the GBK tables, for the examples. *)
Definition sampleTable (r : rune) : option (Z * Z) :=
  if r =? 20013 then Some (214, 208)        (* U+4E2D *)
  else if r =? 25991 then Some (206, 196)   (* U+6587 *)
  else if r =? 21021 then Some (179, 245)   (* U+521D *)
  else if r =? 233 then Some (168, 166)     (* U+00E9 *)
  else None.

End Textwidth.

(** ** Package time

    A [time.Time] is used by the program for its calendar date only; it is
    modelled by its civil day number, the count of days since 1970-01-01 in
    the proleptic Gregorian calendar.  The dates are those of the local time
    zone, taken to have every midnight (no clock change falls on it). *)

Module Time.

(** Day number of the civil date [y]-[m]-[d], for a month in 1..12. *)
Definition daysFromCivil (y m d : Z) : Z :=
  let y := if m <=? 2 then y - 1 else y in
  let era := y / 400 in
  let yoe := y - era * 400 in
  let mp := if m >? 2 then m - 3 else m + 9 in
  let doy := (153 * mp + 2) / 5 + d - 1 in
  let doe := yoe * 365 + yoe / 4 - yoe / 100 + doy in
  era * 146097 + doe - 719468.

(** Year, month and day of a day number: [t.Date()]. *)
Definition civil (t : Z) : Z * Z * Z :=
  let z := t + 719468 in
  let era := z / 146097 in
  let doe := z - era * 146097 in
  let yoe := (doe - doe / 1460 + doe / 36524 - doe / 146096) / 365 in
  let y := yoe + era * 400 in
  let doy := doe - (365 * yoe + yoe / 4 - yoe / 100) in
  let mp := (5 * doy + 2) / 153 in
  let d := doy - (153 * mp + 2) / 5 + 1 in
  let m := if mp <? 10 then mp + 3 else mp - 9 in
  (if m <=? 2 then y + 1 else y, m, d).

Definition Year (t : Z) : Z := (civil t).1.1.
Definition Month (t : Z) : Z := (civil t).1.2.
Definition Day (t : Z) : Z := (civil t).2.

(** [time.Date(y, m, d, 0, 0, 0, 0, loc)]: a month outside 1..12 and a day
    outside the month are normalised. *)
Definition Date (y m d : Z) : Z :=
  daysFromCivil (y + (m - 1) / 12) ((m - 1) mod 12 + 1) 1 + (d - 1).

(** [t.Weekday()], Sunday = 0. *)
Definition Weekday (t : Z) : Z := (t + 4) mod 7.

(** [t.AddDate(years, months, days)]: the date of [t] with the three
    numbers added to its year, month and day, normalised as [Date] does. *)
Definition AddDate (t years months days : Z) : Z :=
  let '(y, m, d) := civil t in Date (y + years) (m + months) (d + days).

Definition Equal (a b : Z) : bool := a =? b.
Definition After (a b : Z) : bool := a >? b.

End Time.

(** ** Package holidays *)

Module Holidays.

Record HolidayEntry := {
  Holiday : bool;
  EntryName : text;
}.

Record HolidayInfo := {
  IsHoliday : bool;
  Name : text;
}.

(** The year string, then the MM-DD string, to the entry. *)
Abbreviation Data := (gmap (list Z) (gmap (list Z) HolidayEntry)) (only parsing).

Definition GetHolidayForDate (data : option Data) (year month day : Z)
  : option HolidayInfo :=
  match data with
  | None => None
  | Some data =>
      let yearStr := Fmt.d year in
      let dateStr := Fmt.d02 month ++ lit "-" ++ Fmt.d02 day in
      match data !! yearStr with
      | None => None
      | Some yearData =>
          match yearData !! dateStr with
          | None => None
          | Some entry =>
              Some {| IsHoliday := Holiday entry; Name := EntryName entry |}
          end
      end
  end.

End Holidays.

(** ** Package calendar *)

Module Calendar.

Definition MinSupportedYear : Z := 1900.
Definition MaxSupportedYear : Z := 3000.

Inductive ViewMode := ModeMonth | ModeYear.

(** The type [Request] and its methods.  The two loops of [Normalize] have
    no bound in the source; their iterations are counted by [fuel], and
    [None] means that they ran out.  The fields are Go integers: the year,
    which the loops count up and down, wraps around. *)
Module Request.

Record t := {
  Year : Z;
  Month : Z;
  Mode : ViewMode;
}.

Fixpoint rollForward (fuel : nat) (r : t) : option t :=
  if Month r >? 12 then
    match fuel with
    | O => None
    | S fuel' =>
        rollForward fuel'
          {| Year := Textwidth.wrap64 (Year r + 1); Month := Month r - 12;
             Mode := Mode r |}
    end
  else Some r.

Fixpoint rollBack (fuel : nat) (r : t) : option t :=
  if Month r <? 1 then
    match fuel with
    | O => None
    | S fuel' =>
        rollBack fuel'
          {| Year := Textwidth.wrap64 (Year r - 1); Month := Month r + 12;
             Mode := Mode r |}
    end
  else Some r.

Definition Normalize (fuel : nat) (r : t) : option t :=
  r ← rollForward fuel r; rollBack fuel r.

Definition NextMonth (fuel : nat) (r : t) : option t :=
  Normalize fuel
    {| Year := Year r; Month := Textwidth.wrap64 (Month r + 1); Mode := Mode r |}.

Definition PreviousMonth (fuel : nat) (r : t) : option t :=
  Normalize fuel
    {| Year := Year r; Month := Textwidth.wrap64 (Month r - 1); Mode := Mode r |}.

Definition NextYear (r : t) : t :=
  {| Year := Textwidth.wrap64 (Year r + 1); Month := Month r; Mode := Mode r |}.

Definition PreviousYear (r : t) : t :=
  {| Year := Textwidth.wrap64 (Year r - 1); Month := Month r; Mode := Mode r |}.

End Request.

Record Day := {
  Date : Z;
  InMonth : bool;
  LunarDayAlias : text;
  LunarMonthAlias : text;
  SolarTerm : text;
  IsToday : bool;
  hasLunarData : bool;
  HolidayInfo : option Holidays.HolidayInfo;
}.

Definition isEmpty (s : text) : bool :=
  match s with [] => true | _ => false end.

(** The label of the first day of a lunar month, U+521D U+4E00. *)
Definition firstLunarDay : text := [21021; 19968].

Definition SecondaryLabel (d : Day) : text :=
  if negb (isEmpty (SolarTerm d)) then SolarTerm d
  else if bool_decide (LunarDayAlias d = firstLunarDay)
          && negb (isEmpty (LunarMonthAlias d))
  then LunarMonthAlias d
  else LunarDayAlias d.

Record MonthView := {
  Year : Z;
  Month : Z;
  Title : text;
  Weeks : list (list Day);
}.

Definition emptyView : MonthView :=
  {| Year := 0; Month := 0; Title := []; Weeks := [] |}.

Record Service := {
  now : Z;
  holidayData : option Holidays.Data;
}.

Inductive error := ErrYearOutOfRange | ErrInvalidMonth.

(** What the program reads from a value of the upstream lunar calendar
    ([calendarlib.BySolar]): the aliases of the lunar day and month, and the
    alias of the current solar term when it falls on the day. *)
Record Lunar := {
  DayAlias : text;
  MonthAlias : text;
  SolartermInDay : option text;
}.

Section Upstream.

Variable BySolar : Z -> Z -> Z -> Lunar.

Definition sameDay (a b : Z) : bool :=
  let '(y1, m1, d1) := Time.civil a in
  let '(y2, m2, d2) := Time.civil b in
  (y1 =? y2) && (m1 =? m2) && (d1 =? d2).

Definition buildDay (s : Service) (day currentMonth now : Z) : Day :=
  let inMonth := Time.Month day =? currentMonth in
  let isToday := sameDay day now in
  if (Time.Year day <? MinSupportedYear) || (Time.Year day >? MaxSupportedYear)
  then {| Date := day; InMonth := inMonth; LunarDayAlias := [];
          LunarMonthAlias := []; SolarTerm := []; IsToday := isToday;
          hasLunarData := false; HolidayInfo := None |}
  else
    let cal := BySolar (Time.Year day) (Time.Month day) (Time.Day day) in
    {| Date := day; InMonth := inMonth;
       LunarDayAlias := DayAlias cal;
       LunarMonthAlias := MonthAlias cal;
       SolarTerm := default [] (SolartermInDay cal);
       IsToday := isToday;
       hasLunarData := true;
       HolidayInfo :=
         match holidayData s with
         | Some _ =>
             Holidays.GetHolidayForDate (holidayData s)
               (Time.Year day) (Time.Month day) (Time.Day day)
         | None => None
         end |}.

(** The seven days of a week from the cursor, and the cursor after them. *)
Fixpoint fillWeek (s : Service) (n : nat) (cursor currentMonth now : Z)
  : list Day * Z :=
  match n with
  | O => ([], cursor)
  | S n' =>
      let day := buildDay s cursor currentMonth now in
      let '(days, cursor') :=
        fillWeek s n' (Time.AddDate cursor 0 0 1) currentMonth now in
      (day :: days, cursor')
  end.

(** The loop of [Service.Month] over the weeks; it has no bound in the source, so
    the iterations are counted by [fuel] and [None] means that they ran out. *)
Fixpoint weeksLoop (fuel : nat) (s : Service) (cursor end_ currentMonth now : Z)
  (weeks : list (list Day)) : option (list (list Day)) :=
  match fuel with
  | O => None
  | S fuel' =>
      let '(week, cursor) := fillWeek s 7 cursor currentMonth now in
      let weeks := weeks ++ [week] in
      if (Time.Equal cursor end_ || Time.After cursor end_)
         && (Time.Weekday cursor =? 0)
      then Some weeks
      else if (6 <=? Z.of_nat (length weeks))
              && Time.After cursor (Time.AddDate end_ 0 0 7)
      then Some weeks
      else weeksLoop fuel' s cursor end_ currentMonth now weeks
  end.

(** The method [Month] of [Service]. *)
Definition Service_Month (fuel : nat) (s : Service) (year month : Z)
  : option (MonthView * option error) :=
  if (year <? MinSupportedYear) || (year >? MaxSupportedYear)
  then Some (emptyView, Some ErrYearOutOfRange)
  else if (month <? 1) || (month >? 12)
  then Some (emptyView, Some ErrInvalidMonth)
  else
    let firstDay := Time.Date year month 1 in
    let start := Time.AddDate firstDay 0 0 (- Time.Weekday firstDay) in
    let end_ := Time.AddDate firstDay 0 1 0 in
    let now := now s in
    match weeksLoop fuel s start end_ (Time.Month firstDay) now [] with
    | None => None
    | Some weeks =>
        Some ({| Year := year;
                 Month := Time.Month firstDay;
                 Title := Fmt.d year ++ [32; 24180; 32] ++ Fmt.d month
                          ++ [32; 26376];
                 Weeks := weeks |}, None)
    end.

(** The loop of [Year] over the [n] months from [m]. *)
Fixpoint yearLoop (n fuel : nat) (s : Service) (year m : Z)
  (months : list MonthView) : option (list MonthView * option error) :=
  match n with
  | O => Some (months, None)
  | S n' =>
      match Service_Month fuel s year m with
      | None => None
      | Some (_, Some err) => Some ([], Some err)
      | Some (view, None) => yearLoop n' fuel s year (m + 1) (months ++ [view])
      end
  end.

(** The method [Year] of [Service]. *)
Definition Service_Year (fuel : nat) (s : Service) (year : Z)
  : option (list MonthView * option error) :=
  if (year <? MinSupportedYear) || (year >? MaxSupportedYear)
  then Some ([], Some ErrYearOutOfRange)
  else yearLoop 12 fuel s year 1 [].

End Upstream.

End Calendar.

(** ** Package render *)

Module Render.

Import Calendar.

Definition cellPadding : Z := 1.

Record MonthBlock := {
  Lines : list text;
  Width : Z;
  Height : Z;
}.

(** The loop of [Layout]: [n] is [len(blocks)], [idx] the index of the
    first block left. *)
Fixpoint layoutLines (n idx : nat) (blocks : list MonthBlock) (lines : list text)
  : list text :=
  match blocks with
  | [] => lines
  | block :: rest =>
      let lines := lines ++ Lines block in
      let lines := if negb (Nat.eqb idx (n - 1)) then lines ++ [[]] else lines in
      layoutLines n (S idx) rest lines
  end.

Definition Layout (blocks : list MonthBlock) (_ : Z) : text :=
  match blocks with
  | [] => []
  | _ => Strings.Join (layoutLines (length blocks) 0 blocks [])
  end.

Definition renderGregorianCell (day : Day) : text :=
  if negb (InMonth day) then []
  else Fmt.d2 (Time.Day (Date day)).

Definition renderLunarCell (day : Day) : text :=
  if negb (InMonth day) then []
  else
    let label := SecondaryLabel day in
    if isEmpty label then [SP; SP] else label.

Definition styleDayCell (day : Day) (content : text) : text :=
  if isEmpty content then [] else content.

Definition blankRow (cols : nat) : list text := replicate cols [].

Record highlightInfo := {
  day : Z;
  lunarLabel : text;
  hasHoliday : bool;
  isHoliday : bool;
  isToday : bool;
}.

(** The zero value, read from a map at a key it does not hold. *)
Definition noHighlight : highlightInfo :=
  {| day := 0; lunarLabel := []; hasHoliday := false; isHoliday := false;
     isToday := false |}.

(** The body of the loop of [buildMonthBlock] that collects the dates to
    highlight. *)
Definition collectDay (highlights : gmap Z highlightInfo) (d : Day)
  : gmap Z highlightInfo :=
  if negb (InMonth d) then highlights
  else
    let dayNum := Time.Day (Date d) in
    let lunarLabel := SecondaryLabel d in
    let lunarLabel := if isEmpty lunarLabel then [SP; SP] else lunarLabel in
    let info := {| day := dayNum; lunarLabel := lunarLabel;
                   hasHoliday := false; isHoliday := false;
                   isToday := IsToday d |} in
    match HolidayInfo d with
    | Some h =>
        <[dayNum := {| day := dayNum; lunarLabel := lunarLabel;
                       hasHoliday := true;
                       isHoliday := Holidays.IsHoliday h;
                       isToday := IsToday d |}]> highlights
    | None =>
        if IsToday d then <[dayNum := info]> highlights else highlights
    end.

Definition collectHighlights (view : MonthView) : gmap Z highlightInfo :=
  foldl (fun highlights week => foldl collectDay highlights week) ∅ (Weeks view).

Definition holidayStart : text := ESC :: lit "[38;2;59;130;246m".
Definition workdayStart : text := ESC :: lit "[38;2;249;115;22m".
Definition todayStart : text := ESC :: lit "[38;2;52;211;153m".
Definition colorEnd : text := ESC :: lit "[0m".

(** The color of a directive; both passes of [applyColors] choose it by the
    same chain of tests, and skip the directive when there is none. *)
Definition directiveColor (info : highlightInfo) : option text :=
  if hasHoliday info then
    if isHoliday info then Some holidayStart else Some workdayStart
  else if isToday info then Some todayStart
  else None.

(** The exchange of [dayNums[i]] and [dayNums[j]] when they are in
    ascending order. *)
Definition swapIfLess (i j : nat) (a : list Z) : list Z :=
  match a !! i, a !! j with
  | Some x, Some y => if x <? y then <[j := x]> (<[i := y]> a) else a
  | _, _ => a
  end.

(** The two nested loops that sort the day numbers in descending order. *)
Definition sortDescending (a : list Z) : list Z :=
  foldl
    (fun a i => foldl (fun a j => swapIfLess i j a) a (seq (S i) (length a - S i)))
    a (seq 0 (length a - 1)).

Definition spacesOrBar : Regexp.piece :=
  Regexp.alt (Regexp.many1 Regexp.isSpace) (Regexp.one Regexp.isBar).

Definition spaceOrBar : Regexp.piece :=
  Regexp.alt (Regexp.one Regexp.isSpace) (Regexp.one Regexp.isBar).

(** The pattern of a day numeral at the current position: for a day below
    10 the pattern (\s+)D(\s+|BAR), otherwise (\s|BAR)D(\s+|BAR). *)
Definition numeralHere (dayNum : Z) (s : text) : option (text * text * text) :=
  if dayNum <? 10
  then Regexp.matchHere (Regexp.many1 Regexp.isSpace) (Fmt.d dayNum) spacesOrBar s
  else Regexp.matchHere spaceOrBar (Fmt.d dayNum) spacesOrBar s.

(** The match and its replacement [${1}] color day end [${2}]. *)
Definition colorNumeralHere (dayNum : Z) (colorStart : text) (s : text)
  : option (text * text) :=
  '(g1, g2, rest) ← numeralHere dayNum s;
  Some (g1 ++ colorStart ++ Fmt.d dayNum ++ colorEnd ++ g2, rest).

(** First pass: the Gregorian dates. *)
Definition colorDate (highlights : gmap Z highlightInfo) (output : text)
  (dayNum : Z) : text :=
  let info := default noHighlight (highlights !! dayNum) in
  match directiveColor info with
  | None => output
  | Some colorStart =>
      Regexp.ReplaceAll (colorNumeralHere dayNum colorStart) output
  end.

(** The scan of the lines for the colored date, from line [i], over at most
    [n] lines: the lines, and whether a label was colored. *)
Fixpoint colorLabelFrom (n i : nat) (colorStart lunarLabel coloredDatePattern : text)
  (lines : list text) : list text * bool :=
  match n with
  | O => (lines, false)
  | S n' =>
      let next := colorLabelFrom n' (S i) colorStart lunarLabel
                    coloredDatePattern lines in
      match lines !! i, lines !! S i with
      | Some line, Some nextLine =>
          if Strings.Contains line coloredDatePattern then
            match Regexp.Find spaceOrBar lunarLabel spacesOrBar nextLine with
            | Some (before, g1, g3, after) =>
                let matched := g1 ++ lunarLabel ++ g3 in
                match Regexp.Find spaceOrBar lunarLabel spacesOrBar matched with
                | Some (_, p1, p3, _) =>
                    let coloredMatch :=
                      p1 ++ colorStart ++ lunarLabel ++ colorEnd ++ p3 in
                    (<[S i := before ++ coloredMatch ++ after]> lines, true)
                | None => next
                end
            | None => next
            end
          else next
      | _, _ => next
      end
  end.

(** Second pass, one directive: the lines and the keys of the labels
    colored so far. *)
Definition colorLabel (highlights : gmap Z highlightInfo)
  (st : list text * list text) (dayNum : Z) : list text * list text :=
  let '(lines, coloredLunarLabels) := st in
  let info := default noHighlight (highlights !! dayNum) in
  match directiveColor info with
  | None => st
  | Some colorStart =>
      let lunarKey := Fmt.d dayNum ++ lit ":" ++ lunarLabel info in
      if bool_decide (lunarKey ∈ coloredLunarLabels) then st
      else
        let coloredDatePattern := colorStart ++ Fmt.d dayNum ++ colorEnd in
        let '(lines', colored) :=
          colorLabelFrom (length lines - 1) 0 colorStart (lunarLabel info)
            coloredDatePattern lines in
        (lines', if colored then lunarKey :: coloredLunarLabels
                 else coloredLunarLabels)
  end.

(** [applyColors]; [noColorMode] is the global flag of the package, and the
    keys of the map are taken in the order [map_to_list] gives them before
    they are sorted. *)
Definition applyColors (noColorMode : bool) (output : text)
  (highlights : gmap Z highlightInfo) : text :=
  if noColorMode then output
  else
    let dayNums := sortDescending (map_to_list highlights).*1 in
    let output := foldl (colorDate highlights) output dayNums in
    let lines := Strings.Split output in
    let '(lines, _) := foldl (colorLabel highlights) (lines, []) dayNums in
    Strings.Join lines.

Definition applyDimColor (output : text) (view : MonthView) : text := output.

Fixpoint dropWhile_NL (s : text) : text :=
  match s with
  | c :: s' => if c =? NL then dropWhile_NL s' else s
  | [] => []
  end.

Section Table.

Variable encodeTable : rune -> option (Z * Z).

(** The table of bubbles and the styles of lipgloss: the view of a table
    with seven columns of a width and the given rows, the rounded border put
    around it, and the style of the title. *)
Variable tableView : Z -> list (list text) -> text.
Variable tableWrapper : text -> text.
Variable titleStyle : text -> text.

Definition determineColumnWidth (view : MonthView) : Z :=
  foldl
    (fun width week =>
       foldl
         (fun width day =>
            let width :=
              Z.max width (Textwidth.StringWidth encodeTable (renderGregorianCell day)) in
            Z.max width (Textwidth.StringWidth encodeTable (renderLunarCell day)))
         width week)
    4 (Weeks view).

(** The rows of the table: a blank row, then for each week its row of
    numerals and its row of labels, with a blank row between weeks. *)
Fixpoint tableRows (n weekIdx : nat) (weeks : list (list Day)) : list (list text) :=
  match weeks with
  | [] => []
  | week :: rest =>
      let gregorianRow := map (fun day => styleDayCell day (renderGregorianCell day)) week in
      let lunarRow := map (fun day => styleDayCell day (renderLunarCell day)) week in
      [gregorianRow; lunarRow]
      ++ (if negb (Nat.eqb weekIdx (n - 1)) then [blankRow (length week)] else [])
      ++ tableRows n (S weekIdx) rest
  end.

(** [strings.TrimRight(s, "\n")]. *)
Definition trimRightNL (s : text) : text :=
  reverse (dropWhile_NL (reverse s)).

Definition buildMonthBlock (noColorMode : bool) (view : MonthView) : MonthBlock :=
  let colWidth := determineColumnWidth view + cellPadding * 2 in
  let highlights := collectHighlights view in
  let rows := blankRow 7 :: tableRows (length (Weeks view)) 0 (Weeks view) in
  let tableView :=
    if noColorMode then trimRightNL (tableView colWidth rows)
    else tableWrapper (trimRightNL (tableView colWidth rows)) in
  let tableView := applyColors noColorMode tableView highlights in
  let tableView := applyDimColor tableView view in
  let title := if noColorMode then Title view else titleStyle (Title view) in
  let lines := [title; []] ++ Strings.Split tableView in
  let width :=
    foldl
      (fun width line =>
         let w := Textwidth.StringWidth encodeTable line in
         if w >? width then w else width)
      0 lines in
  {| Lines := lines; Width := width; Height := Z.of_nat (length lines) |}.

End Table.

Section Plain.

Variable BySolar : Z -> Z -> Z -> Lunar.
Variable encodeTable : rune -> option (Z * Z).
Variable tableView : Z -> list (list text) -> text.
Variable tableWrapper : text -> text.
Variable titleStyle : text -> text.

(** [BuildBlocks]: a block for each view, in order; [buildMonthBlock] has
    no error to return, so the error is always nil. *)
Definition BuildBlocks (noColorMode : bool) (views : list MonthView)
  : list MonthBlock * option error :=
  (map (buildMonthBlock encodeTable tableView tableWrapper titleStyle noColorMode)
     views, None).

(** [fetchViews] of the plain renderer. *)
Definition fetchViews (fuel : nat) (svc : Service) (req : Request.t)
  : option (list MonthView * option error) :=
  match Request.Mode req with
  | ModeYear => Service_Year BySolar fuel svc (Request.Year req)
  | ModeMonth =>
      match Service_Month BySolar fuel svc (Request.Year req) (Request.Month req) with
      | None => None
      | Some (_, Some err) => Some ([], Some err)
      | Some (view, None) => Some ([view], None)
      end
  end.

End Plain.

End Render.

(** ** Package tui: what the interactive view renders *)

Module Tui.

Import Calendar Render.

Section View.

Variable BySolar : Z -> Z -> Z -> Lunar.
Variable encodeTable : rune -> option (Z * Z).
Variable tableView : Z -> list (list text) -> text.
Variable tableWrapper : text -> text.
Variable titleStyle : text -> text.

(** The method [fetchViews] of the model: the month of the request,
    whatever its mode. *)
Definition fetchViews (fuel : nat) (svc : Service) (request : Request.t)
  : option (list MonthView * option error) :=
  match Service_Month BySolar fuel svc (Request.Year request) (Request.Month request) with
  | None => None
  | Some (_, Some err) => Some ([], Some err)
  | Some (month, None) => Some ([month], None)
  end.

(** The method [renderCalendar] of the model, from its fields [svc],
    [request] and [width]. *)
Definition renderCalendar (noColorMode : bool) (fuel : nat) (svc : Service)
  (request : Request.t) (width : Z) : option (text * option error) :=
  match fetchViews fuel svc request with
  | None => None
  | Some (_, Some err) => Some ([], Some err)
  | Some (views, None) =>
      match BuildBlocks encodeTable tableView tableWrapper titleStyle noColorMode views with
      | (_, Some err) => Some ([], Some err)
      | (blocks, None) =>
          let width := if width <=? 0 then 100 else width in
          Some (Layout blocks width, None)
      end
  end.

End View.

End Tui.

(** ** The command: the request of the command line *)

Module Main.

Import Calendar.

Inductive parseError :=
  | ErrNotANumber (value field : text)
  | ErrYearFlagArgs
  | ErrMonthRange (m : Z)
  | ErrTooManyArgs.

Section Args.

(** [strconv.Atoi]: the integer that a string denotes, if it denotes one. *)
Variable Atoi : text -> option Z.

Definition parseNumber (value field : text) : Z * option parseError :=
  match Atoi value with
  | Some n => (n, None)
  | None => (0, Some (ErrNotANumber value field))
  end.

(** The zero value [calendar.Request{}], returned beside an error. *)
Definition zeroRequest : Request.t :=
  {| Request.Year := 0; Request.Month := 0; Request.Mode := ModeMonth |}.

(** The statements of [parseRequest] after its switch. *)
Definition normalized (fuel : nat) (year month : Z) (showYear : bool)
  : option (Request.t * option parseError) :=
  let req := {| Request.Year := year; Request.Month := month;
                Request.Mode := if showYear then ModeYear else ModeMonth |} in
  r ← Request.Normalize fuel req; Some (r, None).

(** [parseRequest]; [now] is the day that [time.Now] gives. *)
Definition parseRequest (fuel : nat) (now : Z) (showYear : bool) (args : list text)
  : option (Request.t * option parseError) :=
  let year := Time.Year now in
  let month := Time.Month now in
  match args with
  | [] => normalized fuel year month showYear
  | [a] =>
      if showYear then
        match parseNumber a (lit "year") with
        | (_, Some err) => Some (zeroRequest, Some err)
        | (val, None) => normalized fuel val month showYear
        end
      else
        match parseNumber a (lit "month/year") with
        | (_, Some err) => Some (zeroRequest, Some err)
        | (val, None) =>
            if (1 <=? val) && (val <=? 12)
            then normalized fuel year val showYear
            else normalized fuel val month true
        end
  | [a; b] =>
      if showYear then Some (zeroRequest, Some ErrYearFlagArgs)
      else
        match parseNumber a (lit "year") with
        | (_, Some err) => Some (zeroRequest, Some err)
        | (y, None) =>
            match parseNumber b (lit "month") with
            | (_, Some err) => Some (zeroRequest, Some err)
            | (m, None) =>
                if (m <? 1) || (m >? 12)
                then Some (zeroRequest, Some (ErrMonthRange m))
                else normalized fuel y m showYear
            end
        end
  | _ => Some (zeroRequest, Some ErrTooManyArgs)
  end.

End Args.

End Main.

(** ** The width model of the specification *)

Module WidthSpec.

(** The columns of a code point: one up to the last narrow code point, two
    above it. *)
Definition columns (narrowMax : Z) (r : rune) : Z :=
  if r <=? narrowMax then 1 else 2.

Definition lineColumns (narrowMax : Z) (l : text) : Z :=
  foldr (λ r n, columns narrowMax r + n) 0 l.

(** The maximum over the lines of the columns of a line, its control
    sequences removed. *)
Definition Width (narrowMax : Z) (t : text) : Z :=
  foldr Z.max 0
    (map (λ l, lineColumns narrowMax (Textwidth.stripANSI l)) (Strings.Split t)).

Definition ASCII : Z := 127.
Definition Latin1 : Z := 255.

(** The two exceptions: the columns of a code point in a line that the GBK
    encoder accepts, where the euro sign is one byte, and in a line that it
    rejects, where a carriage return is passed over. *)
Definition hasCode (tbl : rune -> option (Z * Z)) (r : rune) : bool :=
  (r <? 128) || (r =? EURO) || bool_decide (is_Some (tbl r)).

Definition encodedColumns (r : rune) : Z :=
  if (r <? 128) || (r =? EURO) then 1 else 2.

Definition fallbackColumns (r : rune) : Z :=
  if (r =? NL) || (r =? CR) then 0 else if r <=? 127 then 1 else 2.

Definition exactLineColumns (tbl : rune -> option (Z * Z)) (l : text) : Z :=
  if forallb (hasCode tbl) l
  then foldr (λ r n, encodedColumns r + n) 0 l
  else foldr (λ r n, fallbackColumns r + n) 0 l.

(** A well-formed color-control sequence: ESC, an opening bracket, digits
    and semicolons, and the letter m. *)
Definition ControlSequence (c : text) : Prop :=
  ∃ ps, c = ESC :: 91 :: ps ++ [109] ∧ Forall (λ r, Textwidth.isParam r = true) ps.

(** The state of a scan for a control sequence: outside, after ESC, or after
    ESC and the bracket with only digits and semicolons since. *)
Inductive scanState := Outside | AfterEsc | InParams.

Definition scanStep (st : scanState) (r : rune) : scanState :=
  if r =? ESC then AfterEsc
  else match st with
       | AfterEsc => if r =? 91 then InParams else Outside
       | InParams => if Textwidth.isParam r then InParams else Outside
       | Outside => Outside
       end.

Definition scanEnd (a : text) : scanState := foldl scanStep Outside a.

(** The place between [a] and [b] is inside a control sequence of their
    concatenation: [a] ends with the beginning of one, which [b] completes. *)
Definition insideSequence (a b : text) : bool :=
  match scanEnd a with
  | Outside => false
  | AfterEsc =>
      match b with
      | r :: b' => (r =? 91) && bool_decide (is_Some (Textwidth.ansiParams b'))
      | [] => false
      end
  | InParams => bool_decide (is_Some (Textwidth.ansiParams b))
  end.

End WidthSpec.

(** ** The check of the calendar conversions over one era

    The conversions between day numbers and civil dates repeat every 400
    years, that is every 146097 days; what they do within an era is checked
    day by day. *)

Module TimeCheck.

(** The day [doe] of an era has a year of era below 400, a month in 1..12
    and a day in 1..31, and the way back gives [doe] again. *)
Definition eraDay (doe : Z) : bool :=
  let yoe := (doe - doe / 1460 + doe / 36524 - doe / 146096) / 365 in
  let doy := doe - (365 * yoe + yoe / 4 - yoe / 100) in
  let mp := (5 * doy + 2) / 153 in
  let d := doy - (153 * mp + 2) / 5 + 1 in
  let m := if mp <? 10 then mp + 3 else mp - 9 in
  let mp' := if m >? 2 then m - 3 else m + 9 in
  (0 <=? yoe) && (yoe <? 400) && (1 <=? m) && (m <=? 12) && (1 <=? d) && (d <=? 31)
  && (yoe * 365 + yoe / 4 - yoe / 100 + ((153 * mp' + 2) / 5 + d - 1) =? doe).

(** [p] holds of the [n] integers from [z]. *)
Fixpoint allFrom (n : nat) (z : Z) (p : Z -> bool) : bool :=
  match n with
  | O => true
  | S k => p z && allFrom k (z + 1) p
  end.

Definition inRange (lo hi x : Z) : bool := (lo <=? x) && (x <=? hi).

(** The [k]-th month from January 1900 has 28 to 31 days: the day one month
    after its first day is that many days later. *)
Definition monthDays (k : Z) : bool :=
  inRange 28 31
    (Time.AddDate (Time.Date (1900 + k / 12) (1 + k mod 12) 1) 0 1 0
     - Time.Date (1900 + k / 12) (1 + k mod 12) 1).

(** The day [doe] of the era that starts on 0000-03-01 comes before the
    first day of the month after its own. *)
Definition monthEnd (doe : Z) : bool :=
  let t := doe - 719468 in
  let '(y, m, _) := Time.civil t in
  t <? (if m =? 12 then Time.daysFromCivil (y + 1) 1 1
        else Time.daysFromCivil y (m + 1) 1).

End TimeCheck.

(** ** The grid and the composer of the specification *)

Module GridSpec.

Import Calendar.






End GridSpec.

Module ComposerSpec.

(** The lines of the blocks in order, one blank line between two
    consecutive blocks. *)
Fixpoint stack (blocks : list (list text)) : list text :=
  match blocks with
  | [] => []
  | [b] => b
  | b :: rest => b ++ [] :: stack rest
  end.

Definition Compose (blocks : list (list text)) : text :=
  Strings.Join (stack blocks).

End ComposerSpec.

(** * Notions used by the properties *)

Module Notions.

Import Strings Regexp Textwidth Calendar Render.

(** The number of line breaks of a text. *)
Definition lineBreaks (s : text) : nat := length (filter (λ c, c = NL) s).

(** A matcher takes a non-empty prefix of the text. *)
Definition consuming (m : text → option (text * text)) : Prop :=
  ∀ s repl rest, m s = Some (repl, rest) → ∃ c pre, s = c :: pre ++ rest.

(** A piece splits the text: what it takes and what it leaves make the
    text again. *)
Definition splits (p : piece) : Prop := ∀ s a r, (a, r) ∈ p s → s = a ++ r.

(** A piece that takes at least one rune. *)
Definition takes (p : piece) : Prop := ∀ s a r, (a, r) ∈ p s → a ≠ [].



(** The matcher of [stripANSI]: a control sequence, replaced by nothing. *)
Definition ansiMatcher (t : text) : option (text * text) :=
  rest ← ansiHere t; Some ([], rest).

(** The width of a line after its control sequences are removed. *)
Definition cleanWidth (tbl : rune → option (Z * Z)) (clean : text) : Z :=
  match encodeGBK tbl clean with
  | None => fallbackWidth clean
  | Some encoded => Z.of_nat (length encoded)
  end.

(** A list of [n] lines, none of which holds a line break. *)
Definition sameLines (n : nat) (lines : list text) : Prop :=
  length lines = n ∧ Forall (λ l, NL ∉ l) lines.

(** The values at the first [i] places are at least those at every later
    place. *)
Definition sortedUpTo (i : nat) (a : list Z) : Prop :=
  ∀ p q x y, (p < i)%nat → (p < q)%nat → a !! p = Some x → a !! q = Some y → y ≤ x.

(** A day built for one of the [n] dates from [cursor]. *)
Definition builtIn (BySolar : Z → Z → Z → Lunar) (s : Service)
    (currentMonth now cursor n : Z) (d : Day) : Prop :=
  ∃ t, cursor ≤ t < cursor + n ∧ d = buildDay BySolar s t currentMonth now.



(** A white space or the bar of the border: what stands on both sides of a
    numeral or a label in the patterns of the annotator. *)
Definition isSeparator (r : rune) : bool := Regexp.isSpace r || Regexp.isBar r.

(** A piece that takes separators only, and at least one. *)
Definition separates (p : Regexp.piece) : Prop :=
  ∀ s a r, (a, r) ∈ p s → a ≠ [] ∧ Forall (λ c, isSeparator c = true) a.

(** A Go [int]. *)
Definition isInt (z : Z) : Prop := - 2 ^ 63 ≤ z < 2 ^ 63.

(** The days built for the [n] dates from [cursor], and the [k] weeks from
    [cursor]. *)
Definition daysFrom (BySolar : Z → Z → Z → Lunar) (s : Service)
    (currentMonth now cursor n : Z) : list Day :=
  (λ t, buildDay BySolar s t currentMonth now) <$> seqZ cursor n.

Definition weeksFrom (BySolar : Z → Z → Z → Lunar) (s : Service)
    (currentMonth now cursor k : Z) : list (list Day) :=
  (λ i, daysFrom BySolar s currentMonth now (cursor + 7 * i) 7) <$> seqZ 0 k.

(** The key of a date in the data of a year, and the data with an entry
    put under the keys of a date. *)
Definition dateKey (month day : Z) : text :=
  Fmt.d02 month ++ lit "-" ++ Fmt.d02 day.

Definition withEntry (data : Holidays.Data) (year month day : Z)
    (entry : Holidays.HolidayEntry) : Holidays.Data :=
  <[Fmt.d year := <[dateKey month day := entry]> (default ∅ (data !! Fmt.d year))]> data.

(** The numerals from 0 to 99 in two digits. *)
Definition twoDigits (k : Z) : bool :=
  bool_decide (Fmt.d02 k = [48 + k / 10; 48 + k mod 10]).

(** The directive that a day of the month leaves when it is today or has
    holiday data. *)
Definition directiveOf (d : Day) : highlightInfo :=
  {| day := Time.Day (Date d);
     lunarLabel := renderLunarCell d;
     hasHoliday := bool_decide (is_Some (HolidayInfo d));
     isHoliday := from_option Holidays.IsHoliday false (HolidayInfo d);
     isToday := IsToday d |}.

(** A day that is to be highlighted: a day of the month that is today or
    has holiday data. *)
Definition marked (d : Day) : bool :=
  InMonth d && (IsToday d || bool_decide (is_Some (HolidayInfo d))).

(** A day and a view without their marks: not today, no holiday data. *)
Definition unmarked (d : Day) : Day :=
  {| Date := Date d; InMonth := InMonth d; LunarDayAlias := LunarDayAlias d;
     LunarMonthAlias := LunarMonthAlias d; SolarTerm := SolarTerm d;
     IsToday := false; hasLunarData := hasLunarData d; HolidayInfo := None |}.

Definition clearMarks (view : MonthView) : MonthView :=
  {| Year := Year view; Month := Month view; Title := Title view;
     Weeks := map (map unmarked) (Weeks view) |}.

(** The text of the table of a view, as it is given to the annotator. *)
Definition tableText (tbl : rune → option (Z * Z))
    (tableView : Z → list (list text) → text) (tableWrapper : text → text)
    (noColorMode : bool) (view : MonthView) : text :=
  let table :=
    trimRightNL
      (tableView (determineColumnWidth tbl view + cellPadding * 2)
         (blankRow 7 :: tableRows (length (Weeks view)) 0 (Weeks view))) in
  if noColorMode then table else tableWrapper table.

(** What [parseRequest] gives: beside an error the zero request; without
    one a request with its month in 1..12, which [Normalize] leaves as it
    is, for the whole year when the flag asks for it. *)
Definition parsed (showYear : bool) (result : Request.t * option Main.parseError)
  : Prop :=
  match result.2 with
  | Some _ => result.1 = Main.zeroRequest
  | None =>
      1 ≤ Request.Month result.1 ≤ 12
      ∧ (showYear = true → Request.Mode result.1 = ModeYear)
      ∧ ∀ fuel, Request.Normalize fuel result.1 = Some result.1
  end.

End Notions.

Import Notions.

(** ** Sample data *)

(** A service without lunar data, for which 1 October 2025 is today and a
    holiday, and its view of that month. *)
Definition plainLunar (y m d : Z) : Calendar.Lunar :=
  {| Calendar.DayAlias := []; Calendar.MonthAlias := [];
     Calendar.SolartermInDay := None |}.

Definition holidayService : Calendar.Service :=
  {| Calendar.now := Time.Date 2025 10 1;
     Calendar.holidayData :=
       Some {[ lit "2025" :=
                 {[ lit "10-01" := {| Holidays.Holiday := true;
                                      Holidays.EntryName := [] |} ]} ]} |}.

Definition nationalDay : Calendar.Day :=
  Calendar.buildDay plainLunar holidayService (Time.Date 2025 10 1) 10
    (Time.Date 2025 10 1).

Definition nationalDayView : Calendar.MonthView :=
  match Calendar.Service_Month plainLunar 6 holidayService 2025 10 with
  | Some (view, _) => view
  | None => Calendar.emptyView
  end.

(** The service without holidays, on 18 November 2025. *)
Definition plainService : Calendar.Service :=
  {| Calendar.now := Time.Date 2025 11 18; Calendar.holidayData := None |}.

(** A reading of the decimal numerals without sign, and a table without
    border nor padding, for the examples. *)
Fixpoint digitsValue (acc : Z) (s : text) : option Z :=
  match s with
  | [] => Some acc
  | c :: s' =>
      if (48 <=? c) && (c <=? 57) then digitsValue (10 * acc + (c - 48)) s'
      else None
  end.

Definition sampleAtoi (s : text) : option Z :=
  match s with
  | [] => None
  | _ => digitsValue 0 s
  end.

Definition sampleTableView (width : Z) (rows : list (list text)) : text :=
  Strings.Join (map (λ row, concat row) rows).

Definition december2025 : Calendar.Request.t :=
  {| Calendar.Request.Year := 2025; Calendar.Request.Month := 12;
     Calendar.Request.Mode := Calendar.ModeMonth |}.


(** * Properties of the model *)

(** ** Lines and line breaks *)

Section StringsFacts.

Import Strings.

Lemma lineBreaks_app s t : lineBreaks (s ++ t) = (lineBreaks s + lineBreaks t)%nat.
Proof. unfold lineBreaks. by rewrite filter_app, length_app. Qed.

Lemma lineBreaks_cons c s :
  lineBreaks (c :: s) = ((if (c =? NL)%Z then 1 else 0) + lineBreaks s)%nat.
Proof.
  unfold lineBreaks. rewrite filter_cons.
  destruct (Z.eqb_spec c NL); case_decide; simpl; congruence.
Qed.

Lemma lineBreaks_zero s : lineBreaks s = 0%nat ↔ NL ∉ s.
Proof.
  induction s as [|c s IH].
  - split; [intros _; apply not_elem_of_nil | done].
  - rewrite lineBreaks_cons, not_elem_of_cons, <- IH.
    destruct (Z.eqb_spec c NL) as [->|Hc]; split.
    + intros H. simpl in H. lia.
    + intros [? _]. congruence.
    + intros H. split; [congruence | simpl in H; lia].
    + intros [_ H]. simpl. lia.
Qed.

Lemma Split_nonempty s : Split s ≠ [].
Proof.
  destruct s as [|c s]; simpl; [done|].
  destruct (c =? NL); [done|]. by destruct (Split s).
Qed.

Lemma Split_lines s : Forall (λ l, NL ∉ l) (Split s).
Proof.
  induction s as [|c s IH]; simpl.
  - repeat constructor. apply not_elem_of_nil.
  - destruct (Z.eqb_spec c NL) as [->|Hc].
    + constructor; [apply not_elem_of_nil | done].
    + destruct (Split s) as [|l ls].
      * repeat constructor. rewrite list_elem_of_singleton. congruence.
      * inversion_clear IH. constructor; [|done].
        rewrite not_elem_of_cons. split; [congruence | done].
Qed.

Lemma Join_Split s : Join (Split s) = s.
Proof.
  induction s as [|c s IH]; simpl; [done|].
  destruct (Z.eqb_spec c NL) as [->|Hc].
  - pose proof (Split_nonempty s).
    destruct (Split s) as [|l ls] eqn:E; [done|].
    change (Join ([] :: l :: ls)) with (NL :: Join (l :: ls)). by rewrite IH.
  - pose proof (Split_nonempty s).
    destruct (Split s) as [|l ls] eqn:E; [done|].
    rewrite <- IH. by destruct ls.
Qed.

Lemma Join_cons l ls : ls ≠ [] → Join (l :: ls) = l ++ NL :: Join ls.
Proof. by destruct ls. Qed.

Lemma Split_line_cons l s : NL ∉ l → Split (l ++ NL :: s) = l :: Split s.
Proof.
  induction l as [|c l IH]; simpl; intros Hl.
  - done.
  - apply not_elem_of_cons in Hl as [Hc Hl].
    destruct (Z.eqb_spec c NL); [congruence|]. by rewrite IH.
Qed.

Lemma Split_line l : NL ∉ l → Split l = [l].
Proof.
  induction l as [|c l IH]; simpl; intros Hl; [done|].
  apply not_elem_of_cons in Hl as [Hc Hl].
  destruct (Z.eqb_spec c NL); [congruence|]. by rewrite IH.
Qed.

Lemma Split_Join ls : ls ≠ [] → Forall (λ l, NL ∉ l) ls → Split (Join ls) = ls.
Proof.
  induction ls as [|l ls IH]; [done|]. intros _ H. inversion_clear H.
  destruct ls as [|l' ls'].
  - simpl. by apply Split_line.
  - rewrite Join_cons by done. rewrite Split_line_cons by done.
    by rewrite IH.
Qed.

Lemma Join_head_app c l rs : Join ((c ++ l) :: rs) = c ++ Join (l :: rs).
Proof. destruct rs; simpl; [done|]. by rewrite <- app_assoc. Qed.

Lemma Join_app_line ls l x rs :
  Join (ls ++ (l ++ x) :: rs) = Join (ls ++ [l]) ++ Join (x :: rs).
Proof.
  induction ls as [|k ls IH].
  - simpl. destruct rs; [done|]. by rewrite <- app_assoc.
  - rewrite <- !app_comm_cons.
    rewrite !Join_cons by (by destruct ls).
    rewrite IH. by rewrite <- app_assoc.
Qed.

(** The lines of a text made of two parts: the last line of the first part
    and the first line of the second are one line. *)
Lemma Split_app a b :
  ∃ ia la fb rb,
    Split a = ia ++ [la] ∧ Split b = fb :: rb ∧
    Split (a ++ b) = ia ++ (la ++ fb) :: rb ∧
    ∀ c, NL ∉ c → Split (a ++ c ++ b) = ia ++ (la ++ c ++ fb) :: rb.
Proof.
  pose proof (Split_nonempty a) as Ha. pose proof (Split_nonempty b) as Hb.
  pose proof (Split_lines a) as La. pose proof (Split_lines b) as Lb.
  destruct (Split b) as [|fb rb] eqn:Eb; [done|].
  destruct (Split a) as [|x xs] eqn:Ea using rev_ind; [done|]. clear IHxs.
  rename x into la, xs into ia.
  exists ia, la, fb, rb. split; [done|]. split; [done|].
  apply Forall_app in La as [Hia Hla]. inversion_clear Hla.
  inversion_clear Lb.
  assert (∀ c, NL ∉ c → Split (a ++ c ++ b) = ia ++ (la ++ c ++ fb) :: rb) as Hc.
  { intros c Hc.
    rewrite <- (Join_Split a), <- (Join_Split b) at 1. rewrite Ea, Eb.
    replace (Join (ia ++ [la]) ++ c ++ Join (fb :: rb))
      with (Join (ia ++ (la ++ c ++ fb) :: rb)).
    - apply Split_Join; [by destruct ia|].
      apply Forall_app. split; [done|]. constructor; [|done].
      rewrite !elem_of_app. tauto.
    - rewrite Join_app_line.
      by rewrite Join_head_app. }
  split; [|done]. apply (Hc []). apply not_elem_of_nil.
Qed.

Lemma Split_app_line p s :
  NL ∉ p → Split (p ++ s) = (p ++ hd [] (Split s)) :: tl (Split s).
Proof.
  intros Hp. induction p as [|c p IH]; simpl.
  - pose proof (Split_nonempty s). by destruct (Split s).
  - apply not_elem_of_cons in Hp as [Hc Hp].
    destruct (Z.eqb_spec c NL); [congruence|]. by rewrite IH.
Qed.

(** A text begins with its first line, which ends the text or stands
    before a line break. *)
Lemma Split_first s :
  ∃ z, s = hd [] (Split s) ++ z ∧ (z = [] ∨ ∃ z', z = NL :: z').
Proof.
  pose proof (Join_Split s) as H. pose proof (Split_nonempty s).
  destruct (Split s) as [|l [|l' ls]]; [done| |]; simpl in *.
  - exists []. rewrite app_nil_r. auto.
  - exists (NL :: Join (l' :: ls)). eauto.
Qed.

Lemma Join_line_subseteq ls l : l ∈ ls → l ⊆ Join ls.
Proof.
  induction ls as [|k ls IH]; [by intros ?%elem_of_nil|].
  intros [->|Hl]%elem_of_cons x Hx.
  - destruct ls; simpl; [done|]. apply elem_of_app. by left.
  - destruct ls as [|k' ls']; [by apply elem_of_nil in Hl|].
    rewrite Join_cons by done. apply elem_of_app. right.
    apply elem_of_cons. right. by apply IH.
Qed.

Lemma Split_line_subseteq s l : l ∈ Split s → l ⊆ s.
Proof.
  intros H x Hx. rewrite <- (Join_Split s). by apply (Join_line_subseteq _ l).
Qed.

Lemma lineBreaks_Join ls :
  Forall (λ l, NL ∉ l) ls → lineBreaks (Join ls) = (length ls - 1)%nat.
Proof.
  induction ls as [|l ls IH]; [done|]. intros H. inversion_clear H.
  destruct ls as [|l' ls'].
  - simpl. by apply lineBreaks_zero.
  - rewrite Join_cons by done. rewrite lineBreaks_app, lineBreaks_cons.
    rewrite IH by done. apply lineBreaks_zero in H0. rewrite H0. simpl. lia.
Qed.

End StringsFacts.

(** ** ReplaceAllString and the pieces of a pattern *)

Section RegexpFacts.

Import Regexp.

Lemma replaceAllFrom_skip m k s :
  replaceAllFrom m k s = replaceAllFrom m 0 (drop k s).
Proof.
  revert k. induction s as [|c s IH]; intros [|k]; simpl; auto.
Qed.


Lemma ReplaceAll_miss m c s :
  m (c :: s) = None → ReplaceAll m (c :: s) = c :: ReplaceAll m s.
Proof. unfold ReplaceAll. simpl. by intros ->. Qed.

Lemma ReplaceAll_hit m c s pre repl rest :
  m (c :: s) = Some (repl, rest) → s = pre ++ rest →
  ReplaceAll m (c :: s) = repl ++ ReplaceAll m rest.
Proof.
  unfold ReplaceAll. simpl. intros -> ->.
  rewrite replaceAllFrom_skip. f_equal. f_equal.
  rewrite length_app.
  replace (length pre + length rest - length rest)%nat with (length pre) by lia.
  apply drop_app_length.
Qed.

(** Induction over the scan of ReplaceAll. *)
Lemma ReplaceAll_scan m (P : text → text → Prop) :
  consuming m →
  P [] [] →
  (∀ c s out, m (c :: s) = None → P s out → P (c :: s) (c :: out)) →
  (∀ c pre repl rest out,
     m (c :: pre ++ rest) = Some (repl, rest) → P rest out →
     P (c :: pre ++ rest) (repl ++ out)) →
  ∀ s, P s (ReplaceAll m s).
Proof.
  intros Hm Hnil Hmiss Hhit s.
  remember (length s) as n eqn:Hn. revert s Hn.
  induction n as [n IH] using lt_wf_ind. intros s Hn.
  destruct s as [|c s]; [done|].
  destruct (m (c :: s)) as [[repl rest]|] eqn:E.
  - destruct (Hm _ _ _ E) as (c' & pre & Heq). injection Heq as <- ->.
    rewrite (ReplaceAll_hit _ _ _ pre _ _ E eq_refl).
    apply Hhit; [done|]. eapply IH; [|done].
    subst n. simpl. rewrite length_app. lia.
  - rewrite ReplaceAll_miss by done. apply Hmiss; [done|].
    eapply IH; [|done]. subst n. simpl. lia.
Qed.

(** *** What a piece takes *)

Lemma one_splits p : splits (one p) ∧ takes (one p).
Proof.
  split; intros [|c s] a r; simpl; try (by intros ?%elem_of_nil);
    destruct (p c); try (by intros ?%elem_of_nil);
    intros [= -> ->]%list_elem_of_singleton; done.
Qed.

Lemma many1_splits p : splits (many1 p) ∧ takes (many1 p).
Proof.
  assert (∀ s a r, (a, r) ∈ many1 p s → s = a ++ r ∧ a ≠ []) as H.
  { induction s as [|c s IH]; intros a r; simpl; [by intros ?%elem_of_nil|].
    destruct (p c); [|by intros ?%elem_of_nil].
    rewrite elem_of_app, list_elem_of_fmap, list_elem_of_singleton.
    intros [([a' r'] & [= -> ->] & Hin)|[= -> ->]]; [|done].
    destruct (IH _ _ Hin) as [-> _]. done. }
  split; intros s a r Hin; by destruct (H s a r Hin).
Qed.

Lemma alt_splits a b : splits a → splits b → splits (alt a b).
Proof. intros Ha Hb s x r [?|?]%elem_of_app; eauto. Qed.

Lemma alt_takes a b : takes a → takes b → takes (alt a b).
Proof. intros Ha Hb s x r [?|?]%elem_of_app; eauto. Qed.

Lemma HasPrefix_spec w s :
  Strings.HasPrefix w s = true ↔ s = w ++ drop (length w) s.
Proof.
  revert s. induction w as [|a w IH]; intros s; simpl; [done|].
  destruct s as [|b s]; [done|].
  rewrite andb_true_iff, IH, Z.eqb_eq. simpl. split.
  - by intros [-> <-].
  - by intros [= -> <-].
Qed.

Lemma HasPrefix_app w s : Strings.HasPrefix w (w ++ s) = true.
Proof. apply HasPrefix_spec. by rewrite drop_app_length. Qed.

Lemma quoted_elem w s a r : (a, r) ∈ quoted w s → a = w ∧ s = w ++ r.
Proof.
  unfold quoted. destruct (Strings.HasPrefix w s) eqn:E; [|by intros ?%elem_of_nil].
  intros [= -> ->]%list_elem_of_singleton. by apply HasPrefix_spec in E.
Qed.

Lemma groups_elem a w b s g1 g2 rest :
  splits a → splits b → (g1, g2, rest) ∈ groups a w b s →
  s = g1 ++ w ++ g2 ++ rest
  ∧ ∃ r1, (g1, r1) ∈ a s ∧ (g2, rest) ∈ b (drop (length w) r1).
Proof.
  intros Ha Hb. unfold groups.
  intros ([g1' r1] & H1 & Hin1)%list_elem_of_bind.
  apply list_elem_of_bind in H1 as ([w' r2] & H2 & Hin2).
  apply list_elem_of_bind in H2 as ([g2' r3] & H3 & Hin3).
  apply list_elem_of_ret in H3. injection H3 as -> -> ->.
  apply quoted_elem in Hin2 as [-> Hr1].
  split.
  - rewrite (Ha _ _ _ Hin1), Hr1. by rewrite (Hb _ _ _ Hin3).
  - exists r1. split; [done|]. by rewrite Hr1, drop_app_length.
Qed.

Lemma matchHere_sound a w b s g1 g2 rest :
  splits a → splits b → matchHere a w b s = Some (g1, g2, rest) →
  s = g1 ++ w ++ g2 ++ rest.
Proof.
  intros Ha Hb H%head_Some_elem_of. by apply groups_elem in H as [? _].
Qed.

Lemma matchHere_takes a w b s g1 g2 rest :
  splits a → splits b → takes a → matchHere a w b s = Some (g1, g2, rest) →
  g1 ≠ [].
Proof.
  intros Ha Hb Ht H%head_Some_elem_of.
  apply groups_elem in H as [_ (r1 & H & _)]; eauto.
Qed.

Lemma Find_sound a w b s before g1 g2 after :
  splits a → splits b → Find a w b s = Some (before, g1, g2, after) →
  s = before ++ g1 ++ w ++ g2 ++ after.
Proof.
  intros Ha Hb. revert before.
  induction s as [|c s IH]; intros before; simpl.
  - destruct (matchHere a w b []) as [[[x y] z]|] eqn:E; [|done].
    intros [= <- <- <- <-]. by apply matchHere_sound in E.
  - destruct (matchHere a w b (c :: s)) as [[[x y] z]|] eqn:E.
    + intros [= <- <- <- <-]. by apply matchHere_sound in E.
    + destruct (Find a w b s) as [[[[x y] z] u]|]; [|done].
      intros [= <- <- <- <-]. simpl. f_equal. by apply IH.
Qed.

(** A replacement with as many line breaks as the match keeps the number of
    line breaks of the text. *)
Lemma ReplaceAll_lineBreaks m :
  (∀ s repl rest, m s = Some (repl, rest) →
     ∃ c pre, s = c :: pre ++ rest ∧ lineBreaks repl = lineBreaks (c :: pre)) →
  ∀ s, lineBreaks (ReplaceAll m s) = lineBreaks s.
Proof.
  intros Hm. apply (ReplaceAll_scan m (λ s out, lineBreaks out = lineBreaks s)).
  - intros s repl rest H. destruct (Hm _ _ _ H) as (c & pre & -> & _). eauto.
  - done.
  - intros c s out _ IH. by rewrite !lineBreaks_cons, IH.
  - intros c pre repl rest out H IH.
    destruct (Hm _ _ _ H) as (c' & pre' & Heq & Hrepl).
    apply (f_equal lineBreaks) in Heq.
    rewrite !app_comm_cons, !lineBreaks_app in Heq.
    rewrite app_comm_cons, !lineBreaks_app, IH. lia.
Qed.

End RegexpFacts.

(** ** The width of a text *)

Section WidthFacts.

Import Strings Regexp Textwidth.

Variable tbl : rune → option (Z * Z).

Lemma ansiParams_sound s rest :
  ansiParams s = Some rest →
  ∃ ps, s = ps ++ 109 :: rest ∧ Forall (λ r, isParam r = true) ps.
Proof.
  revert rest. induction s as [|r s IH]; simpl; intros rest H; [done|].
  destruct (Z.eqb_spec r 109) as [->|Hr].
  - injection H as <-. by exists [].
  - destruct (isParam r) eqn:Hp; [|done].
    destruct (IH _ H) as (ps & -> & Hps). exists (r :: ps). split; [done|].
    by constructor.
Qed.

Lemma ansiParams_complete ps rest :
  Forall (λ r, isParam r = true) ps → ansiParams (ps ++ 109 :: rest) = Some rest.
Proof.
  induction 1 as [|r ps Hr _ IH]; simpl; [done|].
  destruct (Z.eqb_spec r 109) as [->|_]; [done|]. by rewrite Hr.
Qed.

Lemma ansiHere_sound s rest :
  ansiHere s = Some rest →
  ∃ ps, s = ESC :: 91 :: ps ++ 109 :: rest ∧ Forall (λ r, isParam r = true) ps.
Proof.
  destruct s as [|e [|b s]]; simpl; try done.
  destruct (Z.eqb_spec e ESC) as [->|]; [|done].
  destruct (Z.eqb_spec b 91) as [->|]; [|done]. simpl.
  intros H. destruct (ansiParams_sound _ _ H) as (ps & -> & Hps). by exists ps.
Qed.

Lemma ansiHere_ControlSequence c rest :
  WidthSpec.ControlSequence c → ansiHere (c ++ rest) = Some rest.
Proof.
  intros (ps & -> & Hps). simpl. rewrite <- app_assoc. simpl.
  by apply ansiParams_complete.
Qed.

Lemma ansiMatcher_consuming : consuming ansiMatcher.
Proof.
  intros s repl rest H. unfold ansiMatcher in H.
  destruct (ansiHere s) as [r|] eqn:E; simpl in H; [|done]. injection H as <- <-.
  destruct (ansiHere_sound _ _ E) as (ps & -> & _).
  exists ESC, (91 :: ps ++ [109]). simpl. by rewrite <- app_assoc.
Qed.

Lemma stripANSI_subseteq s : stripANSI s ⊆ s.
Proof.
  unfold stripANSI. apply (ReplaceAll_scan _ (λ s out, out ⊆ s)).
  - apply ansiMatcher_consuming.
  - done.
  - intros c t out _ H x. rewrite !elem_of_cons.
    intros [->|Hx]; [by left | right; by apply H].
  - intros c pre repl rest out E H. unfold ansiMatcher in E.
    destruct (ansiHere _); simpl in E; [|done]. injection E as <- <-.
    intros x Hx. rewrite app_nil_l in Hx.
    apply elem_of_cons. right. apply elem_of_app. right. by apply H.
Qed.

Lemma foldr_max_nonneg (ws : list Z) : 0 ≤ foldr Z.max 0 ws.
Proof. induction ws; simpl; lia. Qed.

(** The loop of [StringWidth] takes the maximum of the line widths. *)
Lemma fold_max_lines (w : text → Z) ls a :
  0 ≤ a →
  fold_left (λ maxWidth line, if w line >? maxWidth then w line else maxWidth) ls a
  = Z.max a (foldr Z.max 0 (map w ls)).
Proof.
  revert a. induction ls as [|l ls IH]; simpl; intros a Ha; [lia|].
  rewrite IH by (destruct (Z.gtb_spec (w l) a); lia).
  destruct (Z.gtb_spec (w l) a); lia.
Qed.

Lemma StringWidth_lines t :
  StringWidth tbl t = foldr Z.max 0 (map (lineWidth tbl) (Split t)).
Proof.
  destruct t as [|c t]; [done|]. unfold StringWidth.
  rewrite (fold_max_lines (lineWidth tbl)) by done.
  pose proof (foldr_max_nonneg (map (lineWidth tbl) (Split (c :: t)))). lia.
Qed.

Lemma lineWidth_clean l : lineWidth tbl l = (cleanWidth tbl) (stripANSI l).
Proof. by destruct l. Qed.

Lemma fallbackWidth_acc s a :
  fold_left
    (λ width r, if (r =? NL) || (r =? CR) then width
                else if r <=? 127 then width + 1 else width + 2) s a
  = a + fallbackWidth s.
Proof.
  unfold fallbackWidth. revert a. induction s as [|r s IH]; simpl; intros a; [lia|].
  match goal with
  | |- fold_left ?f s ?x = _ + fold_left ?f s ?y => rewrite (IH x), (IH y)
  end.
  destruct ((r =? NL) || (r =? CR)); [lia|]. destruct (r <=? 127); lia.
Qed.

Lemma fallbackWidth_cons r s :
  fallbackWidth (r :: s)
  = (if (r =? NL) || (r =? CR) then 0 else if r <=? 127 then 1 else 2)
    + fallbackWidth s.
Proof.
  unfold fallbackWidth at 1. simpl. rewrite fallbackWidth_acc.
  destruct ((r =? NL) || (r =? CR)); [lia|]. destruct (r <=? 127); lia.
Qed.

Lemma fallbackWidth_columns s :
  NL ∉ s → CR ∉ s → fallbackWidth s = WidthSpec.lineColumns WidthSpec.ASCII s.
Proof.
  induction s as [|r s IH]; [done|].
  rewrite !not_elem_of_cons. intros [Hn Hs] [Hc Hs'].
  rewrite fallbackWidth_cons, IH by done. simpl. unfold WidthSpec.columns, WidthSpec.ASCII.
  destruct (Z.eqb_spec r NL); [congruence|].
  destruct (Z.eqb_spec r CR); [congruence|]. done.
Qed.

Lemma encodeGBK_columns s encoded :
  EURO ∉ s → encodeGBK tbl s = Some encoded →
  Z.of_nat (length encoded) = WidthSpec.lineColumns WidthSpec.ASCII s.
Proof.
  revert encoded. induction s as [|r s IH]; simpl; intros encoded He H.
  - by injection H as <-.
  - apply not_elem_of_cons in He as [Hr He].
    destruct (encodeRune tbl r) as [bs|] eqn:Er; [|done].
    destruct (encodeGBK tbl s) as [rest|]; [|done]. injection H as <-.
    rewrite length_app, Nat2Z.inj_add, (IH rest) by done. f_equal.
    unfold encodeRune in Er. unfold WidthSpec.columns, WidthSpec.ASCII.
    destruct (Z.ltb_spec r 128), (Z.leb_spec r 127); try lia.
    + by injection Er as <-.
    + destruct (Z.eqb_spec r EURO); [congruence|].
      destruct (tbl r) as [[b1 b2]|]; [|done]. by injection Er as <-.
Qed.

Lemma cleanWidth_columns s :
  NL ∉ s → CR ∉ s → EURO ∉ s →
  (cleanWidth tbl) s = WidthSpec.lineColumns WidthSpec.ASCII s.
Proof.
  intros Hn Hc He. unfold cleanWidth.
  destruct (encodeGBK tbl s) eqn:E.
  - by eapply encodeGBK_columns.
  - by apply fallbackWidth_columns.
Qed.

Lemma StringWidth_columns t :
  CR ∉ t → EURO ∉ t → StringWidth tbl t = WidthSpec.Width WidthSpec.ASCII t.
Proof.
  intros Hc He. rewrite StringWidth_lines. unfold WidthSpec.Width.
  f_equal. apply map_ext_in. intros l Hl%list_elem_of_In.
  rewrite lineWidth_clean.
  pose proof (Split_line_subseteq _ _ Hl) as Hsub.
  pose proof (stripANSI_subseteq l) as Hstrip.
  apply cleanWidth_columns.
  - intros H%Hstrip. revert H.
    by eapply (proj1 (Forall_forall _ _) (Split_lines t)).
  - intros H%Hstrip%Hsub. done.
  - intros H%Hstrip%Hsub. done.
Qed.

(** The width in full, the euro sign and the carriage return included. *)
Lemma encodeGBK_exact s :
  match encodeGBK tbl s with
  | Some encoded =>
      forallb (WidthSpec.hasCode tbl) s = true
      ∧ Z.of_nat (length encoded) = foldr (λ r n, WidthSpec.encodedColumns r + n) 0 s
  | None => forallb (WidthSpec.hasCode tbl) s = false
  end.
Proof.
  induction s as [|r s IH]; simpl; [done|].
  unfold encodeRune, WidthSpec.hasCode at 1 3, WidthSpec.encodedColumns at 1.
  destruct (Z.ltb_spec r 128); simpl.
  - destruct (encodeGBK tbl s); [|done]. destruct IH as [-> <-].
    split; [done|]. simpl. lia.
  - destruct (Z.eqb_spec r EURO); simpl.
    + destruct (encodeGBK tbl s); [|done]. destruct IH as [-> <-].
      split; [done|]. simpl. lia.
    + destruct (tbl r) as [[b1 b2]|]; simpl; [|done].
      destruct (encodeGBK tbl s); [|done].
      destruct IH as [-> <-]. split; [done|]. simpl. lia.
Qed.

Lemma fallbackWidth_exact s :
  fallbackWidth s = foldr (λ r n, WidthSpec.fallbackColumns r + n) 0 s.
Proof.
  induction s as [|r s IH]; [done|]. by rewrite fallbackWidth_cons, IH.
Qed.

(** X1.  The width of a text in full: the widest of its lines, each
    measured without its control sequences; in a line that the encoder
    accepts an ASCII code point and the euro sign take one column and any
    other code point two; in a line that it rejects a line feed and a
    carriage return take none, any other ASCII code point one, and any
    other code point two. *)
Lemma StringWidth_exact t :
  StringWidth tbl t
  = foldr Z.max 0
      (map (λ l, WidthSpec.exactLineColumns tbl (stripANSI l)) (Split t)).
Proof.
  rewrite StringWidth_lines. f_equal. apply map_ext. intros l.
  rewrite lineWidth_clean. unfold cleanWidth, WidthSpec.exactLineColumns.
  pose proof (encodeGBK_exact (stripANSI l)) as H.
  destruct (encodeGBK tbl (stripANSI l)).
  - by destruct H as [-> ->].
  - rewrite H. apply fallbackWidth_exact.
Qed.

(** *** Control sequences take no column *)

Lemma stripANSI_nil : stripANSI [] = [].
Proof. done. Qed.

Lemma stripANSI_miss c s :
  ansiHere (c :: s) = None → stripANSI (c :: s) = c :: stripANSI s.
Proof.
  intros H. unfold stripANSI. apply ReplaceAll_miss. by rewrite H.
Qed.

Lemma stripANSI_ControlSequence c rest :
  WidthSpec.ControlSequence c → stripANSI (c ++ rest) = stripANSI rest.
Proof.
  intros Hc. pose proof (ansiHere_ControlSequence c rest Hc) as H.
  destruct Hc as (ps & -> & Hps). unfold stripANSI.
  rewrite <- app_comm_cons in *.
  erewrite (ReplaceAll_hit _ ESC _ (91 :: ps ++ [109]) [] rest); [done| |done].
  by rewrite H.
Qed.

Lemma ControlSequence_line c : WidthSpec.ControlSequence c → NL ∉ c.
Proof.
  intros (ps & -> & Hps). rewrite !not_elem_of_cons, not_elem_of_app.
  repeat split; try done.
  - intros H. eapply Forall_forall in Hps; [|done]. done.
  - rewrite list_elem_of_singleton. done.
Qed.

Lemma ansiParams_app s rest z :
  ansiParams s = Some rest → ansiParams (s ++ z) = Some (rest ++ z).
Proof.
  intros (ps & -> & Hps)%ansiParams_sound. rewrite <- app_assoc. simpl.
  by apply ansiParams_complete.
Qed.

Lemma ansiHere_app s rest z :
  ansiHere s = Some rest → ansiHere (s ++ z) = Some (rest ++ z).
Proof.
  intros H. destruct (ansiHere_sound _ _ H) as (ps & -> & Hps).
  simpl. rewrite <- app_assoc. simpl. by apply ansiParams_complete.
Qed.

(** A rune that is neither a parameter nor the final letter ends the scan
    for a sequence. *)
Lemma ansiParams_stop s r z :
  ansiParams s = None → r ≠ 109 → isParam r = false →
  ansiParams (s ++ r :: z) = None.
Proof.
  intros H Hr Hp. induction s as [|x s IH]; simpl in *.
  - destruct (Z.eqb_spec r 109); [done|]. by rewrite Hp.
  - destruct (x =? 109); [done|]. destruct (isParam x); [by apply IH | done].
Qed.

Lemma ansiHere_stop c s r z :
  ansiHere (c :: s) = None → r ≠ 109 → r ≠ 91 → isParam r = false →
  ansiHere ((c :: s) ++ r :: z) = None.
Proof.
  intros H Hr Hb Hp. destruct s as [|b s]; simpl in *.
  - destruct (Z.eqb_spec r 91); [done|]. by rewrite andb_false_r.
  - destruct ((c =? ESC) && (b =? 91)); [|done]. by apply ansiParams_stop.
Qed.

(** A sequence put into a text is removed whole, and what stands before and
    after it is scanned on its own. *)
Lemma stripANSI_insert a c b :
  WidthSpec.ControlSequence c →
  stripANSI (a ++ c ++ b) = stripANSI a ++ stripANSI b.
Proof.
  intros Hc. remember (length a) as n eqn:Hn. revert a Hn.
  induction n as [n IH] using lt_wf_ind. intros a Hn.
  destruct a as [|x a]; [by apply (stripANSI_ControlSequence c b)|].
  destruct (ansiHere (x :: a)) as [rest|] eqn:E.
  - pose proof (ansiHere_app _ _ (c ++ b) E) as E'.
    destruct (ansiHere_sound _ _ E) as (ps & Heq & Hps).
    assert (WidthSpec.ControlSequence (ESC :: 91 :: ps ++ [109])) as Hseq
      by (by exists ps).
    set (q := ESC :: 91 :: ps ++ [109]) in *.
    assert (x :: a = q ++ rest) as Heq'
      by (rewrite Heq; unfold q; simpl; by rewrite <- app_assoc).
    rewrite Heq', <- (app_assoc q rest (c ++ b)).
    rewrite (stripANSI_ControlSequence q (rest ++ c ++ b) Hseq).
    rewrite (stripANSI_ControlSequence q rest Hseq).
    apply (IH (length rest)); [|done].
    subst n. rewrite Heq. simpl. rewrite length_app. simpl. lia.
  - assert (ansiHere ((x :: a) ++ c ++ b) = None) as E'.
    { destruct Hc as (ps & -> & Hps).
      by apply (ansiHere_stop x a ESC ((91 :: ps ++ [109]) ++ b)). }
    rewrite <- app_comm_cons in *.
    rewrite (stripANSI_miss _ _ E'), (stripANSI_miss _ _ E).
    rewrite <- app_comm_cons. f_equal.
    apply (IH (length a)); [subst n; simpl; lia | done].
Qed.

(** *** A text and the text without its control sequences *)

Lemma isParam_not_ESC r : isParam r = true → (r =? ESC) = false.
Proof. unfold isParam, ESC. lia. Qed.

Lemma scanEnd_params ps :
  Forall (λ r, isParam r = true) ps →
  foldl WidthSpec.scanStep WidthSpec.InParams ps = WidthSpec.InParams.
Proof.
  induction 1 as [|r ps Hr _ IH]; simpl; [done|].
  unfold WidthSpec.scanStep at 2. by rewrite (isParam_not_ESC r), Hr.
Qed.

Lemma scanEnd_ControlSequence c rest :
  WidthSpec.ControlSequence c → WidthSpec.scanEnd (c ++ rest) = WidthSpec.scanEnd rest.
Proof.
  intros (ps & -> & Hps). unfold WidthSpec.scanEnd.
  rewrite foldl_app. f_equal. simpl. rewrite foldl_app.
  change (WidthSpec.scanStep (WidthSpec.scanStep WidthSpec.Outside ESC) 91)
    with WidthSpec.InParams.
  by rewrite scanEnd_params.
Qed.

(** Two scans of the same text from different states end in the same state,
    unless the one from outside ends outside. *)
Lemma scan_merge st a :
  foldl WidthSpec.scanStep WidthSpec.Outside a = WidthSpec.Outside
  ∨ foldl WidthSpec.scanStep WidthSpec.Outside a = foldl WidthSpec.scanStep st a.
Proof.
  revert st. induction a as [|r a IH]; intros st; [by left|].
  cbn [foldl].
  assert (WidthSpec.scanStep WidthSpec.Outside r = WidthSpec.Outside
          ∨ WidthSpec.scanStep WidthSpec.Outside r = WidthSpec.scanStep st r)
    as [-> | ->].
  { unfold WidthSpec.scanStep. destruct (r =? ESC); auto. }
  - apply IH.
  - by right.
Qed.

Lemma insideSequence_tail x a b :
  WidthSpec.insideSequence (x :: a) b = false → WidthSpec.insideSequence a b = false.
Proof.
  unfold WidthSpec.insideSequence, WidthSpec.scanEnd. simpl.
  destruct (scan_merge (WidthSpec.scanStep WidthSpec.Outside x) a) as [->| ->]; done.
Qed.

Lemma ansiParams_straddle a b rest :
  ansiParams a = None → ansiParams (a ++ b) = Some rest →
  Forall (λ r, isParam r = true) a ∧ ansiParams b = Some rest.
Proof.
  induction a as [|r a IH]; simpl; [done|].
  destruct (r =? 109); [done|]. destruct (isParam r) eqn:Hr; [|done].
  intros Ha Hb. destruct (IH Ha Hb). split; [by constructor | done].
Qed.

(** A sequence found across the place between two texts begins in the first
    and is completed by the second. *)
Lemma ansiHere_straddle x a b rest :
  ansiHere (x :: a) = None → ansiHere ((x :: a) ++ b) = Some rest →
  WidthSpec.insideSequence (x :: a) b = true.
Proof.
  intros Ha Hb. unfold WidthSpec.insideSequence, WidthSpec.scanEnd.
  destruct a as [|y a]; simpl in *.
  - destruct b as [|r b]; [done|].
    destruct (Z.eqb_spec x ESC) as [->|]; [|done].
    destruct (Z.eqb_spec r 91) as [->|]; [|done]. simpl in *.
    rewrite Hb. by apply bool_decide_eq_true_2.
  - destruct (Z.eqb_spec x ESC) as [->|]; [|done].
    destruct (Z.eqb_spec y 91) as [->|]; [|done]. simpl in *.
    destruct (ansiParams_straddle _ _ _ Ha Hb) as [Hps Hrest].
    change (WidthSpec.scanStep (WidthSpec.scanStep WidthSpec.Outside ESC) 91)
      with WidthSpec.InParams.
    rewrite scanEnd_params by done.
    rewrite Hrest. by apply bool_decide_eq_true_2.
Qed.

Lemma stripANSI_app a b :
  WidthSpec.insideSequence a b = false →
  stripANSI (a ++ b) = stripANSI a ++ stripANSI b.
Proof.
  remember (length a) as n eqn:Hn. revert a Hn.
  induction n as [n IH] using lt_wf_ind. intros a Hn Hin.
  destruct a as [|x a]; [done|].
  destruct (ansiHere (x :: a)) as [rest|] eqn:E.
  - destruct (ansiHere_sound _ _ E) as (ps & Heq & Hps).
    assert (WidthSpec.ControlSequence (ESC :: 91 :: ps ++ [109])) as Hseq
      by (by exists ps).
    set (q := ESC :: 91 :: ps ++ [109]) in *.
    assert (x :: a = q ++ rest) as Heq'
      by (rewrite Heq; unfold q; simpl; by rewrite <- app_assoc).
    rewrite Heq' in Hin |- *. rewrite <- (app_assoc q rest b).
    rewrite (stripANSI_ControlSequence q (rest ++ b) Hseq).
    rewrite (stripANSI_ControlSequence q rest Hseq).
    apply (IH (length rest)); [|done|].
    + subst n. rewrite Heq. simpl. rewrite length_app. simpl. lia.
    + revert Hin. unfold WidthSpec.insideSequence.
      by rewrite (scanEnd_ControlSequence q rest Hseq).
  - assert (ansiHere ((x :: a) ++ b) = None) as E'.
    { destruct (ansiHere ((x :: a) ++ b)) eqn:E'; [|done].
      rewrite (ansiHere_straddle _ _ _ _ E E') in Hin. done. }
    rewrite <- app_comm_cons in *.
    rewrite (stripANSI_miss _ _ E'), (stripANSI_miss _ _ E).
    rewrite <- app_comm_cons. f_equal.
    apply (IH (length a)); [subst n; simpl; lia | done |].
    by eapply insideSequence_tail.
Qed.

Lemma ansiHere_first_line c s :
  ansiHere (c :: s) = None → ansiHere (c :: hd [] (Split s)) = None.
Proof.
  intros H. destruct (Split_first s) as (z & Hs & _).
  destruct (ansiHere (c :: hd [] (Split s))) eqn:E; [|done].
  apply (ansiHere_app _ _ z) in E. rewrite <- app_comm_cons, <- Hs in E.
  congruence.
Qed.

(** Control sequences hold no line break: removing them and cutting into
    lines can be done in either order. *)
Lemma Split_stripANSI t : Split (stripANSI t) = map stripANSI (Split t).
Proof.
  unfold stripANSI at 1.
  apply (ReplaceAll_scan _ (λ s out, Split out = map stripANSI (Split s))).
  - apply ansiMatcher_consuming.
  - done.
  - intros c s out E IH. unfold ansiMatcher in E.
    destruct (ansiHere (c :: s)) eqn:E'; [done|]. clear E.
    apply ansiHere_first_line in E'.
    simpl. rewrite IH.
    destruct (Z.eqb_spec c NL) as [->|Hc]; [done|].
    pose proof (Split_nonempty s).
    destruct (Split s) as [|l ls]; [done|]. simpl in *.
    by rewrite (stripANSI_miss _ _ E').
  - intros c pre repl rest out E IH. unfold ansiMatcher in E.
    destruct (ansiHere (c :: pre ++ rest)) as [r|] eqn:E'; [|done].
    injection E as <- <-. rewrite app_nil_l.
    destruct (ansiHere_sound _ _ E') as (ps & Heq & Hps).
    assert (WidthSpec.ControlSequence (ESC :: 91 :: ps ++ [109])) as Hseq
      by (by exists ps).
    set (q := ESC :: 91 :: ps ++ [109]) in *.
    assert (c :: pre ++ r = q ++ r) as ->
      by (rewrite Heq; unfold q; simpl; by rewrite <- app_assoc).
    rewrite (Split_app_line q r) by (by apply ControlSequence_line).
    rewrite IH. pose proof (Split_nonempty r).
    destruct (Split r) as [|l ls]; [done|]. cbn [hd tl map].
    by rewrite (stripANSI_ControlSequence q l Hseq).
Qed.

(** The width of a text is the width of its lines once the control
    sequences are removed: they take no column. *)
Lemma StringWidth_stripANSI t :
  StringWidth tbl t = foldr Z.max 0 (map (cleanWidth tbl) (Split (stripANSI t))).
Proof.
  rewrite StringWidth_lines, Split_stripANSI, map_map.
  f_equal. apply map_ext. apply lineWidth_clean.
Qed.

Lemma StringWidth_control_only cs :
  Forall WidthSpec.ControlSequence cs → StringWidth tbl (concat cs) = 0.
Proof.
  intros H. rewrite StringWidth_stripANSI.
  replace (stripANSI (concat cs)) with (@nil Z); [done|].
  induction H as [|c cs Hc _ IH]; simpl; [done|].
  by rewrite (stripANSI_ControlSequence c (concat cs) Hc).
Qed.

(** C3, as amended.  For a text without carriage return and euro sign, the
    width is the maximum over its lines of the columns of the line with the
    color-control sequences removed, where an ASCII code point takes one
    column and any other code point two.  The empty text, and a line made of
    control sequences only, have width 0. *)
Theorem StringWidth_spec t :
  CR ∉ t → EURO ∉ t →
  StringWidth tbl t = WidthSpec.Width WidthSpec.ASCII t
  ∧ StringWidth tbl [] = 0
  ∧ ∀ cs, Forall WidthSpec.ControlSequence cs → StringWidth tbl (concat cs) = 0.
Proof.
  intros Hc He. split; [by apply StringWidth_columns|].
  split; [done | apply StringWidth_control_only].
Qed.

(** C6, as amended.  Putting a well-formed color-control sequence into a
    text, at a place that is not inside a control sequence of the text,
    leaves the width of the text unchanged. *)
Theorem StringWidth_insert_sequence a c b :
  WidthSpec.ControlSequence c →
  WidthSpec.insideSequence a b = false →
  StringWidth tbl (a ++ c ++ b) = StringWidth tbl (a ++ b).
Proof.
  intros Hc Hin. rewrite !StringWidth_stripANSI.
  by rewrite stripANSI_insert, stripANSI_app.
Qed.

(** *** PadRight *)

Lemma encodeGBK_spaces x n :
  encodeGBK tbl (x ++ replicate n SP)
  = (λ enc, enc ++ replicate n SP) <$> encodeGBK tbl x.
Proof.
  induction x as [|r x IH]; simpl.
  - induction n as [|n IH]; simpl; [done|]. by rewrite IH.
  - destruct (encodeRune tbl r); [|done]. rewrite IH.
    destruct (encodeGBK tbl x); simpl; [|done]. by rewrite app_assoc.
Qed.

Lemma fallbackWidth_spaces x n :
  fallbackWidth (x ++ replicate n SP) = fallbackWidth x + Z.of_nat n.
Proof.
  induction x as [|r x IH].
  - rewrite app_nil_l. change (fallbackWidth []) with 0.
    induction n as [|n IH]; [done|].
    cbn [replicate]. rewrite fallbackWidth_cons, IH.
    change ((SP =? NL) || (SP =? CR)) with false.
    change (SP <=? 127) with true. lia.
  - rewrite <- app_comm_cons, !fallbackWidth_cons, IH. lia.
Qed.

Lemma cleanWidth_spaces x n :
  (cleanWidth tbl) (x ++ replicate n SP) = (cleanWidth tbl) x + Z.of_nat n.
Proof.
  unfold cleanWidth. rewrite encodeGBK_spaces.
  destruct (encodeGBK tbl x); simpl.
  - rewrite length_app, length_replicate. lia.
  - apply fallbackWidth_spaces.
Qed.

Lemma ansiHere_not_ESC c s : c ≠ ESC → ansiHere (c :: s) = None.
Proof.
  intros Hc. destruct s as [|b s]; simpl; [done|].
  by destruct (Z.eqb_spec c ESC).
Qed.

Lemma stripANSI_spaces n : stripANSI (replicate n SP) = replicate n SP.
Proof.
  induction n as [|n IH]; [done|]. cbn [replicate].
  rewrite stripANSI_miss by (by apply ansiHere_not_ESC). by rewrite IH.
Qed.

Lemma insideSequence_space a b : WidthSpec.insideSequence a (SP :: b) = false.
Proof. unfold WidthSpec.insideSequence. by destruct (WidthSpec.scanEnd a). Qed.

Lemma cleanWidth_nonneg x : 0 ≤ (cleanWidth tbl) x.
Proof.
  unfold cleanWidth. destruct (encodeGBK tbl x); [lia|].
  induction x as [|r x IH]; [done|]. rewrite fallbackWidth_cons.
  destruct ((r =? NL) || (r =? CR)); [lia|]. destruct (r <=? 127); lia.
Qed.

Lemma StringWidth_line s : NL ∉ s → StringWidth tbl s = (cleanWidth tbl) (stripANSI s).
Proof.
  intros Hs. rewrite StringWidth_lines, Split_line by done. simpl.
  rewrite lineWidth_clean. pose proof (cleanWidth_nonneg (stripANSI s)). lia.
Qed.

Lemma StringWidth_line_spaces s n :
  NL ∉ s → StringWidth tbl (s ++ replicate n SP) = StringWidth tbl s + Z.of_nat n.
Proof.
  intros Hs. rewrite !StringWidth_line; [|done|].
  - destruct n as [|n]; [simpl; rewrite app_nil_r; lia|].
    rewrite stripANSI_app by apply insideSequence_space.
    by rewrite stripANSI_spaces, cleanWidth_spaces.
  - rewrite not_elem_of_app. split; [done|].
    intros [H _]%elem_of_replicate. discriminate H.
Qed.

(** On a text of one line, and a target that the subtraction does not wrap,
    PadRight reaches the target or leaves a wider text as it is, and padding
    again changes nothing. *)
Lemma PadRight_line s w :
  NL ∉ s → - 2 ^ 63 ≤ w - StringWidth tbl s < 2 ^ 63 →
  StringWidth tbl (PadRight tbl s w) = Z.max (StringWidth tbl s) w
  ∧ PadRight tbl (PadRight tbl s w) w = PadRight tbl s w.
Proof.
  intros Hs Hw. unfold PadRight at 1 3 4.
  assert (wrap64 (w - StringWidth tbl s) = w - StringWidth tbl s) as ->.
  { unfold wrap64. rewrite Z.mod_small; lia. }
  destruct (Z.leb_spec (w - StringWidth tbl s) 0) as [Hd|Hd].
  - split; [lia|]. unfold PadRight.
    assert (wrap64 (w - StringWidth tbl s) = w - StringWidth tbl s) as ->.
    { unfold wrap64. rewrite Z.mod_small; lia. }
    by destruct (Z.leb_spec (w - StringWidth tbl s) 0); [|lia].
  - unfold Repeat.
    assert (StringWidth tbl (s ++ replicate (Z.to_nat (w - StringWidth tbl s)) SP) = w)
      as Hpad by (rewrite StringWidth_line_spaces by done; lia).
    split; [lia|]. unfold PadRight. rewrite Hpad.
    by replace (w - w) with 0 by lia.
Qed.

End WidthFacts.

(** The Latin-1 letter U+00E9 takes two columns with any encoder tables,
    where C3 as stated gives it one. *)
Lemma StringWidth_latin1_counterexample :
  ¬ ∃ tbl, Textwidth.StringWidth tbl [233] = WidthSpec.Width WidthSpec.Latin1 [233].
Proof.
  intros [tbl H]. vm_compute in H. by destruct (tbl 233) as [[? ?]|].
Qed.

Lemma StringWidth_spec_witness :
  let t := [65; 20013; NL; ESC; 91; 48; 109; 233] in
  Textwidth.StringWidth Textwidth.sampleTable t = WidthSpec.Width WidthSpec.ASCII t
  ∧ Textwidth.StringWidth Textwidth.sampleTable [] = 0
  ∧ ∀ cs, Forall WidthSpec.ControlSequence cs →
          Textwidth.StringWidth Textwidth.sampleTable (concat cs) = 0.
Proof.
  apply (StringWidth_spec Textwidth.sampleTable);
    apply (bool_decide_unpack _); by vm_compute.
Defined.

(** A sequence put between ESC [ and m breaks the sequence they formed:
    three columns appear where there was none. *)
Lemma StringWidth_insert_counterexample :
  WidthSpec.ControlSequence [ESC; 91; 48; 109]
  ∧ ¬ ∃ tbl, Textwidth.StringWidth tbl ([ESC; 91] ++ [ESC; 91; 48; 109] ++ [109])
             = Textwidth.StringWidth tbl ([ESC; 91] ++ [109]).
Proof.
  split.
  - exists [48]. split; [done|]. by repeat constructor.
  - intros [tbl H]. vm_compute in H. done.
Qed.

Lemma StringWidth_insert_sequence_witness :
  Textwidth.StringWidth Textwidth.sampleTable ([65] ++ [ESC; 91; 48; 109] ++ [66])
  = Textwidth.StringWidth Textwidth.sampleTable ([65] ++ [66]).
Proof.
  apply (StringWidth_insert_sequence Textwidth.sampleTable).
  - exists [48]. split; [done|]. by repeat constructor.
  - by vm_compute.
Defined.

(** C4 at a text of two lines.  The spaces go to the last line, which is
    not the widest: the width stays 2 where the target is 3. *)
Theorem PadRight_two_lines_width tbl :
  let s := lit "ab" ++ [NL] ++ lit "c" in
  Textwidth.PadRight tbl s 3 = s ++ [SP]
  ∧ Textwidth.StringWidth tbl (Textwidth.PadRight tbl s 3) = 2
  ∧ Z.max (Textwidth.StringWidth tbl s) 3 = 3.
Proof. by vm_compute. Qed.

(** C5 at the same text.  Padding again adds one more space. *)
Theorem PadRight_two_lines_twice tbl :
  let s := lit "ab" ++ [NL] ++ lit "c" in
  Textwidth.PadRight tbl s 3 = s ++ [SP]
  ∧ Textwidth.PadRight tbl (Textwidth.PadRight tbl s 3) 3 = s ++ [SP; SP].
Proof. by vm_compute. Qed.

(** ** Calendar dates *)

Section TimeFacts.

Import TimeCheck.

Lemma allFrom_spec n z p :
  allFrom n z p = true → ∀ k, z ≤ k < z + Z.of_nat n → p k = true.
Proof.
  revert z. induction n as [|n IH]; simpl; intros z H k Hk; [lia|].
  apply andb_prop in H as [Hz H].
  destruct (Z.eq_dec k z) as [->|]; [done|]. apply (IH (z + 1)); [done | lia].
Qed.

Lemma eraDay_all : allFrom (Z.to_nat 146097) 0 eraDay = true.
Proof. by vm_compute. Qed.

Lemma eraDay_ok doe : 0 ≤ doe < 146097 → eraDay doe = true.
Proof. intros H. apply (allFrom_spec _ _ _ eraDay_all). lia. Qed.

(** The civil date of a day number is a date of the calendar, and it is the
    date of that day number only. *)
Lemma civil_spec t :
  1 ≤ Time.Month t ≤ 12 ∧ 1 ≤ Time.Day t ≤ 31
  ∧ Time.daysFromCivil (Time.Year t) (Time.Month t) (Time.Day t) = t.
Proof.
  unfold Time.Month, Time.Day, Time.Year, Time.civil. cbv zeta.
  set (z := t + 719468). set (era := z / 146097).
  set (doe := z - era * 146097).
  assert (0 ≤ doe < 146097) as Hdoe.
  { unfold doe, era. pose proof (Z.mod_pos_bound z 146097 eq_refl).
    rewrite Z.mod_eq in H by lia. lia. }
  pose proof (eraDay_ok doe Hdoe) as H. unfold eraDay in H. cbv zeta in H.
  set (yoe := (doe - doe / 1460 + doe / 36524 - doe / 146096) / 365) in *.
  set (doy := doe - (365 * yoe + yoe / 4 - yoe / 100)) in *.
  set (mp := (5 * doy + 2) / 153) in *.
  set (d := doy - (153 * mp + 2) / 5 + 1) in *.
  set (m := if mp <? 10 then mp + 3 else mp - 9) in *.
  repeat (apply andb_prop in H as [H ?]). simpl.
  split; [lia|]. split; [lia|].
  unfold Time.daysFromCivil. cbv zeta.
  assert ((if m <=? 2
           then (if m <=? 2 then yoe + era * 400 + 1 else yoe + era * 400) - 1
           else (if m <=? 2 then yoe + era * 400 + 1 else yoe + era * 400))
          = yoe + era * 400) as -> by (destruct (m <=? 2); lia).
  assert ((yoe + era * 400) / 400 = era) as ->.
  { rewrite Z.div_add by lia. rewrite Z.div_small by lia. lia. }
  replace (yoe + era * 400 - era * 400) with yoe by lia.
  unfold z in doe. lia.
Qed.


(** Adding days to a date adds them to its day number. *)
Lemma AddDate_days t n : Time.AddDate t 0 0 n = t + n.
Proof.
  destruct (civil_spec t) as (Hm & Hd & Ht).
  unfold Time.AddDate, Time.Month, Time.Day, Time.Year in *.
  destruct (Time.civil t) as [[y m] d]. simpl in *. unfold Time.Date.
  rewrite !Z.add_0_r.
  replace ((m - 1) / 12) with 0 by (symmetry; apply Z.div_small; lia).
  rewrite Z.mod_small by lia. rewrite Z.add_0_r.
  replace (m - 1 + 1) with m by lia.
  transitivity (Time.daysFromCivil y m d + n); [|by rewrite Ht].
  unfold Time.daysFromCivil. cbv zeta. lia.
Qed.



End TimeFacts.

(** ** The composer *)

Section LayoutFacts.

Import Render.

Lemma layoutLines_stack n idx blocks lines :
  (idx + length blocks = n)%nat →
  layoutLines n idx blocks lines = lines ++ ComposerSpec.stack (map Lines blocks).
Proof.
  revert idx lines. induction blocks as [|b rest IH]; intros idx lines Hn.
  - simpl. by rewrite app_nil_r.
  - cbn [layoutLines]. rewrite IH by (simpl in Hn; lia).
    destruct rest as [|b' rest'].
    + simpl in Hn. replace (idx =? n - 1)%nat with true
        by (symmetry; apply Nat.eqb_eq; lia).
      simpl. by rewrite app_nil_r.
    + simpl in Hn. replace (idx =? n - 1)%nat with false
        by (symmetry; apply Nat.eqb_neq; lia).
      cbn [negb map ComposerSpec.stack]. by rewrite <- !app_assoc.
Qed.

(** C9.  The composer joins the lines of the blocks with one blank line
    between two consecutive blocks and nowhere else: no block gives the empty
    text, one block gives its lines joined, two blocks give their lines with
    one blank line between them. *)
Theorem Layout_spec blocks w :
  Layout blocks w = ComposerSpec.Compose (map Lines blocks)
  ∧ Layout [] w = []
  ∧ (∀ b, Layout [b] w = Strings.Join (Lines b))
  ∧ (∀ a b, Layout [a; b] w = Strings.Join (Lines a ++ [] :: Lines b)).
Proof.
  assert (∀ bs, Layout bs w = ComposerSpec.Compose (map Lines bs)) as H.
  { intros [|b bs]; [done|]. unfold Layout, ComposerSpec.Compose.
    by rewrite layoutLines_stack. }
  split; [apply H|]. split; [done|]. split.
  - intros b. by rewrite H.
  - intros a b. by rewrite H.
Qed.

End LayoutFacts.

(** ** The width of the columns *)

Section GridFacts.

Import Calendar Render.

Variable tbl : rune → option (Z * Z).






Lemma foldr_max_upper (ws : list Z) w : w ∈ ws → w ≤ foldr Z.max 0 ws.
Proof.
  induction ws as [|x ws IH]; [by intros ?%elem_of_nil|].
  intros [->|H]%elem_of_cons; simpl; [lia|]. specialize (IH H). lia.
Qed.



End GridFacts.

(** ** The directives of a month *)

Section HighlightFacts.

Import Calendar Render.


Lemma foldl_concat {A B} (f : A → B → A) (ls : list (list B)) (a : A) :
  foldl (λ a l, foldl f a l) a ls = foldl f a (concat ls).
Proof.
  revert a. induction ls as [|l ls IH]; intros a; simpl; [done|].
  by rewrite foldl_app, IH.
Qed.





End HighlightFacts.

(** ** The annotator *)

Section AnnotatorFacts.

Import Regexp Render.

Lemma spacesOrBar_splits : splits spacesOrBar ∧ takes spacesOrBar.
Proof.
  split; [apply alt_splits | apply alt_takes];
    first [apply many1_splits | apply one_splits].
Qed.

Lemma spaceOrBar_splits : splits spaceOrBar ∧ takes spaceOrBar.
Proof.
  split; [apply alt_splits | apply alt_takes]; apply one_splits.
Qed.

Lemma numeralHere_sound dayNum s g1 g2 rest :
  numeralHere dayNum s = Some (g1, g2, rest) →
  s = g1 ++ Fmt.d dayNum ++ g2 ++ rest ∧ g1 ≠ [].
Proof.
  unfold numeralHere. destruct (dayNum <? 10); intros H; split.
  - eapply matchHere_sound; [apply many1_splits | apply spacesOrBar_splits | done].
  - eapply matchHere_takes;
      [apply many1_splits | apply spacesOrBar_splits | apply many1_splits | done].
  - eapply matchHere_sound; [apply spaceOrBar_splits | apply spacesOrBar_splits | done].
  - eapply matchHere_takes;
      [apply spaceOrBar_splits | apply spacesOrBar_splits | apply spaceOrBar_splits | done].
Qed.

Lemma colorNumeralHere_sound dayNum color s repl rest :
  colorNumeralHere dayNum color s = Some (repl, rest) →
  ∃ g1 g2, g1 ≠ [] ∧ s = g1 ++ Fmt.d dayNum ++ g2 ++ rest
           ∧ repl = g1 ++ color ++ Fmt.d dayNum ++ colorEnd ++ g2.
Proof.
  unfold colorNumeralHere.
  destruct (numeralHere dayNum s) as [[[g1 g2] r]|] eqn:E; [|done].
  simpl. intros [= <- <-]. destruct (numeralHere_sound _ _ _ _ _ E) as [Hs Hg].
  by exists g1, g2.
Qed.

Lemma directiveColor_line info color :
  directiveColor info = Some color → NL ∉ color.
Proof.
  unfold directiveColor.
  destruct (hasHoliday info), (isHoliday info), (isToday info);
    intros [= <-]; apply (bool_decide_unpack _); by vm_compute.
Qed.

Lemma colorEnd_line : NL ∉ colorEnd.
Proof. apply (bool_decide_unpack _). by vm_compute. Qed.

(** The first pass keeps the line breaks. *)
Lemma colorDate_lineBreaks highlights output dayNum :
  lineBreaks (colorDate highlights output dayNum) = lineBreaks output.
Proof.
  unfold colorDate.
  destruct (directiveColor _) as [color|] eqn:Hc; [|done].
  apply directiveColor_line, lineBreaks_zero in Hc.
  pose proof (proj2 (lineBreaks_zero _) colorEnd_line) as He.
  apply ReplaceAll_lineBreaks. intros s repl rest H.
  destruct (colorNumeralHere_sound _ _ _ _ _ H) as (g1 & g2 & Hg & -> & ->).
  destruct g1 as [|c g1]; [done|].
  exists c, (g1 ++ Fmt.d dayNum ++ g2). split.
  - simpl. by rewrite <- !app_assoc.
  - rewrite !app_comm_cons, !lineBreaks_app. lia.
Qed.

Lemma colorDates_lineBreaks highlights dayNums output :
  lineBreaks (foldl (colorDate highlights) output dayNums) = lineBreaks output.
Proof.
  revert output. induction dayNums as [|k ks IH]; intros output; simpl; [done|].
  by rewrite IH, colorDate_lineBreaks.
Qed.

Lemma colorLabelFrom_lines n i color label pattern lines k :
  NL ∉ color → sameLines k lines →
  sameLines k (colorLabelFrom n i color label pattern lines).1.
Proof.
  intros Hc. revert i. induction n as [|n IH]; intros i Hl; [done|].
  cbn [colorLabelFrom].
  destruct (lines !! i) as [line|] eqn:Ei; [|by apply IH].
  destruct (lines !! S i) as [nextLine|] eqn:Ej; [|by apply IH].
  destruct (Strings.Contains line pattern); [|by apply IH].
  destruct (Find spaceOrBar label spacesOrBar nextLine)
    as [[[[before g1] g3] after]|] eqn:E1; [|by apply IH].
  destruct (Find spaceOrBar label spacesOrBar (g1 ++ label ++ g3))
    as [[[[b' p1] p3] a']|] eqn:E2; [|by apply IH].
  apply Find_sound in E1; [|apply spaceOrBar_splits | apply spacesOrBar_splits].
  apply Find_sound in E2; [|apply spaceOrBar_splits | apply spacesOrBar_splits].
  destruct Hl as [Hlen Hall]. split; cbn [fst]; [by rewrite length_insert|].
  apply Forall_insert; [done|].
  pose proof (Forall_lookup_1 _ _ _ _ Hall Ej) as Hn. simpl in Hn.
  pose proof colorEnd_line as He.
  assert (NL ∉ g1 ++ label ++ g3) as Hm.
  { rewrite E1 in Hn. rewrite !not_elem_of_app in *. tauto. }
  rewrite E2 in Hm. rewrite E1 in Hn.
  rewrite !not_elem_of_app in *. tauto.
Qed.

Lemma colorLabel_lines highlights st dayNum k :
  sameLines k st.1 → sameLines k (colorLabel highlights st dayNum).1.
Proof.
  destruct st as [lines keys]. unfold colorLabel. simpl. intros Hl.
  destruct (directiveColor _) as [color|] eqn:Hc; [|done].
  destruct (bool_decide _); [done|].
  pose proof (colorLabelFrom_lines (length lines - 1) 0 color
                (lunarLabel (default noHighlight (highlights !! dayNum)))
                (color ++ Fmt.d dayNum ++ colorEnd) lines k
                (directiveColor_line _ _ Hc) Hl) as H.
  by destruct (colorLabelFrom _ _ _ _ _ _).
Qed.

Lemma colorLabels_lines highlights dayNums st k :
  sameLines k st.1 → sameLines k (foldl (colorLabel highlights) st dayNums).1.
Proof.
  revert st. induction dayNums as [|d ds IH]; intros st Hl; simpl; [done|].
  by apply IH, colorLabel_lines.
Qed.

(** C10.  The output of the annotator has as many line breaks as its
    input. *)
Theorem applyColors_lineBreaks noColorMode output highlights :
  lineBreaks (applyColors noColorMode output highlights) = lineBreaks output.
Proof.
  unfold applyColors. destruct noColorMode; [done|].
  set (dayNums := sortDescending _).
  set (output' := foldl (colorDate highlights) output dayNums).
  assert (sameLines (length (Strings.Split output')) (Strings.Split output', @nil text).1)
    as Hl by (split; [done | apply Split_lines]).
  apply (colorLabels_lines highlights dayNums) in Hl.
  destruct (foldl (colorLabel highlights) _ dayNums) as [lines keys].
  destruct Hl as [Hlen Hall]. simpl in *.
  rewrite lineBreaks_Join, Hlen by done.
  rewrite <- (lineBreaks_Join (Strings.Split output')) by apply Split_lines.
  rewrite Join_Split. apply colorDates_lineBreaks.
Qed.

(** *** A numeral of one digit beside a numeral of two digits *)












Lemma colorNumeralHere_consuming d color : consuming (colorNumeralHere d color).
Proof.
  intros s repl rest H.
  destruct (colorNumeralHere_sound _ _ _ _ _ H) as (g1 & g2 & Hg & -> & _).
  destruct g1 as [|c g1]; [done|]. exists c, (g1 ++ Fmt.d d ++ g2).
  simpl. by rewrite <- !app_assoc.
Qed.


(** *** The order of the directives *)

Lemma swapIfLess_length i j a : length (swapIfLess i j a) = length a.
Proof.
  unfold swapIfLess. destruct (a !! i), (a !! j); try done.
  destruct (_ <? _); [|done]. by rewrite !length_insert.
Qed.

Lemma swapIfLess_lookup i j a x y :
  i ≠ j → a !! i = Some x → a !! j = Some y →
  swapIfLess i j a !! i = Some (Z.max x y)
  ∧ swapIfLess i j a !! j = Some (Z.min x y)
  ∧ ∀ k, k ≠ i → k ≠ j → swapIfLess i j a !! k = a !! k.
Proof.
  intros Hij Hi Hj. unfold swapIfLess. rewrite Hi, Hj.
  pose proof (lookup_lt_Some _ _ _ Hi). pose proof (lookup_lt_Some _ _ _ Hj).
  destruct (Z.ltb_spec x y).
  - split; [|split].
    + rewrite list_lookup_insert_ne by done.
      rewrite list_lookup_insert_eq by done. f_equal. lia.
    + rewrite list_lookup_insert_eq by (by rewrite length_insert). f_equal. lia.
    + intros k Hki Hkj. by rewrite !list_lookup_insert_ne.
  - split; [|split]; [rewrite Hi; f_equal; lia | rewrite Hj; f_equal; lia | done].
Qed.

Lemma swapIfLess_elem_of i j a v : v ∈ swapIfLess i j a ↔ v ∈ a.
Proof.
  destruct (a !! i) as [x|] eqn:Hi; [|by unfold swapIfLess; rewrite Hi].
  destruct (a !! j) as [y|] eqn:Hj; [|by unfold swapIfLess; rewrite Hi, Hj].
  destruct (decide (i = j)) as [->|Hij].
  { unfold swapIfLess. rewrite Hi. simplify_eq. by rewrite Z.ltb_irrefl. }
  destruct (swapIfLess_lookup i j a x y Hij Hi Hj) as (Hi' & Hj' & Hk).
  assert (Z.max x y = x ∧ Z.min x y = y ∨ Z.max x y = y ∧ Z.min x y = x)
    as Hmm by lia.
  rewrite !list_elem_of_lookup. split; intros [k Hv].
  - destruct (decide (k = i)) as [->|]; [|destruct (decide (k = j)) as [->|]].
    + rewrite Hi' in Hv. destruct Hmm as [[? ?]|[? ?]]; [exists i | exists j]; congruence.
    + rewrite Hj' in Hv. destruct Hmm as [[? ?]|[? ?]]; [exists j | exists i]; congruence.
    + exists k. by rewrite <- Hk.
  - destruct (decide (k = i)) as [->|]; [|destruct (decide (k = j)) as [->|]].
    + destruct Hmm as [[? ?]|[? ?]]; [exists i | exists j]; congruence.
    + destruct Hmm as [[? ?]|[? ?]]; [exists j | exists i]; congruence.
    + exists k. by rewrite Hk.
Qed.

(** The inner loop from [j0]: the value at [i] becomes at least those at the
    places passed over. *)
Lemma inner_loop n i m j0 a :
  length a = n → (i < j0)%nat → (j0 + m ≤ n)%nat →
  sortedUpTo i a →
  (∀ q x y, (i < q < j0)%nat → a !! i = Some x → a !! q = Some y → y ≤ x) →
  let a' := foldl (λ a j, swapIfLess i j a) a (seq j0 m) in
  length a' = n ∧ sortedUpTo i a' ∧ (∀ v, v ∈ a' ↔ v ∈ a)
  ∧ ∀ q x y, (i < q < j0 + m)%nat → a' !! i = Some x → a' !! q = Some y → y ≤ x.
Proof.
  revert j0 a. induction m as [|m IH]; intros j0 a Hlen Hij Hn Hsorted Hmax; simpl.
  { split; [done|]. split; [done|]. split; [done|].
    intros q x y Hq. apply Hmax. lia. }
  destruct (lookup_lt_is_Some_2 a i) as [x Hi]; [lia|].
  destruct (lookup_lt_is_Some_2 a j0) as [y Hj]; [lia|].
  destruct (swapIfLess_lookup i j0 a x y ltac:(lia) Hi Hj) as (Hi' & Hj' & Hk).
  destruct (IH (S j0) (swapIfLess i j0 a)) as (Hl & Hs & He & Hm).
  - by rewrite swapIfLess_length.
  - lia.
  - lia.
  - intros p q u v Hp Hpq Hu Hv.
    rewrite Hk in Hu by lia.
    destruct (decide (q = i)) as [->|]; [|destruct (decide (q = j0)) as [->|]].
    + rewrite Hi' in Hv. injection Hv as <-.
      pose proof (Hsorted p i u x Hp Hpq Hu Hi).
      pose proof (Hsorted p j0 u y Hp ltac:(lia) Hu Hj). lia.
    + rewrite Hj' in Hv. injection Hv as <-.
      pose proof (Hsorted p i u x Hp ltac:(lia) Hu Hi).
      pose proof (Hsorted p j0 u y Hp Hpq Hu Hj). lia.
    + rewrite Hk in Hv by done. by apply (Hsorted p q).
  - intros q u v Hq Hu Hv. rewrite Hi' in Hu. injection Hu as <-.
    destruct (decide (q = j0)) as [->|].
    + rewrite Hj' in Hv. injection Hv as <-. lia.
    + rewrite Hk in Hv by lia.
      pose proof (Hmax q x v ltac:(lia) Hi Hv). lia.
  - split; [done|]. split; [done|]. split.
    + intros v. by rewrite He, swapIfLess_elem_of.
    + intros q u v Hq. apply Hm. lia.
Qed.

Lemma outer_loop n m i0 a :
  length a = n → (i0 + m ≤ n)%nat → sortedUpTo i0 a →
  let a' :=
    foldl (λ a i, foldl (λ a j, swapIfLess i j a) a (seq (S i) (length a - S i)))
      a (seq i0 m) in
  length a' = n ∧ sortedUpTo (i0 + m) a' ∧ ∀ v, v ∈ a' ↔ v ∈ a.
Proof.
  revert i0 a. induction m as [|m IH]; intros i0 a Hlen Hn Hsorted; simpl.
  { split; [done|]. split; [by rewrite Nat.add_0_r | done]. }
  destruct (inner_loop n i0 (length a - S i0) (S i0) a) as (Hl & Hs & He & Hm);
    [done | lia | lia | done | intros; lia |].
  destruct (IH (S i0) (foldl (λ a j, swapIfLess i0 j a) a (seq (S i0) (length a - S i0))))
    as (Hl' & Hs' & He'); [done | lia | |].
  - intros p q x y Hp Hpq Hx Hy.
    destruct (decide (p = i0)) as [->|].
    + apply (Hm q x y); [|done|done].
      pose proof (lookup_lt_Some _ _ _ Hy). lia.
    + apply (Hs p q x y); [lia|done|done|done].
  - split; [done|]. split.
    + by replace (i0 + S m)%nat with (S i0 + m)%nat by lia.
    + intros v. by rewrite He', He.
Qed.

(** The day numbers come out of the two loops in descending order; none is
    lost and none is added. *)
Lemma sortDescending_spec a :
  length (sortDescending a) = length a
  ∧ (∀ v, v ∈ sortDescending a ↔ v ∈ a)
  ∧ ∀ p q x y, (p < q)%nat →
      sortDescending a !! p = Some x → sortDescending a !! q = Some y → y ≤ x.
Proof.
  destruct (outer_loop (length a) (length a - 1) 0 a) as (Hl & Hs & He);
    [done | lia | intros p q x y Hp; lia |].
  fold (sortDescending a) in *.
  split; [done|]. split; [done|].
  intros p q x y Hpq Hx Hy. apply (Hs p q x y); [|done|done|done].
  pose proof (lookup_lt_Some _ _ _ Hy). lia.
Qed.


(** *** The lone 1 of the row *)









End AnnotatorFacts.

(** ** The date service *)

Section ServiceFacts.

Import TimeCheck Calendar.

Variable BySolar : Z → Z → Z → Lunar.

Lemma monthDays_all : allFrom (Z.to_nat (1101 * 12)) 0 monthDays = true.
Proof. by vm_compute. Qed.

Lemma inRange_spec lo hi x : inRange lo hi x = true → lo ≤ x ≤ hi.
Proof. unfold inRange. lia. Qed.

Lemma monthDays_spec k :
  monthDays k = true →
  28 ≤ Time.AddDate (Time.Date (1900 + k / 12) (1 + k mod 12) 1) 0 1 0
       - Time.Date (1900 + k / 12) (1 + k mod 12) 1 ≤ 31.
Proof. apply inRange_spec. Qed.

Lemma month_length year month :
  1900 ≤ year ≤ 3000 → 1 ≤ month ≤ 12 →
  28 ≤ Time.AddDate (Time.Date year month 1) 0 1 0 - Time.Date year month 1 ≤ 31.
Proof.
  intros Hy Hm.
  pose proof (allFrom_spec _ _ _ monthDays_all ((year - 1900) * 12 + (month - 1))
                ltac:(lia)) as H.
  apply monthDays_spec in H.
  assert (((year - 1900) * 12 + (month - 1)) / 12 = year - 1900) as Hq.
  { rewrite Z.div_add_l by lia. rewrite Z.div_small by lia. lia. }
  assert (((year - 1900) * 12 + (month - 1)) mod 12 = month - 1) as Hr.
  { rewrite Z.add_comm, Z_mod_plus_full. apply Z.mod_small. lia. }
  rewrite Hq, Hr in H.
  replace (1900 + (year - 1900)) with year in H by lia.
  replace (1 + (month - 1)) with month in H by lia.
  exact H.
Qed.

Lemma Weekday_range t : 0 ≤ Time.Weekday t < 7.
Proof. unfold Time.Weekday. apply Z.mod_pos_bound. lia. Qed.

(** The grid starts on a Sunday. *)
Lemma Weekday_start t : Time.Weekday (Time.AddDate t 0 0 (- Time.Weekday t)) = 0.
Proof.
  rewrite AddDate_days. unfold Time.Weekday.
  pose proof (Z.div_mod (t + 4) 7 ltac:(lia)) as H.
  replace (t + - ((t + 4) mod 7) + 4) with (((t + 4) / 7) * 7) by lia.
  apply Z_mod_mult.
Qed.

Lemma Weekday_next_week t : Time.Weekday t = 0 → Time.Weekday (t + 7) = 0.
Proof.
  unfold Time.Weekday. intros H.
  replace (t + 7 + 4) with (t + 4 + 1 * 7) by lia. by rewrite Z_mod_plus_full.
Qed.

Lemma buildDay_Date s t currentMonth now :
  Date (buildDay BySolar s t currentMonth now) = t.
Proof. unfold buildDay. by destruct (_ || _). Qed.

Lemma buildDay_InMonth s t currentMonth now :
  InMonth (buildDay BySolar s t currentMonth now) = (Time.Month t =? currentMonth).
Proof. unfold buildDay. by destruct (_ || _). Qed.

Lemma builtIn_mono s currentMonth now cursor n cursor' n' d :
  cursor' ≤ cursor → cursor + n ≤ cursor' + n' →
  builtIn BySolar s currentMonth now cursor n d → builtIn BySolar s currentMonth now cursor' n' d.
Proof. intros H1 H2 (t & Ht & ->). exists t. split; [lia | done]. Qed.

Lemma fillWeek_spec s n cursor currentMonth now :
  length (fillWeek BySolar s n cursor currentMonth now).1 = n
  ∧ (fillWeek BySolar s n cursor currentMonth now).2 = cursor + Z.of_nat n
  ∧ Forall (builtIn BySolar s currentMonth now cursor (Z.of_nat n))
      (fillWeek BySolar s n cursor currentMonth now).1.
Proof.
  revert cursor. induction n as [|n IH]; intros cursor.
  { cbn [fillWeek fst snd length]. split; [done|]. split; [lia | constructor]. }
  cbn [fillWeek].
  destruct (IH (Time.AddDate cursor 0 0 1)) as (Hl & Hc & Hb).
  destruct (fillWeek BySolar s n _ currentMonth now) as [days cursor'].
  cbn [fst snd length] in *. rewrite AddDate_days in Hc, Hb.
  split; [by rewrite Hl|]. split; [lia|]. constructor.
  - exists cursor. split; [lia | done].
  - eapply Forall_impl; [done|]. intros d. apply builtIn_mono; lia.
Qed.

(** The loop over the weeks ends: from a Sunday at most [n + 1] weeks before
    the end, any fuel above [n] gives the same weeks, each of seven days
    built for the dates that follow, and at most [n + 1] of them are new. *)
Lemma weeksLoop_ends s end_ currentMonth now n cursor weeks :
  Time.Weekday cursor = 0 → end_ ≤ cursor + 7 * (Z.of_nat n + 1) →
  ∃ new,
    (0 < length new ≤ n + 1)%nat ∧ Forall (λ week, length week = 7%nat) new
    ∧ Forall (Forall (builtIn BySolar s currentMonth now cursor (7 * (Z.of_nat n + 1)))) new
    ∧ ∀ fuel, (n < fuel)%nat →
        weeksLoop BySolar fuel s cursor end_ currentMonth now weeks
        = Some (weeks ++ new).
Proof.
  revert cursor weeks. induction n as [|n IH]; intros cursor weeks Hsun Hend.
  - destruct (fillWeek_spec s 7 cursor currentMonth now) as (Hl & Hc & Hb).
    exists [(fillWeek BySolar s 7 cursor currentMonth now).1].
    split; [simpl; lia|]. split; [by constructor|]. split; [by constructor|].
    intros [|fuel] Hf; [lia|]. cbn [weeksLoop].
    destruct (fillWeek BySolar s 7 cursor currentMonth now) as [week cursor'].
    cbn [fst snd] in *. subst cursor'. change (Z.of_nat 7) with 7 in *.
    rewrite (Weekday_next_week _ Hsun).
    unfold Time.Equal, Time.After.
    destruct (Z.eqb_spec (cursor + 7) end_), (Z.gtb_spec (cursor + 7) end_);
      simpl; try done. lia.
  - destruct (fillWeek_spec s 7 cursor currentMonth now) as (Hl & Hc & Hb).
    destruct (fillWeek BySolar s 7 cursor currentMonth now) as [week cursor'] eqn:Ew.
    cbn [fst snd] in *. subst cursor'. change (Z.of_nat 7) with 7 in *.
    destruct (IH (cursor + 7) (weeks ++ [week])) as (new & Hnew & Hseven & Hbuilt & Hloop);
      [by apply Weekday_next_week | lia |].
    assert (Forall (builtIn BySolar s currentMonth now cursor (7 * (Z.of_nat (S n) + 1))) week)
      as Hweek.
    { eapply Forall_impl; [done|]. intros d. apply builtIn_mono; lia. }
    set (stop1 := (Time.Equal (cursor + 7) end_ || Time.After (cursor + 7) end_)
                  && (Time.Weekday (cursor + 7) =? 0)).
    set (stop2 := (6 <=? Z.of_nat (length (weeks ++ [week])))
                  && Time.After (cursor + 7) (Time.AddDate end_ 0 0 7)).
    destruct (stop1 || stop2) eqn:Hstop.
    + exists [week]. split; [simpl; lia|]. split; [by constructor|].
      split; [by constructor|].
      intros [|fuel] Hf; [lia|]. cbn [weeksLoop]. rewrite Ew.
      fold stop1 stop2. by destruct stop1, stop2.
    + exists (week :: new). split; [simpl; lia|]. split; [by constructor|].
      split.
      { constructor; [done|]. eapply Forall_impl; [done|]. intros w Hw.
        eapply Forall_impl; [done|]. intros d. apply builtIn_mono; lia. }
      intros [|fuel] Hf; [lia|]. cbn [weeksLoop]. rewrite Ew.
      fold stop1 stop2. destruct stop1, stop2; try done.
      rewrite Hloop by lia. by rewrite <- app_assoc.
Qed.

(** More fuel changes nothing once the loop has ended. *)
Lemma weeksLoop_more_fuel s fuel fuel' cursor end_ currentMonth now weeks result :
  (fuel ≤ fuel')%nat →
  weeksLoop BySolar fuel s cursor end_ currentMonth now weeks = Some result →
  weeksLoop BySolar fuel' s cursor end_ currentMonth now weeks = Some result.
Proof.
  revert fuel' cursor weeks. induction fuel as [|fuel IH];
    intros fuel' cursor weeks Hf; [done|].
  destruct fuel' as [|fuel']; [lia|]. cbn [weeksLoop].
  destruct (fillWeek BySolar s 7 cursor currentMonth now) as [week cursor'].
  destruct (_ && _); [done|]. destruct (_ && _); [done|].
  apply IH. lia.
Qed.

Lemma grid_start_end year month :
  1900 ≤ year ≤ 3000 → 1 ≤ month ≤ 12 →
  Time.AddDate (Time.Date year month 1) 0 1 0
  ≤ Time.AddDate (Time.Date year month 1) 0 0 (- Time.Weekday (Time.Date year month 1))
    + 7 * (Z.of_nat 5 + 1).
Proof.
  intros Hy Hm. rewrite AddDate_days.
  pose proof (month_length year month Hy Hm).
  pose proof (Weekday_range (Time.Date year month 1)). lia.
Qed.

(** The views of the service: the weeks are those of the loop; they hold
    days built for the 42 dates from the Sunday the grid starts on. *)
Lemma Service_Month_weeks s year month :
  1900 ≤ year ≤ 3000 → 1 ≤ month ≤ 12 →
  ∃ weeks,
    (0 < length weeks ≤ 6)%nat ∧ Forall (λ week, length week = 7%nat) weeks
    ∧ Forall (Forall (builtIn BySolar s (Time.Month (Time.Date year month 1)) (now s)
                        (Time.AddDate (Time.Date year month 1) 0 0
                           (- Time.Weekday (Time.Date year month 1)))
                        42)) weeks
    ∧ ∀ fuel, (6 ≤ fuel)%nat →
        Service_Month BySolar fuel s year month
        = Some ({| Year := year;
                   Month := Time.Month (Time.Date year month 1);
                   Title := Fmt.d year ++ [32; 24180; 32] ++ Fmt.d month ++ [32; 26376];
                   Weeks := weeks |}, None).
Proof.
  intros Hy Hm.
  destruct (weeksLoop_ends s (Time.AddDate (Time.Date year month 1) 0 1 0)
              (Time.Month (Time.Date year month 1)) (now s) 5
              (Time.AddDate (Time.Date year month 1) 0 0
                 (- Time.Weekday (Time.Date year month 1))) [])
    as (new & Hnew & Hseven & Hbuilt & Hloop);
    [apply Weekday_start | by apply grid_start_end |].
  exists new. split; [lia|]. split; [done|]. split; [done|].
  intros fuel Hf. unfold Service_Month, MinSupportedYear, MaxSupportedYear.
  destruct (Z.ltb_spec year 1900), (Z.gtb_spec year 3000); try lia.
  destruct (Z.ltb_spec month 1), (Z.gtb_spec month 12); try lia.
  cbn [orb]. cbv zeta. by rewrite Hloop by lia.
Qed.

(** C8.  A year outside 1900..3000 gives the error of the unsupported year,
    with no view, before the loop over the weeks is entered; a year within
    the range and a month in 1..12 give a view and no error: the loop ends
    within six weeks. *)
Theorem Service_Month_spec s year month :
  (year < MinSupportedYear ∨ MaxSupportedYear < year →
   ∀ fuel, Service_Month BySolar fuel s year month
           = Some (emptyView, Some ErrYearOutOfRange))
  ∧ (MinSupportedYear ≤ year ≤ MaxSupportedYear → 1 ≤ month ≤ 12 →
     ∃ view,
       (∀ fuel, (6 ≤ fuel)%nat →
                Service_Month BySolar fuel s year month = Some (view, None))
       ∧ Year view = year
       ∧ (0 < length (Weeks view) ≤ 6)%nat
       ∧ Forall (λ week, length week = 7%nat) (Weeks view)).
Proof.
  unfold MinSupportedYear, MaxSupportedYear. split.
  - intros Hy fuel. unfold Service_Month, MinSupportedYear, MaxSupportedYear.
    destruct (Z.ltb_spec year 1900), (Z.gtb_spec year 3000); simpl; try done. lia.
  - intros Hy Hm.
    destruct (Service_Month_weeks s year month Hy Hm)
      as (weeks & Hlen & Hseven & _ & Hloop).
    eexists. split; [apply Hloop|]. by cbn [Year Weeks].
Qed.


End ServiceFacts.

(** * Further properties of the code *)

(** ** What the annotator adds *)

Section ColorFacts.

Import Strings Regexp Textwidth Render.

Lemma scanStep_separator st r :
  isSeparator r = true → WidthSpec.scanStep st r = WidthSpec.Outside.
Proof.
  unfold isSeparator, isSpace, isBar, BAR, WidthSpec.scanStep, ESC, isParam.
  intros H. destruct st;
    repeat match goal with
           | |- context [?a =? ?b] => destruct (Z.eqb_spec a b); try lia
           | |- context [?a <=? ?b] => destruct (Z.leb_spec a b); try lia
           end; simpl in *; try done; lia.
Qed.

Lemma scanEnd_separator x r :
  isSeparator r = true → WidthSpec.scanEnd (x ++ [r]) = WidthSpec.Outside.
Proof.
  intros H. unfold WidthSpec.scanEnd. rewrite foldl_app. simpl.
  by apply scanStep_separator.
Qed.

Lemma insideSequence_outside a b :
  WidthSpec.scanEnd a = WidthSpec.Outside → WidthSpec.insideSequence a b = false.
Proof. unfold WidthSpec.insideSequence. by intros ->. Qed.

Lemma insideSequence_separator a r b :
  isSeparator r = true → WidthSpec.insideSequence a (r :: b) = false.
Proof.
  intros H. unfold WidthSpec.insideSequence.
  assert (ansiParams (r :: b) = None ∧ (r =? 91) = false) as [Hp Hb].
  { revert H. unfold isSeparator, isSpace, isBar, BAR, isParam. simpl.
    unfold isParam.
    repeat match goal with
           | |- context [?a =? ?b] => destruct (Z.eqb_spec a b); try lia
           | |- context [?a <=? ?b] => destruct (Z.leb_spec a b); try lia
           end; simpl in *; try done. }
  destruct (WidthSpec.scanEnd a); [done| |].
  - by rewrite Hb.
  - rewrite Hp. by apply bool_decide_eq_false_2; intros [? ?].
Qed.

(** A text between two separators, with and without color around it. *)
Lemma stripANSI_between a x r b :
  WidthSpec.scanEnd a = WidthSpec.Outside → isSeparator r = true →
  stripANSI (a ++ x ++ r :: b) = stripANSI a ++ stripANSI x ++ stripANSI (r :: b).
Proof.
  intros Ha Hr.
  rewrite stripANSI_app by by apply insideSequence_outside.
  by rewrite stripANSI_app by by apply insideSequence_separator.
Qed.

Lemma stripANSI_colored a cs x ce b :
  WidthSpec.ControlSequence cs → WidthSpec.ControlSequence ce →
  stripANSI (a ++ cs ++ x ++ ce ++ b) = stripANSI a ++ stripANSI x ++ stripANSI b.
Proof. intros Hs He. by rewrite !stripANSI_insert. Qed.

Lemma one_separates p :
  (∀ c, p c = true → isSeparator c = true) → separates (one p).
Proof.
  intros Hp [|c s] a r; simpl; [by intros ?%elem_of_nil|].
  destruct (p c) eqn:E; [|by intros ?%elem_of_nil].
  intros [= -> ->]%list_elem_of_singleton. split; [done|].
  constructor; [by apply Hp | constructor].
Qed.

Lemma many1_separates p :
  (∀ c, p c = true → isSeparator c = true) → separates (many1 p).
Proof.
  intros Hp s. induction s as [|c s IH]; intros a r; simpl; [by intros ?%elem_of_nil|].
  destruct (p c) eqn:E; [|by intros ?%elem_of_nil].
  rewrite elem_of_app, list_elem_of_fmap, list_elem_of_singleton.
  intros [([a' r'] & [= -> ->] & H)|[= -> ->]].
  - apply IH in H as [_ H]. split; [done|]. constructor; [by apply Hp | done].
  - split; [done|]. constructor; [by apply Hp | constructor].
Qed.

Lemma alt_separates a b : separates a → separates b → separates (alt a b).
Proof. intros Ha Hb s x r [?|?]%elem_of_app; eauto. Qed.

Lemma isSpace_separator c : isSpace c = true → isSeparator c = true.
Proof. unfold isSeparator. by intros ->. Qed.

Lemma isBar_separator c : isBar c = true → isSeparator c = true.
Proof. unfold isSeparator. intros ->. by rewrite orb_true_r. Qed.

Lemma spacesOrBar_separates : separates spacesOrBar.
Proof.
  apply alt_separates;
    [apply many1_separates, isSpace_separator | apply one_separates, isBar_separator].
Qed.

Lemma spaceOrBar_separates : separates spaceOrBar.
Proof.
  apply alt_separates;
    [apply one_separates, isSpace_separator | apply one_separates, isBar_separator].
Qed.

(** The two groups of a match of a numeral or of a label are separators:
    the first ends with one, the second begins with one. *)
Lemma matchHere_separators a w b s g1 g2 rest :
  splits a → splits b → separates a → separates b →
  matchHere a w b s = Some (g1, g2, rest) →
  s = g1 ++ w ++ g2 ++ rest
  ∧ (∃ g r, g1 = g ++ [r] ∧ isSeparator r = true)
  ∧ (∃ r g, g2 = r :: g ∧ isSeparator r = true).
Proof.
  intros Ha Hb Hsa Hsb H%head_Some_elem_of.
  apply groups_elem in H as (Hs & r1 & H1 & H2); [|done..].
  apply Hsa in H1 as [Hn1 Hf1]. apply Hsb in H2 as [Hn2 Hf2].
  split; [done|]. split.
  - destruct g1 as [|c g1] using rev_ind; [done|].
    rewrite Forall_app, Forall_singleton in Hf1. destruct Hf1 as [_ Hc]. eauto.
  - destruct g2 as [|c g2]; [done|]. apply Forall_cons in Hf2 as [Hc _]. eauto.
Qed.

Lemma numeralHere_separators dayNum s g1 g2 rest :
  numeralHere dayNum s = Some (g1, g2, rest) →
  s = g1 ++ Fmt.d dayNum ++ g2 ++ rest
  ∧ (∃ g r, g1 = g ++ [r] ∧ isSeparator r = true)
  ∧ (∃ r g, g2 = r :: g ∧ isSeparator r = true).
Proof.
  unfold numeralHere. destruct (dayNum <? 10).
  - apply matchHere_separators;
      [apply many1_splits | apply spacesOrBar_splits
      | apply many1_separates, isSpace_separator | apply spacesOrBar_separates].
  - apply matchHere_separators;
      [apply spaceOrBar_splits | apply spacesOrBar_splits
      | apply spaceOrBar_separates | apply spacesOrBar_separates].
Qed.

Lemma holidayStart_sequence : WidthSpec.ControlSequence holidayStart.
Proof. exists (lit "38;2;59;130;246"). split; [done|]. by repeat constructor. Qed.

Lemma workdayStart_sequence : WidthSpec.ControlSequence workdayStart.
Proof. exists (lit "38;2;249;115;22"). split; [done|]. by repeat constructor. Qed.

Lemma todayStart_sequence : WidthSpec.ControlSequence todayStart.
Proof. exists (lit "38;2;52;211;153"). split; [done|]. by repeat constructor. Qed.

Lemma colorEnd_sequence : WidthSpec.ControlSequence colorEnd.
Proof. exists (lit "0"). split; [done|]. by repeat constructor. Qed.

Lemma directiveColor_sequence info color :
  directiveColor info = Some color → WidthSpec.ControlSequence color.
Proof.
  unfold directiveColor.
  destruct (hasHoliday info), (isHoliday info), (isToday info);
    intros [= <-]; auto using holidayStart_sequence, workdayStart_sequence,
                     todayStart_sequence.
Qed.

Lemma colorNumeralHere_separators dayNum color s repl rest :
  colorNumeralHere dayNum color s = Some (repl, rest) →
  ∃ g r1 r2 g',
    isSeparator r1 = true ∧ isSeparator r2 = true
    ∧ s = (g ++ [r1]) ++ Fmt.d dayNum ++ (r2 :: g') ++ rest
    ∧ repl = (g ++ [r1]) ++ color ++ Fmt.d dayNum ++ colorEnd ++ (r2 :: g').
Proof.
  unfold colorNumeralHere.
  destruct (numeralHere dayNum s) as [[[g1 g2] r]|] eqn:E; [|done].
  simpl. intros [= <- <-].
  apply numeralHere_separators in E as (Hs & (g & r1 & -> & Hr1) & (r2 & g' & -> & Hr2)).
  by exists g, r1, r2, g'.
Qed.

(** The first pass leaves the text without its control sequences as it
    was, within any text that comes before. *)
Lemma ReplaceAll_stripANSI dayNum color :
  WidthSpec.ControlSequence color →
  ∀ s p, stripANSI (p ++ ReplaceAll (colorNumeralHere dayNum color) s)
         = stripANSI (p ++ s).
Proof.
  intros Hc.
  apply (ReplaceAll_scan (colorNumeralHere dayNum color)
           (λ s out, ∀ p, stripANSI (p ++ out) = stripANSI (p ++ s))).
  - apply colorNumeralHere_consuming.
  - done.
  - intros c s out _ IH p.
    rewrite !(cons_middle c), !app_assoc. apply IH.
  - intros c pre repl rest out Hm IH p.
    apply colorNumeralHere_separators in Hm
      as (g & r1 & r2 & g' & Hr1 & Hr2 & -> & ->).
    transitivity (stripANSI (p ++ g ++ [r1]) ++ stripANSI (Fmt.d dayNum)
                  ++ stripANSI ((r2 :: g') ++ rest)).
    + rewrite <- (IH (r2 :: g')).
      rewrite <- (stripANSI_colored (p ++ g ++ [r1]) color (Fmt.d dayNum) colorEnd
                    ((r2 :: g') ++ out) Hc colorEnd_sequence).
      f_equal. by rewrite <- !app_assoc.
    + change ((r2 :: g') ++ rest) with (r2 :: g' ++ rest).
      rewrite <- (stripANSI_between (p ++ g ++ [r1]) (Fmt.d dayNum) r2 (g' ++ rest)).
      * f_equal. by rewrite <- !app_assoc.
      * rewrite app_assoc. by apply scanEnd_separator.
      * done.
Qed.

Lemma colorDate_stripANSI highlights output dayNum :
  stripANSI (colorDate highlights output dayNum) = stripANSI output.
Proof.
  unfold colorDate. destruct (directiveColor _) as [color|] eqn:E; [|done].
  apply (ReplaceAll_stripANSI dayNum color (directiveColor_sequence _ _ E) output []).
Qed.

Lemma colorDates_stripANSI highlights dayNums output :
  stripANSI (foldl (colorDate highlights) output dayNums) = stripANSI output.
Proof.
  revert output. induction dayNums as [|d ds IH]; intros output; simpl; [done|].
  by rewrite IH, colorDate_stripANSI.
Qed.

(** *** The second pass *)

(** What a greedy run takes first, it takes again when nothing follows. *)
Lemma many1_head_alone p s g r :
  head (many1 p s) = Some (g, r) → head (many1 p g) = Some (g, []).
Proof.
  revert g r. induction s as [|c s IH]; intros g r; simpl; [done|].
  destruct (p c) eqn:Hc; [|done].
  destruct (many1 p s) as [|[g' r'] l] eqn:E; simpl.
  - intros [= <- <-]. simpl. by rewrite Hc.
  - intros [= <- <-]. simpl. rewrite Hc.
    pose proof (IH g' r' eq_refl) as H.
    destruct (many1 p g') as [|[x y] l']; [done|].
    simpl in *. by injection H as -> ->.
Qed.

Lemma spacesOrBar_head_alone s g r :
  head (spacesOrBar s) = Some (g, r) → head (spacesOrBar g) = Some (g, []).
Proof.
  unfold spacesOrBar, alt.
  destruct (many1 isSpace s) as [|[g' r'] l] eqn:E; simpl.
  - destruct s as [|c s]; simpl; [done|].
    destruct (isBar c) eqn:Hb; [|done]. intros [= <- <-]. simpl.
    rewrite Hb. replace (isSpace c) with false; [done|].
    revert Hb. unfold isBar, isSpace, BAR. intros ->%Z.eqb_eq. done.
  - intros [= <- <-].
    assert (head (many1 isSpace s) = Some (g', r')) as H by by rewrite E.
    apply many1_head_alone in H.
    destruct (many1 isSpace g'); [done|]. simpl in *. done.
Qed.

Lemma bind_groups (c : rune) (l : list (text * text)) :
  l ≫= (λ '(g2, r3), [([c], g2, r3)]) = (λ gr, ([c], gr.1, gr.2)) <$> l.
Proof. induction l as [|[g2 r3] l IH]; [done|]. simpl. by f_equal. Qed.

(** The pattern of a label at the current position. *)
Lemma groups_label w c s :
  groups spaceOrBar w spacesOrBar (c :: s)
  = if isSeparator c && HasPrefix w s
    then (λ gr, ([c], gr.1, gr.2)) <$> spacesOrBar (drop (length w) s)
    else [].
Proof.
  unfold groups, spaceOrBar at 1, alt, one, quoted, isSeparator.
  assert (isSpace c = true → isBar c = false) as Hx.
  { unfold isBar, isSpace, BAR. intros H. apply Z.eqb_neq. intros ->. done. }
  destruct (isSpace c) eqn:Hs.
  - rewrite Hx by done. simpl. destruct (HasPrefix w s); simpl; [|done].
    by rewrite !app_nil_r, bind_groups.
  - destruct (isBar c); simpl; [|done]. destruct (HasPrefix w s); simpl; [|done].
    by rewrite !app_nil_r, bind_groups.
Qed.

Lemma matchHere_alone w s g1 g2 rest :
  matchHere spaceOrBar w spacesOrBar s = Some (g1, g2, rest) →
  matchHere spaceOrBar w spacesOrBar (g1 ++ w ++ g2) = Some (g1, g2, []).
Proof.
  unfold matchHere. destruct s as [|c s]; [done|].
  rewrite groups_label.
  destruct (isSeparator c) eqn:Hc; [|done].
  destruct (HasPrefix w s) eqn:Hw; [|done]. cbn [andb].
  destruct (spacesOrBar (drop (length w) s)) as [|[g r] l] eqn:E; [done|].
  simpl. intros [= <- <- <-].
  assert (head (spacesOrBar (drop (length w) s)) = Some (g, r)) as H by by rewrite E.
  apply spacesOrBar_head_alone in H.
  change ([c] ++ w ++ g) with (c :: w ++ g).
  rewrite groups_label, Hc, HasPrefix_app, drop_app_length. cbn [andb].
  destruct (spacesOrBar g) as [|[g' r'] l']; [done|].
  simpl in *. by injection H as -> ->.
Qed.

Lemma Find_here a w b s g1 g2 rest :
  matchHere a w b s = Some (g1, g2, rest) → Find a w b s = Some ([], g1, g2, rest).
Proof. intros H. destruct s; simpl; by rewrite H. Qed.

Lemma Find_matchHere a w b s before g1 g2 after :
  Find a w b s = Some (before, g1, g2, after) →
  ∃ s', s = before ++ s' ∧ matchHere a w b s' = Some (g1, g2, after).
Proof.
  revert before. induction s as [|c s IH]; intros before; simpl.
  - destruct (matchHere a w b []) as [[[x y] z]|] eqn:E; [|done].
    intros [= <- <- <- <-]. by exists [].
  - destruct (matchHere a w b (c :: s)) as [[[x y] z]|] eqn:E.
    + intros [= <- <- <- <-]. by exists (c :: s).
    + destruct (Find a w b s) as [[[[x y] z] u]|]; [|done].
      intros [= <- <- <- <-]. destruct (IH x eq_refl) as (s' & -> & H).
      by exists s'.
Qed.

Lemma Join_middle ls a x b rs :
  Join (ls ++ (a ++ x ++ b) :: rs) = Join (ls ++ [a]) ++ x ++ Join (b :: rs).
Proof. by rewrite Join_app_line, Join_head_app. Qed.

Lemma Join_last ls a x : Join (ls ++ [a ++ x]) = Join (ls ++ [a]) ++ x.
Proof. by rewrite Join_app_line. Qed.

(** A label found by the pattern, colored in its line: the text without its
    control sequences is as it was. *)
Lemma colored_label_stripANSI ls rs before g1 label g3 after color :
  WidthSpec.ControlSequence color →
  (∃ g r, g1 = g ++ [r] ∧ isSeparator r = true) →
  (∃ r g, g3 = r :: g ∧ isSeparator r = true) →
  stripANSI (Join (ls ++ (before ++ (g1 ++ color ++ label ++ colorEnd ++ g3) ++ after) :: rs))
  = stripANSI (Join (ls ++ (before ++ g1 ++ label ++ g3 ++ after) :: rs)).
Proof.
  intros Hc (g & r1 & -> & Hr1) (r3 & g' & -> & Hr3).
  replace (before ++ ((g ++ [r1]) ++ color ++ label ++ colorEnd ++ r3 :: g') ++ after)
    with (((before ++ g) ++ [r1]) ++ (color ++ label ++ colorEnd) ++ ([r3] ++ g' ++ after))
    by (by rewrite <- !app_assoc).
  replace (before ++ (g ++ [r1]) ++ label ++ (r3 :: g') ++ after)
    with (((before ++ g) ++ [r1]) ++ label ++ ([r3] ++ g' ++ after))
    by (by rewrite <- !app_assoc).
  rewrite !Join_middle, !Join_last, !(Join_head_app [r3]).
  set (A := Join (ls ++ [before]) ++ g). set (B := Join ((g' ++ after) :: rs)).
  rewrite <- ?(app_assoc color), <- ?(app_assoc label).
  rewrite (stripANSI_colored (A ++ [r1]) color label colorEnd ([r3] ++ B)
             Hc colorEnd_sequence).
  change ([r3] ++ B) with (r3 :: B).
  rewrite stripANSI_between; [done | by apply scanEnd_separator | done].
Qed.

Lemma colorLabelFrom_stripANSI n i color label pattern lines :
  WidthSpec.ControlSequence color →
  stripANSI (Join (colorLabelFrom n i color label pattern lines).1)
  = stripANSI (Join lines).
Proof.
  intros Hc. revert i. induction n as [|n IH]; intros i; [done|].
  cbn [colorLabelFrom].
  destruct (lines !! i) as [line|] eqn:Ei; [|by apply IH].
  destruct (lines !! S i) as [nextLine|] eqn:Ej; [|by apply IH].
  destruct (Strings.Contains line pattern); [|by apply IH].
  destruct (Find spaceOrBar label spacesOrBar nextLine)
    as [[[[before g1] g3] after]|] eqn:E1; [|by apply IH].
  apply Find_matchHere in E1 as (s' & -> & Hm).
  rewrite (Find_here _ _ _ _ _ _ _ (matchHere_alone _ _ _ _ _ Hm)).
  cbn [fst].
  apply matchHere_separators in Hm as (-> & Hg1 & Hg3);
    [|apply spaceOrBar_splits | apply spacesOrBar_splits
     |apply spaceOrBar_separates | apply spacesOrBar_separates].
  rewrite <- (take_drop_middle _ _ _ Ej) at 2.
  rewrite insert_take_drop by by eapply lookup_lt_Some.
  by apply colored_label_stripANSI.
Qed.

Lemma colorLabel_stripANSI highlights st dayNum :
  stripANSI (Join (colorLabel highlights st dayNum).1) = stripANSI (Join st.1).
Proof.
  destruct st as [lines keys]. unfold colorLabel. simpl.
  destruct (directiveColor _) as [color|] eqn:Hc; [|done].
  destruct (bool_decide _); [done|].
  pose proof (colorLabelFrom_stripANSI (length lines - 1) 0 color
                (lunarLabel (default noHighlight (highlights !! dayNum)))
                (color ++ Fmt.d dayNum ++ colorEnd) lines
                (directiveColor_sequence _ _ Hc)) as H.
  by destruct (colorLabelFrom _ _ _ _ _ _).
Qed.

Lemma colorLabels_stripANSI highlights dayNums st :
  stripANSI (Join (foldl (colorLabel highlights) st dayNums).1) = stripANSI (Join st.1).
Proof.
  revert st. induction dayNums as [|d ds IH]; intros st; simpl; [done|].
  by rewrite IH, colorLabel_stripANSI.
Qed.

Lemma applyColors_stripANSI noColorMode output highlights :
  stripANSI (applyColors noColorMode output highlights) = stripANSI output.
Proof.
  unfold applyColors. destruct noColorMode; [done|]. cbv zeta.
  pose proof (colorLabels_stripANSI highlights
                (sortDescending (map_to_list highlights).*1)
                (Split (foldl (colorDate highlights) output
                          (sortDescending (map_to_list highlights).*1)), [])) as H.
  destruct (foldl (colorLabel highlights) _ _) as [lines keys].
  cbn [fst] in H. by rewrite H, Join_Split, colorDates_stripANSI.
Qed.

(** X2.  What the annotator adds is control sequences only: without them the
    output is the input without its own, and the width of the output is
    that of the input. *)
Theorem applyColors_width tbl noColorMode output highlights :
  stripANSI (applyColors noColorMode output highlights) = stripANSI output
  ∧ StringWidth tbl (applyColors noColorMode output highlights)
    = StringWidth tbl output.
Proof.
  split; [apply applyColors_stripANSI|].
  by rewrite !(StringWidth_stripANSI tbl), applyColors_stripANSI.
Qed.

(** X3.  The annotator gives the text back as it is when the color is off
    and when there is no directive. *)
Theorem applyColors_unchanged output highlights :
  applyColors true output highlights = output
  ∧ applyColors false output ∅ = output.
Proof.
  split; [done|]. unfold applyColors.
  rewrite map_to_list_empty. cbn. apply Join_Split.
Qed.

(** Numbers without repeats, once sorted: they go strictly down. *)
Lemma sortDescending_strict (a : list Z) :
  NoDup a →
  (∀ v, v ∈ sortDescending a ↔ v ∈ a)
  ∧ ∀ p q u v, (p < q)%nat →
      sortDescending a !! p = Some u → sortDescending a !! q = Some v → v < u.
Proof.
  intros Ha.
  destruct (sortDescending_spec a) as (Hlen & Helem & Hsorted).
  split; [done|].
  assert (NoDup (sortDescending a)) as Hnodup.
  { assert (a ≡ₚ sortDescending a) as <-; [|done].
    apply submseteq_length_Permutation; [|by rewrite Hlen].
    apply NoDup_submseteq; [done|]. intros v Hv. by apply Helem. }
  intros p q u v Hpq Hp Hq.
  pose proof (Hsorted p q u v Hpq Hp Hq) as Hle.
  destruct (Z.eq_dec u v) as [->|]; [|lia].
  pose proof (NoDup_lookup _ _ _ _ Hnodup Hp Hq). lia.
Qed.

(** There is one way to list given numbers strictly down. *)
Lemma descending_unique (l1 l2 : list Z) :
  (∀ p q u v, (p < q)%nat → l1 !! p = Some u → l1 !! q = Some v → v < u) →
  (∀ p q u v, (p < q)%nat → l2 !! p = Some u → l2 !! q = Some v → v < u) →
  (∀ v, v ∈ l1 ↔ v ∈ l2) →
  l1 = l2.
Proof.
  revert l2. induction l1 as [|x l1 IH]; intros [|y l2] H1 H2 He.
  - done.
  - specialize (He y). rewrite elem_of_nil in He. destruct He as [_ He].
    destruct He. by left.
  - specialize (He x). rewrite elem_of_nil in He. destruct He as [He _].
    destruct He. by left.
  - assert (∀ (l : list Z) z v,
              (∀ p q u v, (p < q)%nat → (z :: l) !! p = Some u →
                          (z :: l) !! q = Some v → v < u) →
              v ∈ l → v < z) as Hhead.
    { intros l z v Hs [i Hi]%list_elem_of_lookup. by apply (Hs 0%nat (S i) z v); [lia|..]. }
    assert (x = y) as ->.
    { pose proof (proj1 (He x) ltac:(by left)) as [->|Hx]%elem_of_cons; [done|].
      pose proof (proj2 (He y) ltac:(by left)) as [->|Hy]%elem_of_cons; [done|].
      pose proof (Hhead _ _ _ H2 Hx). pose proof (Hhead _ _ _ H1 Hy). lia. }
    f_equal. apply IH.
    + intros p q u v Hpq Hp Hq. apply (H1 (S p) (S q) u v); [lia|done..].
    + intros p q u v Hpq Hp Hq. apply (H2 (S p) (S q) u v); [lia|done..].
    + intros v. split.
      * intros Hv. pose proof (Hhead _ _ _ H1 Hv).
        pose proof (proj1 (He v) ltac:(by right)) as [->|Hv']%elem_of_cons; [lia|done].
      * intros Hv. pose proof (Hhead _ _ _ H2 Hv).
        pose proof (proj2 (He v) ltac:(by right)) as [->|Hv']%elem_of_cons; [lia|done].
Qed.

(** X4.  The order of the directives: [applyColors] takes every day number of
    the map once, from the largest to the smallest, in whatever order the
    map gives its keys. *)
Theorem dayNums_descending (highlights : gmap Z highlightInfo) :
  let dayNums := sortDescending (map_to_list highlights).*1 in
  NoDup dayNums
  ∧ (∀ v, v ∈ dayNums ↔ is_Some (highlights !! v))
  ∧ (∀ p q u v, (p < q)%nat → dayNums !! p = Some u → dayNums !! q = Some v → v < u)
  ∧ ∀ keys, keys ≡ₚ (map_to_list highlights).*1 → sortDescending keys = dayNums.
Proof.
  intros dayNums.
  pose proof (NoDup_fst_map_to_list highlights) as Hkeys.
  destruct (sortDescending_strict _ Hkeys) as [Helem Hstrict].
  split; [|split; [|split; [done|]]].
  - apply NoDup_alt. intros p q v Hp Hq.
    destruct (Nat.lt_trichotomy p q) as [Hlt|[->|Hgt]]; [|done|].
    + pose proof (Hstrict p q v v Hlt Hp Hq). lia.
    + pose proof (Hstrict q p v v Hgt Hq Hp). lia.
  - intros v. unfold dayNums. rewrite Helem. rewrite list_elem_of_fmap. split.
    + intros ([k info] & -> & Hin%elem_of_map_to_list). by exists info.
    + intros [info Hin]. exists (v, info). by rewrite elem_of_map_to_list.
  - intros keys Hperm.
    assert (NoDup keys) as Hnd by by rewrite Hperm.
    destruct (sortDescending_strict _ Hnd) as [Helem' Hstrict'].
    apply descending_unique; [done | done |].
    intros v. unfold dayNums. by rewrite Helem, Helem', Hperm.
Qed.

End ColorFacts.

(** ** The directives collected from a view *)

Section DirectiveFacts.

Import Calendar Render.

Lemma collectDay_marked hl d :
  collectDay hl d
  = if marked d then <[Time.Day (Date d) := directiveOf d]> hl else hl.
Proof.
  unfold collectDay, directiveOf, renderLunarCell, marked.
  destruct (InMonth d); [|done]. cbn [negb andb]. cbv zeta.
  destruct (HolidayInfo d) as [h|].
  - rewrite orb_true_r. done.
  - rewrite orb_false_r. by destruct (IsToday d).
Qed.

(** The directives collected from a list of days. *)
Lemma collect_spec days hl n info :
  foldl collectDay hl days !! n = Some info →
  hl !! n = Some info
  ∨ ∃ d, d ∈ days ∧ marked d = true ∧ Time.Day (Date d) = n ∧ info = directiveOf d.
Proof.
  revert hl. induction days as [|d days IH]; intros hl; simpl; [by left|].
  intros [H|(d' & Hd' & H)]%IH.
  - rewrite collectDay_marked in H. destruct (marked d) eqn:Hm; [|by left].
    destruct (decide (Time.Day (Date d) = n)) as [<-|Hne].
    + rewrite lookup_insert_eq in H. injection H as <-.
      right. exists d. split; [by left | done].
    + rewrite lookup_insert_ne in H by done. by left.
  - right. exists d'. split; [by right | done].
Qed.

Lemma collect_marked days hl d :
  d ∈ days → marked d = true →
  is_Some (foldl collectDay hl days !! Time.Day (Date d)).
Proof.
  assert (∀ days hl n, is_Some (hl !! n) → is_Some (foldl collectDay hl days !! n))
    as Hkeep.
  { clear. intros days. induction days as [|d days IH]; intros hl n H; simpl; [done|].
    apply IH. rewrite collectDay_marked. destruct (marked d); [|done].
    destruct (decide (Time.Day (Date d) = n)) as [<-|Hne].
    - by rewrite lookup_insert_eq.
    - by rewrite lookup_insert_ne. }
  revert hl. induction days as [|d' days IH]; intros hl Hd Hm; simpl.
  - by apply elem_of_nil in Hd.
  - apply elem_of_cons in Hd as [<-|Hd]; [|by apply IH].
    apply Hkeep. rewrite collectDay_marked, Hm. by rewrite lookup_insert_eq.
Qed.

(** X5.  The directives of a month: there is one for a day number exactly when
    a day of the month with that number is today or has holiday data; it
    is that of such a day, it has a color, and its label is the text of the
    label cell of the day. *)
Theorem collectHighlights_spec view n :
  (is_Some (collectHighlights view !! n)
   ↔ ∃ d, d ∈ concat (Weeks view) ∧ marked d = true ∧ Time.Day (Date d) = n)
  ∧ ∀ info, collectHighlights view !! n = Some info →
      is_Some (directiveColor info)
      ∧ ∃ d, d ∈ concat (Weeks view) ∧ marked d = true ∧ Time.Day (Date d) = n
             ∧ info = directiveOf d.
Proof.
  unfold collectHighlights. rewrite foldl_concat. split; [split|].
  - intros [info [H|(d & Hd & Hm & Hn & _)]%collect_spec]; [done | eauto].
  - intros (d & Hd & Hm & <-). by apply collect_marked.
  - intros info [H|(d & Hd & Hm & Hn & ->)]%collect_spec; [done|].
    split; [|eauto]. revert Hm.
    unfold marked, directiveColor, directiveOf. cbn [hasHoliday isHoliday isToday].
    destruct (InMonth d); [|done]. cbn [andb].
    destruct (HolidayInfo d) as [h|]; simpl.
    + by destruct (Holidays.IsHoliday h).
    + rewrite orb_false_r. by intros ->.
Qed.

End DirectiveFacts.

(** ** The block of a month *)

Section BlockFacts.

Import Strings Regexp Textwidth Calendar Render.

Variable tbl : rune → option (Z * Z).
Variable tableView : Z → list (list text) → text.
Variable tableWrapper : text → text.
Variable titleStyle : text → text.

Lemma length_Split s : length (Split s) = S (lineBreaks s).
Proof.
  induction s as [|c s IH]; [done|]. rewrite lineBreaks_cons. simpl.
  destruct (Z.eqb_spec c NL); simpl; [by rewrite IH|].
  destruct (Split s); simpl in *; lia.
Qed.

Lemma applyColors_breaks noColorMode output highlights :
  lineBreaks (applyColors noColorMode output highlights) = lineBreaks output.
Proof.
  unfold applyColors. destruct noColorMode; [done|]. cbv zeta.
  pose proof (colorLabels_lines highlights
                (sortDescending (map_to_list highlights).*1)
                (Split (foldl (colorDate highlights) output
                          (sortDescending (map_to_list highlights).*1)), [])
                (length (Split (foldl (colorDate highlights) output
                          (sortDescending (map_to_list highlights).*1))))) as H.
  destruct (foldl (colorLabel highlights) _ _) as [lines keys]. cbn [fst] in H.
  destruct H as [Hlen Hall]; [split; [done | apply Split_lines]|].
  rewrite lineBreaks_Join by done. rewrite Hlen, length_Split.
  rewrite colorDates_lineBreaks. lia.
Qed.

(** The widest of the lines of a text is as wide as the text. *)
Lemma foldl_max_acc (ls : list text) a :
  0 ≤ a →
  foldl (λ width line, if StringWidth tbl line >? width
                       then StringWidth tbl line else width) a ls
  = Z.max a (foldr Z.max 0 (StringWidth tbl <$> ls)).
Proof.
  revert a. induction ls as [|l ls IH]; intros a Ha; [simpl; lia|].
  rewrite fmap_cons. cbn [foldl foldr].
  pose proof (foldr_max_nonneg (StringWidth tbl <$> ls)).
  destruct (Z.gtb_spec (StringWidth tbl l) a); rewrite IH; lia.
Qed.

Lemma StringWidth_nonneg s : 0 ≤ StringWidth tbl s.
Proof. rewrite StringWidth_lines. apply foldr_max_nonneg. Qed.

Lemma StringWidth_Split s :
  foldr Z.max 0 (StringWidth tbl <$> Split s) = StringWidth tbl s.
Proof.
  rewrite (StringWidth_lines tbl s). f_equal.
  apply list_fmap_ext. intros i l Hl%list_elem_of_lookup_2.
  pose proof (proj1 (Forall_forall _ _) (Split_lines s) l Hl) as Hn.
  simpl in Hn. rewrite StringWidth_line by done. by rewrite lineWidth_clean.
Qed.

(** The cells of a day do not depend on its marks. *)
Lemma unmarked_cells d :
  renderGregorianCell (unmarked d) = renderGregorianCell d
  ∧ renderLunarCell (unmarked d) = renderLunarCell d.
Proof. done. Qed.

Lemma determineColumnWidth_clearMarks view :
  determineColumnWidth tbl (clearMarks view) = determineColumnWidth tbl view.
Proof.
  unfold determineColumnWidth, clearMarks. cbn [Weeks].
  generalize 4. induction (Weeks view) as [|week weeks IH]; intros a; [done|].
  cbn [map foldl]. rewrite IH. f_equal.
  clear. revert a. induction week as [|d week IH]; intros a; [done|].
  cbn [map foldl]. by rewrite IH.
Qed.

Lemma tableRows_clearMarks n idx weeks :
  tableRows n idx (map (map unmarked) weeks) = tableRows n idx weeks.
Proof.
  revert idx. induction weeks as [|week weeks IH]; intros idx; [done|].
  cbn [map tableRows]. by rewrite IH, length_map, !map_map.
Qed.

Lemma buildMonthBlock_lines noColorMode view :
  Lines (buildMonthBlock tbl tableView tableWrapper titleStyle noColorMode view)
  = [if noColorMode then Title view else titleStyle (Title view); []]
    ++ Split (applyColors noColorMode
                (tableText tbl tableView tableWrapper noColorMode view)
                (collectHighlights view)).
Proof. done. Qed.

Lemma buildMonthBlock_Width noColorMode view :
  Width (buildMonthBlock tbl tableView tableWrapper titleStyle noColorMode view)
  = foldr Z.max 0
      (StringWidth tbl
         <$> Lines (buildMonthBlock tbl tableView tableWrapper titleStyle
                      noColorMode view)).
Proof.
  unfold buildMonthBlock. cbn [Width Lines]. rewrite foldl_max_acc by done.
  match goal with |- Z.max 0 (foldr Z.max 0 ?l) = _ =>
    pose proof (foldr_max_nonneg l) end. lia.
Qed.

Lemma buildMonthBlock_Height noColorMode view :
  Height (buildMonthBlock tbl tableView tableWrapper titleStyle noColorMode view)
  = Z.of_nat (length (Lines (buildMonthBlock tbl tableView tableWrapper titleStyle
                               noColorMode view))).
Proof. done. Qed.

(** X6.  The block of a month: its first line is the title, its second line
    is empty, and the lines of the table follow, none with a line break;
    its height is the number of its lines and its width that of its widest
    line. *)
Theorem buildMonthBlock_shape noColorMode view :
  let block := buildMonthBlock tbl tableView tableWrapper titleStyle noColorMode view in
  ∃ table,
    Lines block
    = (if noColorMode then Title view else titleStyle (Title view)) :: [] :: table
    ∧ table ≠ [] ∧ Forall (λ l, NL ∉ l) table
    ∧ Height block = Z.of_nat (length (Lines block)) ∧ 3 ≤ Height block
    ∧ Width block = foldr Z.max 0 (StringWidth tbl <$> Lines block)
    ∧ Forall (λ l, StringWidth tbl l ≤ Width block) (Lines block).
Proof.
  intros block. eexists. split; [apply buildMonthBlock_lines|].
  split; [apply Split_nonempty|]. split; [apply Split_lines|].
  split; [done|]. split.
  { unfold block. rewrite buildMonthBlock_Height, buildMonthBlock_lines.
    rewrite length_app, length_Split. simpl. lia. }
  split; [apply buildMonthBlock_Width|].
  unfold block. rewrite buildMonthBlock_Width. apply Forall_forall. intros l Hl.
  apply foldr_max_upper, list_elem_of_fmap. eauto.
Qed.

Lemma collectHighlights_clearMarks view : collectHighlights (clearMarks view) = ∅.
Proof.
  unfold collectHighlights, clearMarks. cbn [Weeks].
  induction (Weeks view) as [|week weeks IH]; [done|]. cbn [map foldl].
  replace (foldl collectDay ∅ (map unmarked week)) with (∅ : gmap Z highlightInfo);
    [done|].
  clear. induction week as [|d week IH]; [done|]. cbn [map foldl].
  replace (collectDay ∅ (unmarked d)) with (∅ : gmap Z highlightInfo); [done|].
  unfold collectDay, unmarked. cbn [InMonth HolidayInfo IsToday].
  by destruct (InMonth d).
Qed.

Lemma tableText_clearMarks noColorMode view :
  tableText tbl tableView tableWrapper noColorMode (clearMarks view)
  = tableText tbl tableView tableWrapper noColorMode view.
Proof.
  unfold tableText. rewrite determineColumnWidth_clearMarks.
  change (Weeks (clearMarks view)) with (map (map unmarked) (Weeks view)).
  by rewrite length_map, tableRows_clearMarks.
Qed.

Lemma applyColors_empty noColorMode output : applyColors noColorMode output ∅ = output.
Proof.
  unfold applyColors. destruct noColorMode; [done|].
  rewrite map_to_list_empty. cbn. apply Join_Split.
Qed.

(** X7.  The marks of the days and the block: the block of a view and the
    block of the view without its marks have the same width and the same
    height, and the same lines once the control sequences are taken out;
    when the color is off they are the same block. *)
Theorem buildMonthBlock_marks noColorMode view :
  let block := buildMonthBlock tbl tableView tableWrapper titleStyle noColorMode view in
  let plain := buildMonthBlock tbl tableView tableWrapper titleStyle noColorMode
                 (clearMarks view) in
  stripANSI <$> Lines block = stripANSI <$> Lines plain
  ∧ Width block = Width plain
  ∧ Height block = Height plain
  ∧ (noColorMode = true → block = plain).
Proof.
  intros block plain.
  assert (Lines plain
          = [if noColorMode then Title view else titleStyle (Title view); []]
            ++ Split (tableText tbl tableView tableWrapper noColorMode view)) as Hplain.
  { unfold plain. rewrite buildMonthBlock_lines, collectHighlights_clearMarks.
    by rewrite applyColors_empty, tableText_clearMarks. }
  assert (Lines block
          = [if noColorMode then Title view else titleStyle (Title view); []]
            ++ Split (applyColors noColorMode
                        (tableText tbl tableView tableWrapper noColorMode view)
                        (collectHighlights view))) as Hblock
    by apply buildMonthBlock_lines.
  assert (Width block = Width plain) as Hwidth.
  { unfold block, plain. rewrite !buildMonthBlock_Width.
    fold block plain. rewrite Hblock, Hplain, !fmap_app, !foldr_app.
    rewrite !StringWidth_Split. f_equal.
    by rewrite !(StringWidth_stripANSI tbl), applyColors_stripANSI. }
  assert (Height block = Height plain) as Hheight.
  { unfold block, plain. rewrite !buildMonthBlock_Height.
    fold block plain. rewrite Hblock, Hplain, !length_app, !length_Split.
    by rewrite applyColors_breaks. }
  split; [|split; [done|split; [done|]]].
  - rewrite Hblock, Hplain, !fmap_app. f_equal.
    by rewrite <- !Split_stripANSI, applyColors_stripANSI.
  - intros ->.
    assert (Lines block = Lines plain) as Hlines by by rewrite Hblock, Hplain.
    destruct block as [l w h], plain as [l' w' h']. cbn [Lines Width Height] in *.
    by subst.
Qed.

End BlockFacts.

(** ** The rows of the table *)

Section RowFacts.

Import Strings Calendar Render.

Lemma styleDayCell_content day content : styleDayCell day content = content.
Proof. unfold styleDayCell. by destruct content. Qed.

Lemma tableRows_cons n idx week weeks :
  (idx + S (length weeks))%nat = n →
  tableRows n idx (week :: weeks)
  = [renderGregorianCell <$> week; renderLunarCell <$> week]
    ++ (if bool_decide (weeks = []) then [] else [blankRow (length week)])
    ++ tableRows n (S idx) weeks.
Proof.
  intros Hn. cbn [tableRows]. f_equal; [f_equal|f_equal].
  - apply map_ext. intros d. apply styleDayCell_content.
  - f_equal. apply map_ext. intros d. apply styleDayCell_content.
  - destruct weeks as [|w ws]; simpl in *.
    + replace (idx =? n - 1)%nat with true; [done|]. symmetry. apply Nat.eqb_eq. lia.
    + replace (idx =? n - 1)%nat with false; [done|]. symmetry. apply Nat.eqb_neq. lia.
Qed.

Lemma tableRows_lookup n idx weeks (i : nat) week :
  (idx + length weeks)%nat = n → weeks !! i = Some week →
  tableRows n idx weeks !! (3 * i)%nat = Some (renderGregorianCell <$> week)
  ∧ tableRows n idx weeks !! (3 * i + 1)%nat = Some (renderLunarCell <$> week)
  ∧ ((S i < length weeks)%nat →
     tableRows n idx weeks !! (3 * i + 2)%nat = Some (blankRow (length week))).
Proof.
  revert idx i. induction weeks as [|w ws IH]; intros idx i Hn Hi; [done|].
  rewrite tableRows_cons by (simpl in Hn; lia).
  destruct i as [|i]; simpl in Hi.
  - injection Hi as ->. split; [done|]. split; [done|].
    intros Hlt. destruct ws; [simpl in Hlt; lia|]. done.
  - destruct ws as [|w' ws']; [done|].
    rewrite bool_decide_eq_false_2 by done.
    destruct (IH (S idx) i ltac:(simpl in *; lia) Hi) as (H1 & H2 & H3).
    replace (3 * S i)%nat with (S (S (S (3 * i)))) by lia.
    replace (3 * S i + 1)%nat with (S (S (S (3 * i + 1)))) by lia.
    replace (3 * S i + 2)%nat with (S (S (S (3 * i + 2)))) by lia.
    cbn [app lookup list_lookup]. split; [done|]. split; [done|].
    intros Hlt. apply H3. simpl in *. lia.
Qed.

Lemma length_tableRows n idx weeks :
  (idx + length weeks)%nat = n → weeks ≠ [] →
  length (tableRows n idx weeks) = (3 * length weeks - 1)%nat.
Proof.
  revert idx. induction weeks as [|w ws IH]; intros idx Hn Hne; [done|].
  rewrite tableRows_cons by (simpl in Hn; lia).
  destruct ws as [|w' ws']; [done|].
  rewrite bool_decide_eq_false_2 by done.
  rewrite !length_app, IH by (simpl in *; lia || done). simpl. lia.
Qed.

(** X8.  The rows of the table of a month: after a first blank row, the row
    of the numerals and the row of the labels of each week, and a blank
    row between two weeks; three rows for each week in all. *)
Theorem tableRows_spec weeks :
  let rows := blankRow 7 :: tableRows (length weeks) 0 weeks in
  (weeks ≠ [] → length rows = (3 * length weeks)%nat)
  ∧ rows !! 0%nat = Some (replicate 7 [])
  ∧ ∀ (i : nat) week, weeks !! i = Some week →
      rows !! (3 * i + 1)%nat = Some (renderGregorianCell <$> week)
      ∧ rows !! (3 * i + 2)%nat = Some (renderLunarCell <$> week)
      ∧ ((S i < length weeks)%nat →
         rows !! (3 * i + 3)%nat = Some (replicate (length week) [])).
Proof.
  intros rows. split; [|split; [done|]].
  - intros Hne. unfold rows. rewrite length_cons, length_tableRows by done.
    destruct weeks; [done|]. simpl. lia.
  - intros i week Hi.
    destruct (tableRows_lookup (length weeks) 0 weeks i week eq_refl Hi)
      as (H1 & H2 & H3).
    unfold rows.
    replace (3 * i + 1)%nat with (S (3 * i)) by lia.
    replace (3 * i + 2)%nat with (S (3 * i + 1)) by lia.
    replace (3 * i + 3)%nat with (S (3 * i + 2)) by lia.
    done.
Qed.

End RowFacts.

(** ** Months and their days *)

Section MonthFacts.

Import TimeCheck Calendar.

Lemma monthEnd_all : allFrom (Z.to_nat 146097) 0 monthEnd = true.
Proof. by vm_compute. Qed.

Lemma daysFromCivil_period y m d k :
  Time.daysFromCivil (y + 400 * k) m d = Time.daysFromCivil y m d + 146097 * k.
Proof.
  unfold Time.daysFromCivil. cbv zeta.
  set (y' := if m <=? 2 then y - 1 else y).
  replace (if m <=? 2 then y + 400 * k - 1 else y + 400 * k) with (y' + k * 400)
    by (unfold y'; destruct (m <=? 2); lia).
  rewrite Z.div_add by lia.
  replace (y' + k * 400 - (y' / 400 + k) * 400) with (y' - y' / 400 * 400) by lia.
  lia.
Qed.

Lemma civil_period t k :
  Time.civil (t + 146097 * k)
  = ((Time.civil t).1.1 + 400 * k, (Time.civil t).1.2, (Time.civil t).2).
Proof.
  unfold Time.civil. cbv zeta.
  replace (t + 146097 * k + 719468) with (t + 719468 + k * 146097) by lia.
  rewrite Z.div_add by lia.
  replace (t + 719468 + k * 146097 - ((t + 719468) / 146097 + k) * 146097)
    with (t + 719468 - (t + 719468) / 146097 * 146097) by lia.
  set (doe := t + 719468 - (t + 719468) / 146097 * 146097).
  set (yoe := (doe - doe / 1460 + doe / 36524 - doe / 146096) / 365).
  set (doy := doe - (365 * yoe + yoe / 4 - yoe / 100)).
  set (mp := (5 * doy + 2) / 153).
  cbn [fst snd]. f_equal. f_equal. destruct (_ <=? 2); lia.
Qed.

Lemma Date_period y m d k : Time.Date (y + 400 * k) m d = Time.Date y m d + 146097 * k.
Proof.
  unfold Time.Date.
  replace (y + 400 * k + (m - 1) / 12) with (y + (m - 1) / 12 + 400 * k) by lia.
  rewrite daysFromCivil_period. lia.
Qed.

Lemma daysFromCivil_day y m d :
  Time.daysFromCivil y m d = Time.daysFromCivil y m 1 + (d - 1).
Proof. unfold Time.daysFromCivil. cbv zeta. lia. Qed.

Lemma Date_month y m d :
  1 ≤ m ≤ 12 → Time.Date y m d = Time.daysFromCivil y m d.
Proof.
  intros Hm. unfold Time.Date.
  rewrite Z.div_small, Z.mod_small by lia.
  replace (m - 1 + 1) with m by lia. rewrite Z.add_0_r.
  by rewrite (daysFromCivil_day y m d).
Qed.

Lemma Date_next_month y m :
  1 ≤ m ≤ 12 →
  Time.Date y (m + 1) 1
  = if m =? 12 then Time.daysFromCivil (y + 1) 1 1 else Time.daysFromCivil y (m + 1) 1.
Proof.
  intros Hm. destruct (Z.eqb_spec m 12) as [->|Hne].
  - unfold Time.Date. change ((12 + 1 - 1) / 12) with 1.
    change ((12 + 1 - 1) mod 12 + 1) with 1. lia.
  - apply Date_month. lia.
Qed.

(** Every day comes before the first day of the month after its own. *)
Lemma civil_month_end t : t < Time.Date (Time.Year t) (Time.Month t + 1) 1.
Proof.
  set (k := (t + 719468) / 146097).
  set (doe := t + 719468 - k * 146097).
  assert (0 ≤ doe < 146097) as Hdoe.
  { unfold doe, k. pose proof (Z.mod_pos_bound (t + 719468) 146097 eq_refl) as H.
    rewrite Z.mod_eq in H by lia. lia. }
  pose proof (allFrom_spec _ _ _ monthEnd_all doe ltac:(lia)) as H.
  unfold monthEnd in H.
  assert (t = doe - 719468 + 146097 * k) as Ht by (unfold doe; lia).
  pose proof (civil_spec (doe - 719468)) as (Hm & _ & _).
  unfold Time.Year, Time.Month in *. rewrite Ht at 2 3. rewrite civil_period.
  cbn [fst snd].
  destruct (Time.civil (doe - 719468)) as [[y m] d]. cbn [fst snd] in *.
  rewrite Date_period, Date_next_month by done. apply Z.ltb_lt in H. lia.
Qed.

(** The first day of the month of index [n], counted from January of the
    year 0 as month 1. *)
Lemma Date_index y m : Time.Date y m 1 = Time.Date 0 (12 * y + m) 1.
Proof.
  unfold Time.Date.
  replace (12 * y + m - 1) with (m - 1 + y * 12) by lia.
  rewrite Z.div_add, Z_mod_plus_full by lia. f_equal. f_equal. lia.
Qed.

(** A month has 28 to 31 days, in every year. *)
Lemma month_days y m :
  1 ≤ m ≤ 12 → 28 ≤ Time.Date y (m + 1) 1 - Time.Date y m 1 ≤ 31.
Proof.
  intros Hm. rewrite Date_next_month, (Date_month y m) by done.
  assert (m = 1 ∨ m = 2 ∨ m = 3 ∨ m = 4 ∨ m = 5 ∨ m = 6 ∨ m = 7 ∨ m = 8
          ∨ m = 9 ∨ m = 10 ∨ m = 11 ∨ m = 12) as H by lia.
  repeat destruct H as [->|H]; try subst m;
    unfold Time.daysFromCivil; cbv zeta;
    repeat match goal with
      | |- context [?a =? ?b] =>
          let v := eval vm_compute in (a =? b) in change (a =? b) with v
      | |- context [?a <=? ?b] =>
          let v := eval vm_compute in (a <=? b) in change (a <=? b) with v
      | |- context [?a >? ?b] =>
          let v := eval vm_compute in (a >? b) in change (a >? b) with v
      end; cbv iota;
    Z.to_euclidean_division_equations; lia.
Qed.

Lemma month_index_days n : 28 ≤ Time.Date 0 (n + 1) 1 - Time.Date 0 n 1 ≤ 31.
Proof.
  pose proof (month_days ((n - 1) / 12) ((n - 1) mod 12 + 1)) as H.
  rewrite (Date_index _ (_ + 1)), (Date_index _ ((n - 1) mod 12 + 1)) in H.
  replace (12 * ((n - 1) / 12) + ((n - 1) mod 12 + 1 + 1)) with (n + 1) in H
    by (pose proof (Z.div_mod (n - 1) 12 ltac:(lia)); lia).
  replace (12 * ((n - 1) / 12) + ((n - 1) mod 12 + 1)) with n in H
    by (pose proof (Z.div_mod (n - 1) 12 ltac:(lia)); lia).
  apply H. pose proof (Z.mod_pos_bound (n - 1) 12 ltac:(lia)). lia.
Qed.

(** The months begin in the order of their indices. *)
Lemma month_index_mono n k : 0 ≤ k → Time.Date 0 n 1 + 28 * k ≤ Time.Date 0 (n + k) 1.
Proof.
  intros Hk. revert k Hk. apply natlike_ind.
  - replace (n + 0) with n by lia. lia.
  - intros k Hk IH. pose proof (month_index_days (n + k)).
    replace (n + Z.succ k) with (n + k + 1) by lia. lia.
Qed.

Lemma civil_fields t : Time.civil t = (Time.Year t, Time.Month t, Time.Day t).
Proof. unfold Time.Year, Time.Month, Time.Day. by destruct (Time.civil t) as [[? ?] ?]. Qed.

Lemma Date_from_index y m d : Time.Date y m d = Time.Date 0 (12 * y + m) 1 + (d - 1).
Proof. rewrite <- Date_index. unfold Time.Date. lia. Qed.

(** A day between the first days of two months in a row is a day of the
    first of them. *)
Lemma civil_in_month y m t :
  1 ≤ m ≤ 12 → Time.Date y m 1 ≤ t < Time.Date y (m + 1) 1 →
  Time.civil t = (y, m, t - Time.Date y m 1 + 1).
Proof.
  intros Hm Ht.
  pose proof (civil_spec t) as (Hm' & Hd' & Hback).
  pose proof (civil_month_end t) as Hend'.
  rewrite civil_fields.
  revert Hm' Hd' Hback Hend'.
  generalize (Time.Year t), (Time.Month t), (Time.Day t). intros y' m' d' Hm' Hd' Hback Hend'.
  rewrite <- (Date_month y' m' d'), Date_from_index in Hback by done.
  rewrite Date_index in Hend'. rewrite (Date_index y m), (Date_index y (m + 1)) in Ht.
  rewrite (Date_index y m).
  assert (12 * y' + m' = 12 * y + m) as Heq.
  { destruct (Z.lt_trichotomy (12 * y' + m') (12 * y + m)) as [Hlt|[Heq|Hgt]]; [|done|].
    - pose proof (month_index_mono (12 * y' + (m' + 1)) (12 * y + m - (12 * y' + m' + 1))
                    ltac:(lia)) as H.
      replace (12 * y' + (m' + 1) + (12 * y + m - (12 * y' + m' + 1)))
        with (12 * y + m) in H by lia. lia.
    - pose proof (month_index_mono (12 * y + (m + 1)) (12 * y' + m' - (12 * y + m + 1))
                    ltac:(lia)) as H.
      replace (12 * y + (m + 1) + (12 * y' + m' - (12 * y + m + 1)))
        with (12 * y' + m') in H by lia. lia. }
  rewrite Heq in Hback.
  assert (y' = y) as -> by lia. assert (m' = m) as -> by lia.
  f_equal. lia.
Qed.

(** The civil date of a day of a month is that day of that month. *)
Lemma civil_Date y m d :
  1 ≤ m ≤ 12 → 1 ≤ d → Time.Date y m d < Time.Date y (m + 1) 1 →
  Time.civil (Time.Date y m d) = (y, m, d).
Proof.
  intros Hm Hd Hend.
  assert (Time.Date y m d = Time.Date y m 1 + (d - 1)) as Hlin
    by (unfold Time.Date; lia).
  rewrite (civil_in_month y m) by (done || lia). f_equal. lia.
Qed.

End MonthFacts.

(** ** The weeks of a view *)

Section WeekFacts.

Import TimeCheck Calendar.

Variable BySolar : Z → Z → Z → Lunar.

Lemma civil_first y m : 1 ≤ m ≤ 12 → Time.civil (Time.Date y m 1) = (y, m, 1).
Proof.
  intros Hm. pose proof (month_days y m Hm).
  rewrite (civil_in_month y m) by (done || lia). f_equal. lia.
Qed.

Lemma AddDate_month y m :
  1 ≤ m ≤ 12 → Time.AddDate (Time.Date y m 1) 0 1 0 = Time.Date y (m + 1) 1.
Proof.
  intros Hm. unfold Time.AddDate. rewrite civil_first by done.
  by rewrite !Z.add_0_r.
Qed.

(** A day of the month [m] less than 300 days from the month [m] of the
    year [y] is a day of that month. *)
Lemma month_of_year y m t :
  1 ≤ m ≤ 12 → Time.Month t = m →
  Time.Date y m 1 - 300 < t < Time.Date y (m + 1) 1 + 300 →
  Time.Date y m 1 ≤ t < Time.Date y (m + 1) 1.
Proof.
  intros Hm Hmt Ht.
  pose proof (civil_spec t) as (_ & Hd & Hback).
  pose proof (civil_month_end t) as Hend. rewrite Hmt in *.
  revert Hd Hback Hend. generalize (Time.Year t), (Time.Day t).
  intros y' d' Hd Hback Hend.
  rewrite <- (Date_month y' m d'), Date_from_index in Hback by done.
  rewrite Date_index in Hend. rewrite (Date_index y m), (Date_index y (m + 1)) in *.
  destruct (Z.lt_trichotomy y' y) as [Hlt|[->|Hgt]]; [|lia|].
  - pose proof (month_index_mono (12 * y' + (m + 1)) (12 * (y - y') - 1) ltac:(lia)) as H.
    replace (12 * y' + (m + 1) + (12 * (y - y') - 1)) with (12 * y + m) in H by lia.
    lia.
  - pose proof (month_index_mono (12 * y + (m + 1)) (12 * (y' - y) - 1) ltac:(lia)) as H.
    replace (12 * y + (m + 1) + (12 * (y' - y) - 1)) with (12 * y' + m) in H by lia.
    lia.
Qed.

Lemma Weekday_start_sub t : Time.Weekday (t + - Time.Weekday t) = 0.
Proof. rewrite <- AddDate_days. apply Weekday_start. Qed.

(** *** The weeks of a view *)

Lemma daysFrom_cons s m now cursor n :
  0 < n →
  daysFrom BySolar s m now cursor n
  = buildDay BySolar s cursor m now :: daysFrom BySolar s m now (cursor + 1) (n - 1).
Proof.
  intros Hn. unfold daysFrom. by rewrite seqZ_cons by done.
Qed.

Lemma fillWeek_days s n cursor m now :
  fillWeek BySolar s n cursor m now
  = (daysFrom BySolar s m now cursor (Z.of_nat n), cursor + Z.of_nat n).
Proof.
  revert cursor. induction n as [|n IH]; intros cursor.
  - cbn [fillWeek]. unfold daysFrom. rewrite seqZ_nil by done.
    by rewrite Z.add_0_r.
  - cbn [fillWeek]. rewrite IH, AddDate_days.
    rewrite (daysFrom_cons _ _ _ cursor (Z.of_nat (S n))) by lia.
    f_equal; [|lia]. do 2 f_equal. lia.
Qed.

Lemma weeksFrom_cons s m now cursor k :
  0 < k →
  weeksFrom BySolar s m now cursor k
  = daysFrom BySolar s m now cursor 7 :: weeksFrom BySolar s m now (cursor + 7) (k - 1).
Proof.
  intros Hk. unfold weeksFrom. rewrite seqZ_cons by done. rewrite fmap_cons.
  f_equal; [f_equal; lia|].
  change (Z.succ 0) with (1 + 0). rewrite <- fmap_add_seqZ.
  rewrite <- list_fmap_compose. replace (Z.pred k) with (k - 1) by lia.
  apply list_fmap_ext. intros _ i _. simpl. f_equal. lia.
Qed.

(** The loop over the weeks, from a Sunday [k] full weeks and a part
    before the end: it stops after the week that reaches the end. *)
Lemma weeksLoop_weeks s end_ m now k cursor weeks fuel :
  Time.Weekday cursor = 0 →
  cursor + 7 * Z.of_nat k < end_ ≤ cursor + 7 * (Z.of_nat k + 1) →
  (k < fuel)%nat →
  weeksLoop BySolar fuel s cursor end_ m now weeks
  = Some (weeks ++ weeksFrom BySolar s m now cursor (Z.of_nat k + 1)).
Proof.
  revert cursor weeks fuel. induction k as [|k IH]; intros cursor weeks fuel Hsun Hend Hf.
  - destruct fuel as [|fuel]; [lia|]. cbn [weeksLoop].
    rewrite fillWeek_days. change (Z.of_nat 7) with 7.
    rewrite (Weekday_next_week _ Hsun). unfold Time.Equal, Time.After.
    rewrite (weeksFrom_cons _ _ _ _ (Z.of_nat 0 + 1)) by lia.
    replace (Z.of_nat 0 + 1 - 1) with 0 by lia.
    unfold weeksFrom at 1. rewrite seqZ_nil by done.
    destruct (Z.eqb_spec (cursor + 7) end_), (Z.gtb_spec (cursor + 7) end_);
      simpl; try done; lia.
  - destruct fuel as [|fuel]; [lia|]. cbn [weeksLoop].
    rewrite fillWeek_days. change (Z.of_nat 7) with 7.
    unfold Time.Equal, Time.After. rewrite AddDate_days.
    destruct (Z.eqb_spec (cursor + 7) end_); [lia|].
    destruct (Z.gtb_spec (cursor + 7) end_); [lia|].
    destruct (Z.gtb_spec (cursor + 7) (end_ + 7)); [lia|].
    cbn [orb andb]. rewrite andb_false_r.
    rewrite IH; [|by apply Weekday_next_week | lia | lia].
    rewrite <- app_assoc. do 2 f_equal.
    rewrite (weeksFrom_cons _ _ _ cursor (Z.of_nat (S k) + 1)) by lia.
    simpl. do 2 f_equal. lia.
Qed.

Lemma concat_weeksFrom s m now cursor k :
  0 ≤ k → concat (weeksFrom BySolar s m now cursor k)
          = daysFrom BySolar s m now cursor (7 * k).
Proof.
  intros Hk. revert k Hk cursor. apply (natlike_ind (λ k, ∀ cursor, _ = _)).
  - intros cursor. unfold weeksFrom, daysFrom. by rewrite !seqZ_nil by done.
  - intros k Hk IH cursor.
    rewrite weeksFrom_cons by lia. replace (Z.succ k - 1) with k by lia.
    cbn [concat]. rewrite IH. unfold daysFrom.
    rewrite <- fmap_app. f_equal.
    replace (7 * Z.succ k) with (7 + 7 * k) by lia.
    by rewrite seqZ_app by lia.
Qed.

Lemma length_weeksFrom s m now cursor k :
  0 ≤ k → Z.of_nat (length (weeksFrom BySolar s m now cursor k)) = k.
Proof. intros Hk. unfold weeksFrom. rewrite length_fmap, length_seqZ. lia. Qed.

Lemma weeksFrom_seven s m now cursor k :
  Forall (λ week, length week = 7%nat) (weeksFrom BySolar s m now cursor k).
Proof.
  unfold weeksFrom. apply Forall_fmap, Forall_forall. intros i _.
  unfold compose, daysFrom. by rewrite length_fmap, length_seqZ.
Qed.

(** The view that [Month] gives: the weeks from the Sunday on or before
    the first of the month up to the week that holds its last day. *)
Lemma Service_Month_view s fuel year month view :
  Service_Month BySolar fuel s year month = Some (view, None) →
  (1900 ≤ year ≤ 3000 ∧ 1 ≤ month ≤ 12)
  ∧ ∃ k, 0 ≤ k
    ∧ Time.Date year month 1 - Time.Weekday (Time.Date year month 1) + 7 * k
      < Time.Date year (month + 1) 1
      ≤ Time.Date year month 1 - Time.Weekday (Time.Date year month 1) + 7 * (k + 1)
    ∧ view = {| Year := year; Month := month;
                Title := Fmt.d year ++ [32; 24180; 32] ++ Fmt.d month ++ [32; 26376];
                Weeks := weeksFrom BySolar s month (now s)
                           (Time.Date year month 1
                            - Time.Weekday (Time.Date year month 1)) (k + 1) |}.
Proof.
  unfold Service_Month, MinSupportedYear, MaxSupportedYear.
  destruct (Z.ltb_spec year 1900), (Z.gtb_spec year 3000); try done.
  destruct (Z.ltb_spec month 1), (Z.gtb_spec month 12); try done.
  cbn [orb]. cbv zeta.
  assert (1 ≤ month ≤ 12) as Hm by lia.
  rewrite AddDate_days, AddDate_month by done.
  unfold Time.Month at 1 2. rewrite civil_first by done. cbn [fst snd].
  pose proof (month_days year month Hm) as Hlen.
  pose proof (Weekday_range (Time.Date year month 1)) as Hwd.
  set (first := Time.Date year month 1) in *.
  set (next := Time.Date year (month + 1) 1) in *.
  set (start := first + - Time.Weekday first).
  set (k := (next - start - 1) / 7).
  assert (0 ≤ k ∧ start + 7 * k < next ≤ start + 7 * (k + 1)) as [Hk Hbounds].
  { unfold k, start. pose proof (Z.div_mod (next - (first + - Time.Weekday first) - 1) 7
                                   ltac:(lia)).
    pose proof (Z.mod_pos_bound (next - (first + - Time.Weekday first) - 1) 7 ltac:(lia)).
    split; [apply Z.div_pos; lia | lia]. }
  destruct (weeksLoop BySolar fuel s start next month (now s) []) as [weeks|] eqn:E;
    [|done].
  intros [= <-]. split; [lia|]. exists k. split; [done|].
  replace (first - Time.Weekday first) with start by (unfold start; lia).
  split; [done|]. f_equal.
  assert (k < 6) as Hk6.
  { unfold k. apply Z.div_lt_upper_bound; [lia|]. unfold start. lia. }
  apply (weeksLoop_more_fuel _ _ _ (max fuel 6)) in E; [|lia].
  rewrite (weeksLoop_weeks s next month (now s) (Z.to_nat k) start []) in E;
    [|unfold start; by rewrite Weekday_start_sub | lia | lia].
  rewrite Z2Nat.id in E by done. by injection E as <-.
Qed.

End WeekFacts.

(** ** The days of a view *)

Section DayFacts.

Import TimeCheck Calendar.

Variable BySolar : Z → Z → Z → Lunar.







Lemma elem_of_daysFrom s m now cursor n d :
  d ∈ daysFrom BySolar s m now cursor n
  ↔ ∃ t, cursor ≤ t < cursor + n ∧ d = buildDay BySolar s t m now.
Proof.
  unfold daysFrom. rewrite list_elem_of_fmap. split.
  - intros (t & -> & Ht%elem_of_seqZ). eauto.
  - intros (t & Ht & ->). exists t. by rewrite elem_of_seqZ.
Qed.

(** The days of a view, in one list. *)
Lemma Service_Month_concat s fuel year month view :
  Service_Month BySolar fuel s year month = Some (view, None) →
  (1900 ≤ year ≤ 3000 ∧ 1 ≤ month ≤ 12)
  ∧ ∃ weeks, 1 ≤ weeks
    ∧ Z.of_nat (length (Weeks view)) = weeks
    ∧ Time.Date year month 1 - Time.Weekday (Time.Date year month 1) + 7 * (weeks - 1)
      < Time.Date year (month + 1) 1
      ≤ Time.Date year month 1 - Time.Weekday (Time.Date year month 1) + 7 * weeks
    ∧ Forall (λ week, length week = 7%nat) (Weeks view)
    ∧ concat (Weeks view)
      = daysFrom BySolar s month (now s)
          (Time.Date year month 1 - Time.Weekday (Time.Date year month 1))
          (7 * weeks)
    ∧ Year view = year ∧ Month view = month
    ∧ Title view = Fmt.d year ++ [32; 24180; 32] ++ Fmt.d month ++ [32; 26376].
Proof.
  intros (Hr & k & Hk & Hb & ->)%Service_Month_view. split; [done|].
  exists (k + 1). cbn [Weeks Year Month Title].
  rewrite length_weeksFrom by lia. split; [lia|]. split; [done|].
  replace (k + 1 - 1) with k by lia. split; [done|].
  split; [apply weeksFrom_seven|]. split; [|done].
  apply concat_weeksFrom. lia.
Qed.

End DayFacts.

(** ** The view of a month *)

Section MonthViewFacts.

Import TimeCheck Calendar.

Variable BySolar : Z → Z → Z → Lunar.



End MonthViewFacts.

(** ** Today, errors and the view of a year *)

Section YearViewFacts.

Import TimeCheck Calendar.

Variable BySolar : Z → Z → Z → Lunar.


(** X12.  What comes with an error of [Month]: the empty view; the year is
    checked before the month. *)
Theorem Service_Month_error s fuel year month view err :
  Service_Month BySolar fuel s year month = Some (view, Some err) →
  view = emptyView
  ∧ (err = ErrYearOutOfRange ↔ year < MinSupportedYear ∨ MaxSupportedYear < year)
  ∧ (err = ErrInvalidMonth
     ↔ MinSupportedYear ≤ year ≤ MaxSupportedYear ∧ (month < 1 ∨ 12 < month)).
Proof.
  unfold Service_Month, MinSupportedYear, MaxSupportedYear.
  destruct (Z.ltb_spec year 1900), (Z.gtb_spec year 3000); cbn [orb];
    try (intros [= <- <-]; split; [done|]; split; split; (done || lia)).
  destruct (Z.ltb_spec month 1), (Z.gtb_spec month 12); cbn [orb];
    try (intros [= <- <-]; split; [done|]; split; split; (done || lia)).
  cbv zeta. by destruct (weeksLoop _ _ _ _ _ _ _ _).
Qed.

(** The loop of [Year] gives the views of the months in turn. *)
Lemma yearLoop_months s year n m months :
  1900 ≤ year ≤ 3000 → 1 ≤ m → m + Z.of_nat n ≤ 13 →
  ∃ new,
    length new = n
    ∧ (∀ fuel, (6 ≤ fuel)%nat →
         yearLoop BySolar n fuel s year m months = Some (months ++ new, None))
    ∧ ∀ (i : nat) view, new !! i = Some view →
        ∀ fuel, (6 ≤ fuel)%nat →
          Service_Month BySolar fuel s year (m + Z.of_nat i) = Some (view, None).
Proof.
  intros Hy. revert m months. induction n as [|n IH]; intros m months Hm Hn.
  - exists []. split; [done|]. split; [|done].
    intros fuel _. cbn [yearLoop]. by rewrite app_nil_r.
  - destruct (Service_Month_weeks BySolar s year m Hy ltac:(lia))
      as (ws & _ & _ & _ & Hloop).
    destruct (IH (m + 1) (months ++ [ {| Year := year;
                Month := Time.Month (Time.Date year m 1);
                Title := Fmt.d year ++ [32; 24180; 32] ++ Fmt.d m ++ [32; 26376];
                Weeks := ws |} ]) ltac:(lia) ltac:(lia)) as (new & Hlen & Hrun & Hnew).
    eexists (_ :: new). split; [by rewrite length_cons, Hlen|]. split.
    + intros fuel Hf. cbn [yearLoop]. rewrite Hloop by done.
      rewrite Hrun by done. by rewrite <- app_assoc.
    + intros [|i] view; simpl.
      * intros [= <-] fuel Hf. rewrite Z.add_0_r. by apply Hloop.
      * intros Hi fuel Hf.
        replace (m + Z.of_nat (S i)) with (m + 1 + Z.of_nat i) by lia.
        by apply Hnew.
Qed.

Lemma Service_Year_months s year :
  1900 ≤ year ≤ 3000 →
  ∃ months,
    (∀ fuel, (6 ≤ fuel)%nat → Service_Year BySolar fuel s year = Some (months, None))
    ∧ length months = 12%nat
    ∧ ∀ (i : nat) view, months !! i = Some view →
        ∀ fuel, (6 ≤ fuel)%nat →
          Service_Month BySolar fuel s year (Z.of_nat i + 1) = Some (view, None).
Proof.
  intros Hy.
  destruct (yearLoop_months s year 12 1 [] Hy ltac:(lia) ltac:(lia))
    as (months & Hlen & Hrun & Hmonths).
  exists months. split; [|split; [done|]].
  - intros fuel Hf. unfold Service_Year, MinSupportedYear, MaxSupportedYear.
    destruct (Z.ltb_spec year 1900), (Z.gtb_spec year 3000); try lia.
    cbn [orb]. by rewrite Hrun.
  - intros i view Hi fuel Hf. rewrite Z.add_comm. by apply Hmonths.
Qed.

Lemma Service_Year_out s fuel year :
  year < 1900 ∨ 3000 < year →
  Service_Year BySolar fuel s year = Some ([], Some ErrYearOutOfRange).
Proof.
  intros Hy. unfold Service_Year, MinSupportedYear, MaxSupportedYear.
  destruct (Z.ltb_spec year 1900), (Z.gtb_spec year 3000); simpl; try done. lia.
Qed.

(** X13.  [Year]: the error of the unsupported year, or the views of the twelve
    months, those that [Month] gives, from January to December. *)
Theorem Service_Year_spec s year :
  (year < MinSupportedYear ∨ MaxSupportedYear < year →
   ∀ fuel, Service_Year BySolar fuel s year = Some ([], Some ErrYearOutOfRange))
  ∧ (MinSupportedYear ≤ year ≤ MaxSupportedYear →
     ∃ months,
       (∀ fuel, (6 ≤ fuel)%nat → Service_Year BySolar fuel s year = Some (months, None))
       ∧ length months = 12%nat
       ∧ ∀ (i : nat) view, months !! i = Some view →
           ∀ fuel, (6 ≤ fuel)%nat →
             Service_Month BySolar fuel s year (Z.of_nat i + 1) = Some (view, None)).
Proof.
  unfold MinSupportedYear, MaxSupportedYear. split.
  - intros Hy fuel. by apply Service_Year_out.
  - apply Service_Year_months.
Qed.

End YearViewFacts.

(** ** The lunar data of a view *)

Section LunarFacts.

Import TimeCheck Calendar.

Variable BySolar : Z → Z → Z → Lunar.

(** X14.  The lunar data of the days of a view: a day has them exactly when
    its year is supported, and every day of the month requested has them;
    its aliases are then those of the upstream calendar for its date and
    its holiday data those that the lookup finds for its date.  A day
    without lunar data has an empty label and no holiday data. *)
Theorem Service_Month_lunar s fuel year month view d :
  Service_Month BySolar fuel s year month = Some (view, None) →
  d ∈ concat (Weeks view) →
  let t := Date d in
  let cal := BySolar (Time.Year t) (Time.Month t) (Time.Day t) in
  (hasLunarData d = true ↔ MinSupportedYear ≤ Time.Year t ≤ MaxSupportedYear)
  ∧ (InMonth d = true → hasLunarData d = true)
  ∧ (hasLunarData d = true →
     LunarDayAlias d = DayAlias cal ∧ LunarMonthAlias d = MonthAlias cal
     ∧ SolarTerm d = default [] (SolartermInDay cal)
     ∧ HolidayInfo d
       = Holidays.GetHolidayForDate (holidayData s)
           (Time.Year t) (Time.Month t) (Time.Day t))
  ∧ (hasLunarData d = false → SecondaryLabel d = [] ∧ HolidayInfo d = None).
Proof.
  intros (Hr & weeks & Hw & Hlen & Hend & Hseven & Hdays & _)%Service_Month_concat.
  destruct Hr as [Hy Hm]. rewrite Hdays.
  intros (t & Ht & ->)%elem_of_daysFrom. rewrite buildDay_Date. cbv zeta.
  pose proof (month_days year month Hm) as Hdays31.
  pose proof (Weekday_range (Time.Date year month 1)) as Hwd.
  assert (InMonth (buildDay BySolar s t month (now s)) = true →
          MinSupportedYear ≤ Time.Year t ≤ MaxSupportedYear) as Hin.
  { rewrite buildDay_InMonth, Z.eqb_eq. intros Hmt.
    pose proof (month_of_year year month t Hm Hmt ltac:(lia)) as Hint.
    pose proof (civil_in_month year month t Hm Hint) as Hc.
    rewrite civil_fields in Hc. injection Hc as -> _ _.
    unfold MinSupportedYear, MaxSupportedYear. lia. }
  revert Hin. unfold buildDay, MinSupportedYear, MaxSupportedYear.
  destruct (Z.ltb_spec (Time.Year t) 1900), (Z.gtb_spec (Time.Year t) 3000);
    cbn [orb hasLunarData InMonth LunarDayAlias LunarMonthAlias SolarTerm HolidayInfo];
    intros Hin.
  1-3: split; [split; [done | lia]|]; split; [intros H'%Hin; lia|];
       split; [done|]; by intros _.
  split; [split; [lia | done]|]. split; [done|]. split; [|done].
  intros _. split; [done|]. split; [done|]. split; [done|].
  by destruct (holidayData s).
Qed.

End LunarFacts.

(** ** Requests *)

Section RequestFacts.

Import Textwidth Calendar.

Lemma wrap64_id z : isInt z → wrap64 z = z.
Proof.
  unfold isInt, wrap64. intros H. rewrite Z.mod_small; lia.
Qed.

Lemma wrap64_isInt z : isInt (wrap64 z).
Proof.
  unfold isInt, wrap64. pose proof (Z.mod_pos_bound (z + 2 ^ 63) (2 ^ 64) eq_refl). lia.
Qed.

Lemma wrap64_add a b : wrap64 (wrap64 a + b) = wrap64 (a + b).
Proof.
  unfold wrap64. f_equal.
  replace (((a + 2 ^ 63) mod 2 ^ 64 - 2 ^ 63) + b + 2 ^ 63)
    with ((a + 2 ^ 63) mod 2 ^ 64 + b) by lia.
  rewrite Zplus_mod_idemp_l. f_equal. lia.
Qed.

(** The first loop of [Normalize] takes twelve months off and adds a year,
    [k] times, when it is after that many times that the month is at most
    12. *)
Lemma rollForward_spec k fuel r :
  Request.Month r ≤ 12 * (Z.of_nat k + 1) →
  k = 0%nat ∨ 12 * Z.of_nat k < Request.Month r →
  (k ≤ fuel)%nat → isInt (Request.Year r) →
  Request.rollForward fuel r
  = Some {| Request.Year := wrap64 (Request.Year r + Z.of_nat k);
            Request.Month := Request.Month r - 12 * Z.of_nat k;
            Request.Mode := Request.Mode r |}.
Proof.
  revert fuel r. induction k as [|k IH]; intros fuel r Hhi Hlo Hf Hy.
  - destruct r as [y m mode]. cbn [Request.Year Request.Month Request.Mode] in *.
    rewrite Z.add_0_r, wrap64_id by done.
    replace (m - 12 * Z.of_nat 0) with m by lia.
    destruct fuel; cbn [Request.rollForward Request.Month];
      by destruct (Z.gtb_spec m 12); [lia|].
  - destruct r as [y m mode]. cbn [Request.Year Request.Month Request.Mode] in *.
    destruct fuel as [|fuel]; [lia|].
    cbn [Request.rollForward Request.Month Request.Year Request.Mode].
    destruct (Z.gtb_spec m 12); [|lia].
    rewrite IH; cbn [Request.Year Request.Month Request.Mode];
      [|lia|lia|lia|apply wrap64_isInt].
    rewrite wrap64_add. do 2 f_equal; [f_equal|]; lia.
Qed.

(** The second loop adds twelve months and takes a year off, [k] times. *)
Lemma rollBack_spec k fuel r :
  1 ≤ Request.Month r + 12 * Z.of_nat k →
  k = 0%nat ∨ Request.Month r + 12 * Z.of_nat k ≤ 12 →
  (k ≤ fuel)%nat → isInt (Request.Year r) →
  Request.rollBack fuel r
  = Some {| Request.Year := wrap64 (Request.Year r - Z.of_nat k);
            Request.Month := Request.Month r + 12 * Z.of_nat k;
            Request.Mode := Request.Mode r |}.
Proof.
  revert fuel r. induction k as [|k IH]; intros fuel r Hhi Hlo Hf Hy.
  - destruct r as [y m mode]. cbn [Request.Year Request.Month Request.Mode] in *.
    rewrite Z.sub_0_r, wrap64_id by done.
    replace (m + 12 * Z.of_nat 0) with m by lia.
    destruct fuel; cbn [Request.rollBack Request.Month];
      by destruct (Z.ltb_spec m 1); [lia|].
  - destruct r as [y m mode]. cbn [Request.Year Request.Month Request.Mode] in *.
    destruct fuel as [|fuel]; [lia|].
    cbn [Request.rollBack Request.Month Request.Year Request.Mode].
    destruct (Z.ltb_spec m 1); [|lia].
    rewrite IH; cbn [Request.Year Request.Month Request.Mode];
      [|lia|lia|lia|apply wrap64_isInt].
    replace (wrap64 (y - 1) - Z.of_nat k) with (wrap64 (y - 1) + - Z.of_nat k) by lia.
    rewrite wrap64_add. do 2 f_equal; [f_equal|]; lia.
Qed.

(** [Normalize], in closed form. *)
Lemma Normalize_closed fuel r :
  isInt (Request.Year r) → Z.abs ((Request.Month r - 1) / 12) ≤ Z.of_nat fuel →
  Request.Normalize fuel r
  = Some {| Request.Year := wrap64 (Request.Year r + (Request.Month r - 1) / 12);
            Request.Month := (Request.Month r - 1) mod 12 + 1;
            Request.Mode := Request.Mode r |}.
Proof.
  intros Hy Hf. unfold Request.Normalize.
  pose proof (Z.div_mod (Request.Month r - 1) 12 ltac:(lia)) as Hdm.
  pose proof (Z.mod_pos_bound (Request.Month r - 1) 12 ltac:(lia)) as Hmod.
  set (q := (Request.Month r - 1) / 12) in *.
  set (m := (Request.Month r - 1) mod 12) in *.
  destruct (Z.le_gt_cases 0 q) as [Hq|Hq].
  - rewrite (rollForward_spec (Z.to_nat q)); [|lia|lia|lia|done].
    cbn [mbind option_bind].
    rewrite (rollBack_spec 0); cbn [Request.Year Request.Month Request.Mode];
      [|lia|by left|lia|apply wrap64_isInt].
    rewrite Z2Nat.id by done. change (Z.of_nat 0) with 0.
    rewrite Z.sub_0_r, wrap64_id by apply wrap64_isInt.
    do 2 f_equal. lia.
  - rewrite (rollForward_spec 0); [|lia|by left|lia|done].
    cbn [mbind option_bind].
    rewrite (rollBack_spec (Z.to_nat (- q)));
      cbn [Request.Year Request.Month Request.Mode];
      [|lia|lia|lia|apply wrap64_isInt].
    rewrite Z2Nat.id by lia. change (Z.of_nat 0) with 0.
    rewrite Z.add_0_r, (wrap64_id (Request.Year r)) by done.
    do 2 f_equal; [f_equal|]; lia.
Qed.

(** X15.  [Normalize]: the month comes into 1..12 and the year takes what is carried (a
    month 13 is January of the next year, a month 0 December of the year
    before); the result is left as it is by [Normalize]. *)
Theorem Normalize_spec fuel r :
  isInt (Request.Year r) → Z.abs ((Request.Month r - 1) / 12) ≤ Z.of_nat fuel →
  ∃ r',
    Request.Normalize fuel r = Some r'
    ∧ Request.Year r' = wrap64 (Request.Year r + (Request.Month r - 1) / 12)
    ∧ Request.Month r' = (Request.Month r - 1) mod 12 + 1
    ∧ 1 ≤ Request.Month r' ≤ 12
    ∧ Request.Mode r' = Request.Mode r
    ∧ (isInt (Request.Year r + (Request.Month r - 1) / 12) →
       12 * Request.Year r' + Request.Month r' = 12 * Request.Year r + Request.Month r)
    ∧ ∀ fuel', Request.Normalize fuel' r' = Some r'.
Proof.
  intros Hy Hf. eexists. split; [by apply Normalize_closed|].
  cbn [Request.Year Request.Month Request.Mode].
  pose proof (Z.div_mod (Request.Month r - 1) 12 ltac:(lia)) as Hdm.
  pose proof (Z.mod_pos_bound (Request.Month r - 1) 12 ltac:(lia)) as Hmod.
  split; [done|]. split; [done|]. split; [lia|]. split; [done|]. split.
  - intros Hno. rewrite wrap64_id by done. lia.
  - intros fuel'. rewrite Normalize_closed;
      cbn [Request.Year Request.Month Request.Mode].
    + replace ((Request.Month r - 1) mod 12 + 1 - 1) with ((Request.Month r - 1) mod 12)
        by lia.
      rewrite Z.mod_mod by lia. rewrite (Z.div_small (_ mod 12)) by lia.
      by rewrite Z.add_0_r, wrap64_id by apply wrap64_isInt.
    + apply wrap64_isInt.
    + rewrite Z.div_small by lia. lia.
Qed.

(** X16.  The moves between months and years undo each other, on a request with
    its month in 1..12; after December comes January of the next year. *)
Theorem Request_moves fuel r :
  (1 ≤ fuel)%nat → isInt (Request.Year r) → 1 ≤ Request.Month r ≤ 12 →
  Request.NextMonth fuel r
  = Some (if Request.Month r =? 12
          then {| Request.Year := wrap64 (Request.Year r + 1); Request.Month := 1;
                  Request.Mode := Request.Mode r |}
          else {| Request.Year := Request.Year r; Request.Month := Request.Month r + 1;
                  Request.Mode := Request.Mode r |})
  ∧ Request.PreviousMonth fuel r
    = Some (if Request.Month r =? 1
            then {| Request.Year := wrap64 (Request.Year r - 1); Request.Month := 12;
                    Request.Mode := Request.Mode r |}
            else {| Request.Year := Request.Year r; Request.Month := Request.Month r - 1;
                    Request.Mode := Request.Mode r |})
  ∧ (Request.NextMonth fuel r ≫= Request.PreviousMonth fuel) = Some r
  ∧ (Request.PreviousMonth fuel r ≫= Request.NextMonth fuel) = Some r
  ∧ Request.PreviousYear (Request.NextYear r) = r
  ∧ Request.NextYear (Request.PreviousYear r) = r.
Proof.
  intros Hf Hy Hm. destruct r as [y m mode].
  cbn [Request.Year Request.Month Request.Mode] in *.
  assert (∀ y' m', isInt y' → 0 ≤ m' ≤ 13 →
            Request.Normalize fuel {| Request.Year := y'; Request.Month := m';
                                      Request.Mode := mode |}
            = Some (if m' =? 13 then {| Request.Year := wrap64 (y' + 1);
                                        Request.Month := 1; Request.Mode := mode |}
                    else if m' =? 0 then {| Request.Year := wrap64 (y' - 1);
                                            Request.Month := 12; Request.Mode := mode |}
                    else {| Request.Year := y'; Request.Month := m';
                            Request.Mode := mode |})) as Hnorm.
  { intros y' m' Hy' Hm'. rewrite Normalize_closed;
      cbn [Request.Year Request.Month Request.Mode]; [|done|].
    - destruct (Z.eqb_spec m' 13) as [->|]; [done|].
      destruct (Z.eqb_spec m' 0) as [->|]; [done|].
      rewrite Z.div_small, Z.mod_small by lia.
      rewrite Z.add_0_r, wrap64_id by done. do 2 f_equal. lia.
    - destruct (Z.eq_dec m' 13) as [->|]; [change ((13 - 1) / 12) with 1; lia|].
      destruct (Z.eq_dec m' 0) as [->|]; [change ((0 - 1) / 12) with (-1); lia|].
      rewrite Z.div_small by lia. lia. }
  assert (isInt (m + 1) ∧ isInt (m - 1)) as [Hm1 Hm2] by (unfold isInt; lia).
  unfold Request.NextMonth, Request.PreviousMonth, Request.NextYear,
    Request.PreviousYear.
  cbn [Request.Year Request.Month Request.Mode].
  rewrite !(wrap64_id (m + 1)), !(wrap64_id (m - 1)), !Hnorm by (done || lia).
  replace (m + 1 =? 13) with (m =? 12) by (destruct (Z.eqb_spec m 12), (Z.eqb_spec (m + 1) 13); lia).
  replace (m - 1 =? 0) with (m =? 1) by (destruct (Z.eqb_spec m 1), (Z.eqb_spec (m - 1) 0); lia).
  replace (m + 1 =? 0) with false by (symmetry; apply Z.eqb_neq; lia).
  replace (m - 1 =? 13) with false by (symmetry; apply Z.eqb_neq; lia).
  assert (wrap64 (wrap64 (y + 1) - 1) = y) as Hup.
  { replace (wrap64 (y + 1) - 1) with (wrap64 (y + 1) + -1) by lia.
    rewrite wrap64_add. replace (y + 1 + -1) with y by lia. by apply wrap64_id. }
  assert (wrap64 (wrap64 (y - 1) + 1) = y) as Hdown.
  { rewrite wrap64_add. replace (y - 1 + 1) with y by lia. by apply wrap64_id. }
  split; [done|]. split; [done|]. split; [|split; [|split]].
  - destruct (Z.eqb_spec m 12) as [->|];
      cbn [mbind option_bind Request.Year Request.Month Request.Mode].
    + rewrite (wrap64_id (1 - 1)) by (unfold isInt; lia).
      rewrite Hnorm by (apply wrap64_isInt || lia). simpl. by rewrite Hup.
    + rewrite (wrap64_id (m + 1 - 1)) by (unfold isInt; lia).
      rewrite Hnorm by (done || lia).
      replace (m + 1 - 1) with m by lia.
      destruct (Z.eqb_spec m 13); [lia|]. destruct (Z.eqb_spec m 0); [lia|]. done.
  - destruct (Z.eqb_spec m 1) as [->|];
      cbn [mbind option_bind Request.Year Request.Month Request.Mode].
    + rewrite (wrap64_id (12 + 1)) by (unfold isInt; lia).
      rewrite Hnorm by (apply wrap64_isInt || lia). simpl. by rewrite Hdown.
    + rewrite (wrap64_id (m - 1 + 1)) by (unfold isInt; lia).
      rewrite Hnorm by (done || lia).
      replace (m - 1 + 1) with m by lia.
      destruct (Z.eqb_spec m 13); [lia|]. destruct (Z.eqb_spec m 0); [lia|]. done.
  - by rewrite Hup.
  - by rewrite Hdown.
Qed.

End RequestFacts.

(** ** The lookup of holidays *)

Section HolidayFacts.

Import Holidays.

Lemma lit_inj s t : lit s = lit t → s = t.
Proof.
  unfold lit. intros H.
  rewrite <- (string_of_list_ascii_of_string s), <- (string_of_list_ascii_of_string t).
  f_equal. revert H. generalize (list_ascii_of_string s), (list_ascii_of_string t).
  intros l. induction l as [|a l IH]; intros [|b k]; simpl; try done.
  intros [= Hab Hl]. f_equal; [|by apply IH].
  apply Nat2Z.inj in Hab.
  rewrite <- (ascii_nat_embedding a), <- (ascii_nat_embedding b). by f_equal.
Qed.

(** Two numbers with the same decimal numeral are the same. *)
Lemma d_inj n n' : Fmt.d n = Fmt.d n' → n = n'.
Proof.
  unfold Fmt.d. intros H%lit_inj. apply DecimalZ.to_int_inj.
  assert (∀ z, NilZero.int_of_string (NilZero.string_of_int (Z.to_int z))
               = Some (Z.to_int z)) as Hisi.
  { intros z. apply NilZero.isi; destruct z; simpl; try done;
      intros [= E]; by apply Unsigned.to_uint_nonnil in E. }
  pose proof (Hisi n) as Hn. rewrite H, Hisi in Hn. by injection Hn.
Qed.

Lemma twoDigits_all : TimeCheck.allFrom 100 0 twoDigits = true.
Proof. by vm_compute. Qed.

Lemma d02_digits k : 0 ≤ k ≤ 99 → Fmt.d02 k = [48 + k / 10; 48 + k mod 10].
Proof.
  intros Hk. pose proof (allFrom_spec _ _ _ twoDigits_all k ltac:(lia)) as H.
  by apply bool_decide_eq_true in H.
Qed.

(** Two dates with the same key are the same. *)
Lemma dateKey_inj month day month' day' :
  0 ≤ month ≤ 99 → 0 ≤ day ≤ 99 → 0 ≤ month' ≤ 99 → 0 ≤ day' ≤ 99 →
  dateKey month day = dateKey month' day' → month = month' ∧ day = day'.
Proof.
  intros Hm Hd Hm' Hd'. unfold dateKey. rewrite !d02_digits by done.
  intros [= H1 H2 H3 H4].
  pose proof (Z.div_mod month 10 ltac:(lia)). pose proof (Z.div_mod month' 10 ltac:(lia)).
  pose proof (Z.div_mod day 10 ltac:(lia)). pose proof (Z.div_mod day' 10 ltac:(lia)).
  lia.
Qed.

(** X17.  The lookup of a holiday: without data, or in data without the year or
    without the date, there is none; an entry put under the keys of a date
    is the one found for that date, and it changes what is found for no
    other date. *)
Theorem GetHolidayForDate_entry data year month day entry year' month' day' :
  0 ≤ month ≤ 99 → 0 ≤ day ≤ 99 → 0 ≤ month' ≤ 99 → 0 ≤ day' ≤ 99 →
  GetHolidayForDate None year' month' day' = None
  ∧ GetHolidayForDate (Some ∅) year' month' day' = None
  ∧ GetHolidayForDate (Some {[ Fmt.d year' := ∅ ]}) year' month' day' = None
  ∧ GetHolidayForDate (Some (withEntry data year month day entry)) year month day
    = Some {| IsHoliday := Holiday entry; Name := EntryName entry |}
  ∧ ((year', month', day') ≠ (year, month, day) →
     GetHolidayForDate (Some (withEntry data year month day entry)) year' month' day'
     = GetHolidayForDate (Some data) year' month' day').
Proof.
  intros Hm Hd Hm' Hd'. unfold GetHolidayForDate, withEntry. cbv zeta.
  fold (dateKey month' day'). fold (dateKey month day).
  split; [done|]. split; [by rewrite lookup_empty|]. split.
  { by rewrite lookup_singleton_eq, lookup_empty. }
  split.
  { by rewrite !lookup_insert_eq. }
  intros Hne. destruct (decide (year' = year)) as [->|Hy].
  - rewrite lookup_insert_eq.
    assert (dateKey month' day' ≠ dateKey month day) as Hk.
    { intros H%dateKey_inj; [|done..]. destruct H as [-> ->]. done. }
    rewrite lookup_insert_ne by done.
    destruct (data !! Fmt.d year); [done|]. simpl. by rewrite lookup_empty.
  - rewrite lookup_insert_ne; [done|]. intros H%d_inj. done.
Qed.

End HolidayFacts.

(** ** Padding, and the width line by line *)

Section PadFacts.

Import Strings Regexp Textwidth.

Variable tbl : rune → option (Z * Z).

Lemma foldr_max_app (l1 l2 : list Z) :
  foldr Z.max 0 (l1 ++ l2) = Z.max (foldr Z.max 0 l1) (foldr Z.max 0 l2).
Proof.
  induction l1 as [|x l1 IH]; simpl.
  - pose proof (foldr_max_nonneg l2). lia.
  - rewrite IH. lia.
Qed.

Lemma spaces_line n : NL ∉ replicate n SP.
Proof. intros [H _]%elem_of_replicate. discriminate H. Qed.

(** The width of a text with spaces after it: the spaces are on its last
    line. *)
Lemma StringWidth_spaces s n :
  StringWidth tbl (s ++ replicate n SP)
  = Z.max (StringWidth tbl s) (StringWidth tbl (default [] (last (Split s))) + Z.of_nat n).
Proof.
  destruct (Split_app s (replicate n SP)) as (ia & la & fb & rb & Hs & Hsp & Happ & _).
  rewrite (Split_line _ (spaces_line n)) in Hsp. injection Hsp as <- <-.
  pose proof (Split_lines s) as Hl. rewrite Hs in Hl.
  rewrite Forall_app, Forall_singleton in Hl. destruct Hl as [_ Hla].
  rewrite !(StringWidth_lines tbl (s ++ _)), (StringWidth_lines tbl s), Happ, Hs.
  rewrite last_snoc, !map_app, !foldr_max_app. cbn [map foldr default].
  change (id la) with la.
  assert (∀ l, NL ∉ l → lineWidth tbl l = StringWidth tbl l) as Hw.
  { intros l Hn. by rewrite StringWidth_line, lineWidth_clean. }
  rewrite !Hw; [|done|].
  - rewrite (StringWidth_line_spaces tbl la n Hla).
    pose proof (cleanWidth_nonneg tbl (stripANSI la)).
    rewrite <- (StringWidth_line tbl la Hla) in *. lia.
  - rewrite not_elem_of_app. split; [done | apply spaces_line].
Qed.

(** X18.  [PadRight]: the text with as many spaces after it as the target is
    above its width (none when it is not above).  The spaces are on the
    last line: the width becomes the larger of the width of the text and
    that of its last line with the spaces.  For a text of one line that is
    the larger of its width and the target, which a second call leaves as
    it is. *)
Theorem PadRight_spec s w :
  isInt (w - StringWidth tbl s) →
  let spaces := Z.max 0 (w - StringWidth tbl s) in
  PadRight tbl s w = s ++ replicate (Z.to_nat spaces) SP
  ∧ StringWidth tbl (PadRight tbl s w)
    = Z.max (StringWidth tbl s)
        (StringWidth tbl (default [] (last (Split s))) + spaces)
  ∧ (NL ∉ s →
     StringWidth tbl (PadRight tbl s w) = Z.max (StringWidth tbl s) w
     ∧ PadRight tbl (PadRight tbl s w) w = PadRight tbl s w).
Proof.
  intros Hw spaces.
  assert (PadRight tbl s w = s ++ replicate (Z.to_nat spaces) SP) as Hpad.
  { unfold PadRight, Repeat. cbv zeta. rewrite wrap64_id by done. unfold spaces.
    destruct (Z.leb_spec (w - StringWidth tbl s) 0).
    - replace (Z.to_nat _) with 0%nat by lia. by rewrite app_nil_r.
    - do 3 f_equal. lia. }
  split; [done|]. split.
  - rewrite Hpad, StringWidth_spaces. unfold spaces. lia.
  - intros Hs. by apply PadRight_line.
Qed.

Lemma Split_break a b : Split (a ++ NL :: b) = Split a ++ Split b.
Proof.
  induction a as [|c a IH]; [done|]. cbn [app Split]. rewrite IH.
  destruct (c =? NL); [done|].
  pose proof (Split_nonempty a). by destruct (Split a).
Qed.

Lemma length_Split_line s l : l ∈ Split s → (length l ≤ length s)%nat.
Proof.
  revert l. induction s as [|c s IH]; intros l; simpl.
  - intros ->%list_elem_of_singleton. done.
  - destruct (c =? NL).
    + intros [->|H]%elem_of_cons; [simpl; lia|]. specialize (IH l H). lia.
    + pose proof (Split_nonempty s) as Hne.
      destruct (Split s) as [|l0 ls]; [done|].
      intros [->|H]%elem_of_cons.
      * specialize (IH l0 ltac:(by left)). simpl. lia.
      * specialize (IH l ltac:(by right)). lia.
Qed.

Lemma length_stripANSI s : (length (stripANSI s) ≤ length s)%nat.
Proof.
  unfold stripANSI.
  apply (ReplaceAll_scan ansiMatcher (λ s out, (length out ≤ length s)%nat)).
  - apply ansiMatcher_consuming.
  - done.
  - intros c s' out _ H. simpl. lia.
  - intros c pre repl rest out Hm H. unfold ansiMatcher in Hm.
    destruct (ansiHere _); [|done]. injection Hm as <- _.
    simpl. rewrite length_app. lia.
Qed.

Lemma cleanWidth_bound x : cleanWidth tbl x ≤ 2 * Z.of_nat (length x).
Proof.
  unfold cleanWidth. pose proof (encodeGBK_exact tbl x) as H.
  destruct (encodeGBK tbl x) as [enc|].
  - destruct H as [_ ->]. clear. induction x as [|r x IH]; [done|].
    cbn [foldr length]. unfold WidthSpec.encodedColumns at 1.
    destruct (_ || _); lia.
  - rewrite fallbackWidth_exact. clear. induction x as [|r x IH]; [done|].
    cbn [foldr length]. unfold WidthSpec.fallbackColumns at 1.
    destruct (_ || _); [lia|]. destruct (_ <=? _); lia.
Qed.

(** X19.  The width of a text: it is that of its widest line, the lines being
    measured each on its own; it is never negative and never more than
    two columns for each code point. *)
Theorem StringWidth_by_lines a b s :
  StringWidth tbl (a ++ NL :: b) = Z.max (StringWidth tbl a) (StringWidth tbl b)
  ∧ 0 ≤ StringWidth tbl s ≤ 2 * Z.of_nat (length s).
Proof.
  split.
  - rewrite !(StringWidth_lines tbl), Split_break, map_app. apply foldr_max_app.
  - rewrite StringWidth_lines. split; [apply foldr_max_nonneg|].
    assert (∀ ls, (∀ l, l ∈ ls → (length l ≤ length s)%nat) →
                  foldr Z.max 0 (map (lineWidth tbl) ls) ≤ 2 * Z.of_nat (length s)) as H.
    { clear. intros ls. induction ls as [|l ls IH]; intros Hl; simpl; [lia|].
      pose proof (IH (λ l' H, Hl l' (list_elem_of_further _ _ _ H))).
      pose proof (Hl l (list_elem_of_here _ _)).
      rewrite lineWidth_clean.
      pose proof (cleanWidth_bound (stripANSI l)). pose proof (length_stripANSI l).
      lia. }
    apply H. apply length_Split_line.
Qed.

End PadFacts.

(** ** The request of the command line *)

Section ArgsFacts.

Import Calendar Main.

Variable Atoi : text → option Z.

Lemma Normalize_stay fuel r :
  1 ≤ Request.Month r ≤ 12 → Request.Normalize fuel r = Some r.
Proof.
  intros Hm. unfold Request.Normalize.
  assert (Request.rollForward fuel r = Some r) as ->.
  { destruct fuel; cbn [Request.rollForward];
      by destruct (Z.gtb_spec (Request.Month r) 12); [lia|]. }
  cbn [mbind option_bind].
  destruct fuel; cbn [Request.rollBack];
    by destruct (Z.ltb_spec (Request.Month r) 1); [lia|].
Qed.

Lemma normalized_stay fuel year month showYear :
  1 ≤ month ≤ 12 →
  normalized fuel year month showYear
  = Some ({| Request.Year := year; Request.Month := month;
             Request.Mode := if showYear then ModeYear else ModeMonth |}, None).
Proof. intros Hm. unfold normalized. cbv zeta. by rewrite Normalize_stay. Qed.

(** X20.  The request of the command line, as the usage of the command says:
    no argument is the current month, or the current year with the flag;
    one argument from 1 to 12 is that month of the current year, any other
    number a year, shown whole; with the flag one argument is a year; two
    arguments are a year and a month, and an error with the flag or with a
    month outside 1..12; more are an error. *)
Theorem parseRequest_usage fuel now a b c rest y m :
  Atoi a = Some y → Atoi b = Some m →
  let request year month mode :=
    Some ({| Request.Year := year; Request.Month := month; Request.Mode := mode |},
          @None parseError) in
  parseRequest Atoi fuel now false [] = request (Time.Year now) (Time.Month now) ModeMonth
  ∧ parseRequest Atoi fuel now true [] = request (Time.Year now) (Time.Month now) ModeYear
  ∧ parseRequest Atoi fuel now false [a]
    = (if (1 <=? y) && (y <=? 12) then request (Time.Year now) y ModeMonth
       else request y (Time.Month now) ModeYear)
  ∧ parseRequest Atoi fuel now true [a] = request y (Time.Month now) ModeYear
  ∧ parseRequest Atoi fuel now false [a; b]
    = (if (1 <=? m) && (m <=? 12) then request y m ModeMonth
       else Some (zeroRequest, Some (ErrMonthRange m)))
  ∧ parseRequest Atoi fuel now true [a; b] = Some (zeroRequest, Some ErrYearFlagArgs)
  ∧ ∀ showYear,
      parseRequest Atoi fuel now showYear (a :: b :: c :: rest)
      = Some (zeroRequest, Some ErrTooManyArgs).
Proof.
  intros Ha Hb request.
  pose proof (civil_spec now) as (Hnow & _ & _).
  unfold parseRequest, parseNumber. cbv zeta. rewrite Ha, Hb.
  rewrite !(normalized_stay fuel _ (Time.Month now)) by done.
  split; [done|]. split; [done|]. split.
  { destruct (Z.leb_spec 1 y), (Z.leb_spec y 12); cbn [andb]; try done.
    by rewrite normalized_stay by lia. }
  split; [done|]. split; [|done].
  destruct (Z.leb_spec 1 m), (Z.leb_spec m 12), (Z.ltb_spec m 1), (Z.gtb_spec m 12);
    cbn [andb orb]; try lia; try done.
  by rewrite normalized_stay by lia.
Qed.

(** X21.  Whatever the arguments, [parseRequest] gives a result: the zero
    request beside an error, or a request whose month is in 1..12, so that
    [Normalize] has nothing to do and its loops do not run. *)
Theorem parseRequest_month fuel now showYear args :
  ∃ result, parseRequest Atoi fuel now showYear args = Some result
            ∧ parsed showYear result.
Proof.
  pose proof (civil_spec now) as (Hnow & _ & _).
  assert (∀ year month mode, 1 ≤ month ≤ 12 → (showYear = true → mode = true) →
            ∃ result, normalized fuel year month mode = Some result
                      ∧ parsed showYear result) as Hok.
  { intros year month mode Hm Hmode. rewrite normalized_stay by done.
    eexists. split; [done|]. unfold parsed. cbn [fst snd Request.Month Request.Mode].
    split; [done|]. split; [by intros ->%Hmode|].
    intros fuel'. by apply Normalize_stay. }
  assert (∀ err, ∃ result, Some (zeroRequest, Some err) = Some result
                           ∧ parsed showYear result) as Herr.
  { intros err. by eexists. }
  unfold parseRequest, parseNumber. cbv zeta.
  destruct args as [|a [|b [|c rest]]]; [by apply Hok| | |apply Herr].
  - destruct showYear.
    + destruct (Atoi a); [by apply Hok | apply Herr].
    + destruct (Atoi a) as [val|]; [|apply Herr].
      destruct (Z.leb_spec 1 val), (Z.leb_spec val 12); cbn [andb];
        apply Hok; (done || lia).
  - destruct showYear; [apply Herr|].
    destruct (Atoi a) as [y|]; [|apply Herr].
    destruct (Atoi b) as [m|]; [|apply Herr].
    destruct (Z.ltb_spec m 1), (Z.gtb_spec m 12); cbn [orb]; try apply Herr.
    apply Hok; (done || lia).
Qed.

End ArgsFacts.

(** ** What the renderers show *)

Section RenderedFacts.

Import Strings Calendar Render.

Variable BySolar : Z → Z → Z → Lunar.
Variable tbl : rune → option (Z * Z).
Variable tableView : Z → list (list text) → text.
Variable tableWrapper : text → text.
Variable titleStyle : text → text.

(** The characters of a decimal numeral: digits, after a minus sign for a
    negative number. *)
Lemma uint_chars u :
  Forall (λ c, 48 ≤ c ≤ 57) (lit (NilEmpty.string_of_uint u)).
Proof. induction u; simpl; constructor; (done || by vm_compute). Qed.

Lemma d_chars n : Forall (λ c, c = 45 ∨ 48 ≤ c ≤ 57) (Fmt.d n).
Proof.
  assert (∀ u, Forall (λ c, c = 45 ∨ 48 ≤ c ≤ 57) (lit (NilZero.string_of_uint u)))
    as Hu.
  { intros u. eapply Forall_impl; [|intros c Hc; right; exact Hc].
    destruct u; try apply uint_chars. by repeat constructor. }
  unfold Fmt.d. destruct (Z.to_int n) as [u|u]; simpl.
  - apply Hu.
  - constructor; [by left | apply Hu].
Qed.

Lemma d_line n : NL ∉ Fmt.d n.
Proof.
  intros H. pose proof (proj1 (Forall_forall _ _) (d_chars n) NL H) as Hc.
  simpl in Hc. unfold NL in Hc. lia.
Qed.


Lemma Layout_one block w : Layout [block] w = Join (Lines block).
Proof. unfold Layout. cbn. by rewrite app_nil_r || done. Qed.

(** X23.  The calendar of the interactive view, with the color off: for a
    supported year and a month in 1..12 its lines are those of the block
    of the month, whatever the mode of the request and the width: the
    title, an empty line and the lines of the table; an error of the
    service comes with an empty text. *)
Theorem renderCalendar_lines svc year month mode :
  MinSupportedYear ≤ year ≤ MaxSupportedYear → 1 ≤ month ≤ 12 →
  ∃ view table,
    Title view = Fmt.d year ++ [32; 24180; 32] ++ Fmt.d month ++ [32; 26376]
    ∧ Lines (buildMonthBlock tbl tableView tableWrapper titleStyle true view)
      = Title view :: [] :: table
    ∧ ∀ fuel width, (6 ≤ fuel)%nat →
        Service_Month BySolar fuel svc year month = Some (view, None)
        ∧ ∃ output,
            Tui.renderCalendar BySolar tbl tableView tableWrapper titleStyle true
              fuel svc
              {| Request.Year := year; Request.Month := month; Request.Mode := mode |}
              width
            = Some (output, None)
            ∧ Split output = Title view :: [] :: table.
Proof.
  unfold MinSupportedYear, MaxSupportedYear. intros Hy Hm.
  destruct (Service_Month_weeks BySolar svc year month Hy Hm)
    as (ws & _ & _ & _ & Hloop).
  exists {| Year := year; Month := Time.Month (Time.Date year month 1);
            Title := Fmt.d year ++ [32; 24180; 32] ++ Fmt.d month ++ [32; 26376];
            Weeks := ws |}.
  eexists. split; [done|]. split; [reflexivity|].
  intros fuel width Hf. split; [by apply Hloop|].
  eexists. split.
  - unfold Tui.renderCalendar, Tui.fetchViews, BuildBlocks.
    cbn [Request.Year Request.Month]. rewrite Hloop by done.
    cbn [map]. by rewrite Layout_one.
  - cbn [Lines buildMonthBlock Title]. apply Split_Join; [done|].
    constructor; [|constructor; [apply not_elem_of_nil | apply Split_lines]].
    rewrite !not_elem_of_app. split; [apply d_line|].
    split; [by apply (bool_decide_unpack _)|].
    split; [apply d_line | by apply (bool_decide_unpack _)].
Qed.

End RenderedFacts.

(** ** Instances *)



Lemma Service_Month_spec_witness :
  (∀ fuel, Calendar.Service_Month plainLunar fuel plainService 1899 11
           = Some (Calendar.emptyView, Some Calendar.ErrYearOutOfRange))
  ∧ ∃ view,
      (∀ fuel, (6 ≤ fuel)%nat →
               Calendar.Service_Month plainLunar fuel plainService 2025 11
               = Some (view, None))
      ∧ Calendar.Year view = 2025
      ∧ (0 < length (Calendar.Weeks view) ≤ 6)%nat
      ∧ Forall (λ week, length week = 7%nat) (Calendar.Weeks view).
Proof.
  destruct (Service_Month_spec plainLunar plainService 1899 11) as [H _].
  destruct (Service_Month_spec plainLunar plainService 2025 11) as [_ H'].
  split.
  - apply H. left. by vm_compute.
  - apply H'; by vm_compute.
Defined.




(** The month 13 of 2025. *)
Lemma Service_Month_error_witness :
  Calendar.Service_Month plainLunar 0 plainService 2025 13
  = Some (Calendar.emptyView, Some Calendar.ErrInvalidMonth)
  ∧ Calendar.MinSupportedYear ≤ 2025 ≤ Calendar.MaxSupportedYear
  ∧ (13 < 1 ∨ 12 < 13).
Proof.
  split; [reflexivity|].
  destruct (Service_Month_error plainLunar plainService 0 2025 13
              Calendar.emptyView Calendar.ErrInvalidMonth)
    as (_ & _ & [Hmonth _]); [reflexivity|].
  exact (Hmonth eq_refl).
Defined.

(** The first of October 2025, a holiday in the data of the service. *)
Lemma Service_Month_lunar_witness :
  Calendar.hasLunarData nationalDay = true
  ∧ Calendar.HolidayInfo nationalDay
    = Holidays.GetHolidayForDate (Calendar.holidayData holidayService) 2025 10 1.
Proof.
  destruct (Service_Month_lunar plainLunar holidayService 6 2025 10
              nationalDayView nationalDay) as (_ & Hin & Hdata & _).
  - by vm_compute.
  - apply list_elem_of_In. vm_compute.
    repeat first [left; reflexivity | right].
  - split; [apply Hin; reflexivity|].
    destruct (Hdata (Hin eq_refl)) as (_ & _ & _ & Hinfo). exact Hinfo.
Defined.

(** The month 14 of 2025 is February 2026. *)
Lemma Normalize_spec_witness :
  ∃ r',
    Calendar.Request.Normalize 1
      {| Calendar.Request.Year := 2025; Calendar.Request.Month := 14;
         Calendar.Request.Mode := Calendar.ModeMonth |} = Some r'
    ∧ Calendar.Request.Year r' = 2026 ∧ Calendar.Request.Month r' = 2.
Proof.
  destruct (Normalize_spec 1
              {| Calendar.Request.Year := 2025; Calendar.Request.Month := 14;
                 Calendar.Request.Mode := Calendar.ModeMonth |})
    as (r' & Hn & Hy & Hm & _); [by vm_compute | by vm_compute |].
  exists r'. split; [exact Hn|]. split; [rewrite Hy | rewrite Hm]; reflexivity.
Defined.

(** After December 2025 comes January 2026, and back. *)
Lemma Request_moves_witness :
  Calendar.Request.NextMonth 1 december2025
  = Some {| Calendar.Request.Year := 2026; Calendar.Request.Month := 1;
            Calendar.Request.Mode := Calendar.ModeMonth |}
  ∧ (Calendar.Request.NextMonth 1 december2025 ≫= Calendar.Request.PreviousMonth 1)
    = Some december2025.
Proof.
  destruct (Request_moves 1 december2025) as (Hn & _ & Hb & _);
    [lia | by vm_compute | by vm_compute |].
  split; [exact Hn | exact Hb].
Defined.

(** The first of October 2025 in data that held nothing. *)
Lemma GetHolidayForDate_entry_witness :
  let entry := {| Holidays.Holiday := true; Holidays.EntryName := [] |} in
  Holidays.GetHolidayForDate (Some (withEntry ∅ 2025 10 1 entry)) 2025 10 1
  = Some {| Holidays.IsHoliday := true; Holidays.Name := [] |}
  ∧ Holidays.GetHolidayForDate (Some (withEntry ∅ 2025 10 1 entry)) 2025 10 2
    = Holidays.GetHolidayForDate (Some ∅) 2025 10 2.
Proof.
  intros entry.
  destruct (GetHolidayForDate_entry ∅ 2025 10 1 entry 2025 10 2)
    as (_ & _ & _ & Hhit & Hmiss); [lia | lia | lia | lia |].
  split; [exact Hhit | apply Hmiss; discriminate].
Defined.

(** Two lines, the second one shorter, and the target 3. *)
Lemma PadRight_spec_witness :
  let s := lit "ab" ++ [NL] ++ lit "c" in
  Textwidth.PadRight Textwidth.sampleTable s 3 = s ++ [SP]
  ∧ Textwidth.StringWidth Textwidth.sampleTable
      (Textwidth.PadRight Textwidth.sampleTable s 3) = 2.
Proof.
  intros s.
  destruct (PadRight_spec Textwidth.sampleTable s 3) as (Hpad & Hw & _);
    [by vm_compute|].
  split; [exact Hpad | rewrite Hw; reflexivity].
Defined.

(** The arguments 2012 and 12. *)
Lemma parseRequest_usage_witness :
  Main.parseRequest sampleAtoi 0 (Time.Date 2025 11 18) false [lit "2012"; lit "12"]
  = Some ({| Calendar.Request.Year := 2012; Calendar.Request.Month := 12;
             Calendar.Request.Mode := Calendar.ModeMonth |}, None)
  ∧ Main.parseRequest sampleAtoi 0 (Time.Date 2025 11 18) false [lit "2012"]
    = Some ({| Calendar.Request.Year := 2012; Calendar.Request.Month := 11;
               Calendar.Request.Mode := Calendar.ModeYear |}, None).
Proof.
  destruct (parseRequest_usage sampleAtoi 0 (Time.Date 2025 11 18)
              (lit "2012") (lit "12") [] [] 2012 12)
    as (_ & _ & Hone & _ & Htwo & _); [reflexivity | reflexivity |].
  split; [exact Htwo | exact Hone].
Defined.

(** November 2025 in the interactive view. *)
Lemma renderCalendar_lines_witness :
  ∃ view table,
    Calendar.Title view = lit "2025 " ++ [24180] ++ lit " 11 " ++ [26376]
    ∧ ∀ fuel width, (6 ≤ fuel)%nat →
        ∃ output,
          Tui.renderCalendar plainLunar Textwidth.sampleTable sampleTableView id id
            true fuel plainService
            {| Calendar.Request.Year := 2025; Calendar.Request.Month := 11;
               Calendar.Request.Mode := Calendar.ModeYear |} width
          = Some (output, None)
          ∧ Strings.Split output = Calendar.Title view :: [] :: table.
Proof.
  destruct (renderCalendar_lines plainLunar Textwidth.sampleTable sampleTableView id id
              plainService 2025 11 Calendar.ModeYear)
    as (view & table & Ht & _ & Hrun); [by vm_compute | lia |].
  exists view, table. split; [rewrite Ht; reflexivity|].
  intros fuel width Hf. destruct (Hrun fuel width Hf) as (_ & output & Ho).
  exists output. exact Ho.
Defined.

(** ** The tests of the repository, on the model *)

(** TestStringWidthMixedScripts, whatever the encoder tables hold. *)
Example test_StringWidth_mixed_scripts tbl :
  Textwidth.StringWidth tbl (lit "hello") = 5
  ∧ Textwidth.StringWidth tbl [20013; 25991] = 4
  ∧ Textwidth.StringWidth tbl [65; 20013] = 3
  ∧ Textwidth.StringWidth tbl (lit "ab" ++ [NL; 20013; 25991]) = 4.
Proof.
  vm_compute. by destruct (tbl 20013) as [[? ?]|], (tbl 25991) as [[? ?]|].
Qed.

(** TestPadRight. *)
Example test_PadRight :
  let tbl := Textwidth.sampleTable in
  Textwidth.StringWidth tbl (Textwidth.PadRight tbl [20013] 4) = 4
  ∧ Textwidth.PadRight tbl [20013] 4 = [20013; SP; SP].
Proof. by vm_compute. Qed.

(** TestInvalidMonth. *)
Example test_invalid_month lunar fuel s :
  Calendar.Service_Month lunar fuel s 2024 13
  = Some (Calendar.emptyView, Some Calendar.ErrInvalidMonth).
Proof. reflexivity. Qed.

(** TestMonthGeneratesCompleteWeeks: November 2025 seen on the 18th has six
    weeks of seven days from Sunday 26 October, and the 18th alone is today. *)
Example test_month_complete_weeks :
  ∃ view,
    Calendar.Service_Month plainLunar 6 plainService 2025 11 = Some (view, None)
    ∧ Calendar.Month view = 11
    ∧ Calendar.Title view = lit "2025 " ++ [24180] ++ lit " 11 " ++ [26376]
    ∧ length (Calendar.Weeks view) = 6%nat
    ∧ Forall (λ week, length week = 7%nat) (Calendar.Weeks view)
    ∧ (Calendar.Date <$> head (concat (Calendar.Weeks view))) = Some (Time.Date 2025 10 26)
    ∧ Time.Weekday (Time.Date 2025 10 26) = 0
    ∧ (Time.Day ∘ Calendar.Date <$> filter (λ d, Calendar.IsToday d = true)
                                      (concat (Calendar.Weeks view))) = [18].
Proof.
  eexists. split; [by vm_compute|]. vm_compute.
  repeat split; by repeat constructor.
Qed.

(** A holiday that is today, in a block of a row and its blank labels: the
    numeral and the label are both in the color of holidays. *)
Example holiday_today_block :
  Render.applyColors false
    ([BAR] ++ lit "  1 " ++ [BAR; NL; BAR] ++ lit "    " ++ [BAR])
    (Render.collectHighlights nationalDayView)
  = [BAR] ++ lit "  " ++ Render.holidayStart ++ lit "1" ++ Render.colorEnd ++ lit " "
    ++ [BAR; NL; BAR] ++ Render.holidayStart ++ lit "  " ++ Render.colorEnd
    ++ lit "  " ++ [BAR].
Proof. by vm_compute. Qed.
